(** * AI_DND: the command protocol and state reconciliation of the chat controller

    A shallow embedding of [src/components/ChatInterface.tsx] (command
    extraction, reconciliation, dice gating, autosave gating, level-up), of the
    dice roller component and of the constants they use; and, of the rest of
    the program, of the text shown while an answer streams, of the experience
    bar of the player panel, of the ability handlers of the character
    creator, of the key handling of the service module and of the start-up
    of the application.

    Conventions of the model.
    - A JavaScript string is the list of its UTF-16 code units ([text]).
    - A JavaScript number is an exact rational ([Q]): arithmetic and
      comparisons are those of the source, rounding of binary floating point
      is not represented.  [Infinity] appears only as the experience threshold
      of the last level and has a constructor of its own there.
    - An exception is a value of the result type ([Thrown]); [try]/[catch] is
      [try_catch].
    - A React handler reads the state of the render that created it and its
      [setX] calls are applied, in program order, to the pending state. *)

From Stdlib Require Import String Ascii.
From Stdlib Require Import List ZArith NArith QArith Qround Bool Lia Lqa DecimalString.
Import ListNotations.

Close Scope Q_scope.
Open Scope list_scope.
Set Warnings "-register-all".

(** ** Text *)

Definition char := N.
Definition text := list char.

(** [lit] reads an ASCII literal of the source; [js] is [lit] for literals
    that contain JSON: the apostrophe stands for the double quote (code unit
    34). *)
Definition lit (s : string) : text := map N_of_ascii (list_ascii_of_string s).
Definition js (s : string) : text :=
  map (fun c => if N.eqb c 39 then 34%N else c) (lit s).

Fixpoint text_eqb (a b : text) : bool :=
  match a, b with
  | [], [] => true
  | x :: a', y :: b' => N.eqb x y && text_eqb a' b'
  | _, _ => false
  end.

(** [s.startsWith(p)] *)
Fixpoint starts_with (p s : text) : bool :=
  match p, s with
  | [], _ => true
  | x :: p', y :: s' => N.eqb x y && starts_with p' s'
  | _ :: _, [] => false
  end.

(** [s.endsWith(p)] *)
Definition ends_with (p s : text) : bool := starts_with (rev p) (rev s).

(** WhiteSpace and LineTerminator code units of ECMAScript, as removed by
    [String.prototype.trim]. *)
Definition is_js_space (c : char) : bool :=
  existsb (N.eqb c)
    [9; 10; 11; 12; 13; 32; 160; 5760; 8192; 8193; 8194; 8195; 8196; 8197;
     8198; 8199; 8200; 8201; 8202; 8232; 8233; 8239; 8287; 12288; 65279]%N.

Fixpoint trim_start (s : text) : text :=
  match s with
  | [] => []
  | c :: s' => if is_js_space c then trim_start s' else s
  end.

Definition trim_end (s : text) : text := rev (trim_start (rev s)).

Definition trim (s : text) : text := trim_end (trim_start s).

Definition cleanPotentialUndefined (t : text) : text :=
  let undefinedSuffix := lit "undefined" in
  if ends_with undefinedSuffix t
  then trim (firstn (length t - length undefinedSuffix) t)
  else trim t.

(** ** The command patterns

    All eight patterns have the shape [/SIGIL::({.*?})/s]; the focus pattern
    has the alternative [|null] inside the group.  None is global, so [match]
    and [replace] act on the leftmost match only. *)

Record regex := { sigil : text; or_null : bool }.

Record regex_match := {
  m_pre : text;      (* the text before the match *)
  m_group1 : text;   (* the captured payload *)
  m_post : text      (* the text after the match *)
}.

Definition lbrace : char := 123%N.
Definition rbrace : char := 125%N.

(** [.*?}] : the shortest run of arbitrary code units (flag [s]) that is
    followed by a closing brace.  Returns the run and what follows the brace. *)
Fixpoint lazy_until_rbrace (s : text) : option (text * text) :=
  match s with
  | [] => None
  | c :: s' =>
      if N.eqb c rbrace then Some ([], s')
      else match lazy_until_rbrace s' with
           | Some (body, rest) => Some (c :: body, rest)
           | None => None
           end
  end.

(** [{.*?}] at the head of [s]. *)
Definition match_braces (s : text) : option (text * text) :=
  match s with
  | c :: s' =>
      if N.eqb c lbrace
      then match lazy_until_rbrace s' with
           | Some (body, rest) => Some (lbrace :: body ++ [rbrace], rest)
           | None => None
           end
      else None
  | [] => None
  end.

(** The group: the braces alternative first, then [null] where the pattern
    has it. *)
Definition match_group (r : regex) (s : text) : option (text * text) :=
  match match_braces s with
  | Some x => Some x
  | None =>
      if or_null r && starts_with (lit "null") s
      then Some (lit "null", skipn 4 s)
      else None
  end.

(** The whole pattern at the head of [s]. *)
Definition match_here (r : regex) (s : text) : option (text * text) :=
  if starts_with (sigil r) s
  then match_group r (skipn (length (sigil r)) s)
  else None.

(** [s.match(r)]: the start positions are tried from left to right. *)
Fixpoint regex_exec (r : regex) (s : text) : option regex_match :=
  match match_here r s with
  | Some (g, rest) => Some {| m_pre := []; m_group1 := g; m_post := rest |}
  | None =>
      match s with
      | [] => None
      | c :: s' =>
          match regex_exec r s' with
          | Some m => Some {| m_pre := c :: m_pre m;
                              m_group1 := m_group1 m;
                              m_post := m_post m |}
          | None => None
          end
      end
  end.

(** [s.replace(r, '')] *)
Definition regex_replace_empty (r : regex) (s : text) : text :=
  match regex_exec r s with
  | Some m => m_pre m ++ m_post m
  | None => s
  end.

Definition FOCUS_PANEL_UPDATE_REGEX := {| sigil := lit "FOCUS_PANEL_UPDATE::"; or_null := true |}.
Definition PLAYER_STATUS_UPDATE_REGEX := {| sigil := lit "PLAYER_STATUS_UPDATE::"; or_null := false |}.
Definition DICE_ROLL_REQUEST_REGEX := {| sigil := lit "DICE_ROLL_REQUEST::"; or_null := false |}.
Definition PLAYER_HP_UPDATE_REGEX := {| sigil := lit "PLAYER_HP_UPDATE::"; or_null := false |}.
Definition AWARD_XP_REGEX := {| sigil := lit "AWARD_XP::"; or_null := false |}.
Definition LEVEL_UP_INITIATE_REGEX := {| sigil := lit "LEVEL_UP_INITIATE::"; or_null := false |}.
Definition AWARD_ITEM_REGEX := {| sigil := lit "AWARD_ITEM::"; or_null := false |}.
Definition CONSUME_ITEM_REGEX := {| sigil := lit "CONSUME_ITEM::"; or_null := false |}.

(** ** JSON values and [JSON.parse]

    [JSON.parse] is the host's function, not the repository's; it is embedded
    as a lexer followed by a push-down parser, both consuming one symbol per
    step.  An object keeps its members in insertion order, a repeated key
    overwrites the earlier value. *)

Inductive json :=
| JNull
| JBool (b : bool)
| JNum (q : Q)
| JStr (s : text)
| JArr (l : list json)
| JObj (members : list (text * json)).

Inductive token :=
| TLBrace | TRBrace | TLBracket | TRBracket | TColon | TComma
| TStr (s : text) | TNum (q : Q) | TTrue | TFalse | TNull.

Definition is_digit (c : char) : bool := N.leb 48 c && N.leb c 57.

Definition is_json_space (c : char) : bool :=
  existsb (N.eqb c) [9; 10; 13; 32]%N.

(** Code units that can occur in a number literal. *)
Definition is_number_char (c : char) : bool :=
  is_digit c || existsb (N.eqb c) [45; 43; 46; 101; 69]%N.

Fixpoint span_digits (s : text) : text * text :=
  match s with
  | c :: s' =>
      if is_digit c then let (d, r) := span_digits s' in (c :: d, r)
      else ([], s)
  | [] => ([], [])
  end.

Definition digits_value (d : text) : Z :=
  fold_left (fun acc c => (acc * 10 + Z.of_N (c - 48))%Z) d 0%Z.

(** The value [m * 10^e]. *)
Definition decimal (m e : Z) : Q :=
  if (0 <=? e)%Z then inject_Z (m * 10 ^ e)
  else Qred (Qmake m (Z.to_pos (10 ^ (- e)))).

(** A number literal and its value: an optional minus sign; the integer
    part, a single zero or a non-empty digit string without a leading zero; an
    optional fraction, a dot and at least one digit; an optional exponent, the
    letter e or E, an optional sign and at least one digit. *)
Definition number_of_literal (s : text) : option Q :=
  let (negative, s1) :=
    match s with
    | c :: r => if N.eqb c 45 then (true, r) else (false, s)
    | [] => (false, s)
    end in
  let (ip, s2) := span_digits s1 in
  let int_ok :=
    match ip with
    | [] => false
    | [_] => true
    | c :: _ => negb (N.eqb c 48)
    end in
  let '(fp, frac_ok, s3) :=
    match s2 with
    | c :: r =>
        if N.eqb c 46
        then let (f, r') := span_digits r in
             (f, negb (Nat.eqb (length f) 0), r')
        else ([], true, s2)
    | [] => ([], true, s2)
    end in
  let '(ex, exp_ok, s4) :=
    match s3 with
    | c :: r =>
        if N.eqb c 101 || N.eqb c 69
        then
          let (eneg, r1) :=
            match r with
            | c' :: r' =>
                if N.eqb c' 45 then (true, r')
                else if N.eqb c' 43 then (false, r')
                else (false, r)
            | [] => (false, r)
            end in
          let (ed, r2) := span_digits r1 in
          ((if eneg then - digits_value ed else digits_value ed)%Z,
           negb (Nat.eqb (length ed) 0), r2)
        else (0%Z, true, s3)
    | [] => (0%Z, true, s3)
    end in
  match s4 with
  | [] =>
      if int_ok && frac_ok && exp_ok
      then
        let m := digits_value (ip ++ fp) in
        let v := decimal m (ex - Z.of_nat (length fp)) in
        Some (if negative then Qopp v else v)
      else None
  | _ :: _ => None
  end.

Definition hex_value (c : char) : option N :=
  if is_digit c then Some (c - 48)%N
  else if N.leb 97 c && N.leb c 102 then Some (c - 87)%N
  else if N.leb 65 c && N.leb c 70 then Some (c - 55)%N
  else None.

Inductive lex_mode :=
| LStart                              (* between two tokens *)
| LStr (acc : text)                   (* in a string; read so far, last first *)
| LEsc (acc : text)                   (* after a backslash *)
| LHex (acc : text) (k : nat) (v : N) (* in \uXXXX after k digits of value v *)
| LNum (acc : text)                   (* in a number; read so far, last first *)
| LWord (rest : text) (t : token).    (* in true, false or null *)

Definition lex_start (c : char) : option (lex_mode * list token) :=
  if is_json_space c then Some (LStart, [])
  else if N.eqb c 123 then Some (LStart, [TLBrace])
  else if N.eqb c 125 then Some (LStart, [TRBrace])
  else if N.eqb c 91 then Some (LStart, [TLBracket])
  else if N.eqb c 93 then Some (LStart, [TRBracket])
  else if N.eqb c 58 then Some (LStart, [TColon])
  else if N.eqb c 44 then Some (LStart, [TComma])
  else if N.eqb c 34 then Some (LStr [], [])
  else if N.eqb c 45 || is_digit c then Some (LNum [c], [])
  else if N.eqb c 116 then Some (LWord (lit "rue") TTrue, [])
  else if N.eqb c 102 then Some (LWord (lit "alse") TFalse, [])
  else if N.eqb c 110 then Some (LWord (lit "ull") TNull, [])
  else None.

Definition lex_escape (c : char) : option char :=
  if N.eqb c 34 then Some 34%N          (* quote *)
  else if N.eqb c 92 then Some 92%N     (* backslash *)
  else if N.eqb c 47 then Some 47%N     (* slash *)
  else if N.eqb c 98 then Some 8%N      (* b *)
  else if N.eqb c 102 then Some 12%N    (* f *)
  else if N.eqb c 110 then Some 10%N    (* n *)
  else if N.eqb c 114 then Some 13%N    (* r *)
  else if N.eqb c 116 then Some 9%N     (* t *)
  else None.

Definition lex_step (m : lex_mode) (c : char) : option (lex_mode * list token) :=
  match m with
  | LStart => lex_start c
  | LStr acc =>
      if N.eqb c 34 then Some (LStart, [TStr (rev acc)])
      else if N.eqb c 92 then Some (LEsc acc, [])
      else if N.ltb c 32 then None
      else Some (LStr (c :: acc), [])
  | LEsc acc =>
      if N.eqb c 117 then Some (LHex acc 0 0%N, [])
      else match lex_escape c with
           | Some x => Some (LStr (x :: acc), [])
           | None => None
           end
  | LHex acc k v =>
      match hex_value c with
      | Some d =>
          let v' := (v * 16 + d)%N in
          if Nat.eqb k 3 then Some (LStr (v' :: acc), [])
          else Some (LHex acc (S k) v', [])
      | None => None
      end
  | LNum acc =>
      if is_number_char c then Some (LNum (c :: acc), [])
      else match number_of_literal (rev acc), lex_start c with
           | Some q, Some (m', out) => Some (m', TNum q :: out)
           | _, _ => None
           end
  | LWord rest t =>
      match rest with
      | x :: rest' =>
          if N.eqb c x
          then match rest' with
               | [] => Some (LStart, [t])
               | _ :: _ => Some (LWord rest' t, [])
               end
          else None
      | [] => None
      end
  end.

Definition lex_end (m : lex_mode) : option (list token) :=
  match m with
  | LStart => Some []
  | LNum acc =>
      match number_of_literal (rev acc) with
      | Some q => Some [TNum q]
      | None => None
      end
  | _ => None
  end.

Fixpoint lex (m : lex_mode) (s : text) : option (list token) :=
  match s with
  | [] => lex_end m
  | c :: s' =>
      match lex_step m c with
      | Some (m', out) =>
          match lex m' s' with
          | Some toks => Some (out ++ toks)
          | None => None
          end
      | None => None
      end
  end.

(** [o[k] = v] on the member list of an object. *)
Fixpoint obj_set (k : text) (v : json) (ms : list (text * json)) : list (text * json) :=
  match ms with
  | [] => [(k, v)]
  | (k', v') :: ms' =>
      if text_eqb k' k then (k', v) :: ms' else (k', v') :: obj_set k v ms'
  end.

(** [o[k]]; [None] is [undefined]. *)
Fixpoint obj_get (k : text) (ms : list (text * json)) : option json :=
  match ms with
  | [] => None
  | (k', v) :: ms' => if text_eqb k' k then Some v else obj_get k ms'
  end.

(** An open container: the elements of an array read so far (last first), or
    the members of an object read so far and the key whose value is awaited. *)
Inductive frame :=
| FArr (done : list json)
| FObj (done : list (text * json)) (key : option text).

Inductive expect :=
| XValue       (* a value *)
| XFirstElem   (* after an opening bracket: a value or the closing bracket *)
| XFirstKey    (* after an opening brace: a key or the closing brace *)
| XKey         (* after a comma in an object: a key *)
| XColon       (* after a key *)
| XNext        (* after a value in a container: a comma or the closer *)
| XDone (v : json).

Definition deliver (v : json) (stack : list frame) : option (expect * list frame) :=
  match stack with
  | [] => Some (XDone v, [])
  | FArr done :: st => Some (XNext, FArr (v :: done) :: st)
  | FObj done (Some k) :: st => Some (XNext, FObj (obj_set k v done) None :: st)
  | FObj _ None :: _ => None
  end.

Definition start_value (t : token) (stack : list frame) : option (expect * list frame) :=
  match t with
  | TStr s => deliver (JStr s) stack
  | TNum q => deliver (JNum q) stack
  | TTrue => deliver (JBool true) stack
  | TFalse => deliver (JBool false) stack
  | TNull => deliver JNull stack
  | TLBracket => Some (XFirstElem, FArr [] :: stack)
  | TLBrace => Some (XFirstKey, FObj [] None :: stack)
  | _ => None
  end.

Definition parse_step (st : expect * list frame) (t : token) : option (expect * list frame) :=
  let (x, stack) := st in
  match x, stack, t with
  | XValue, _, _ => start_value t stack
  | XFirstElem, FArr _ :: rest, TRBracket => deliver (JArr []) rest
  | XFirstElem, _, _ => start_value t stack
  | XFirstKey, FObj _ _ :: rest, TRBrace => deliver (JObj []) rest
  | XFirstKey, FObj done _ :: rest, TStr k => Some (XColon, FObj done (Some k) :: rest)
  | XKey, FObj done _ :: rest, TStr k => Some (XColon, FObj done (Some k) :: rest)
  | XColon, _, TColon => Some (XValue, stack)
  | XNext, FArr _ :: _, TComma => Some (XValue, stack)
  | XNext, FArr done :: rest, TRBracket => deliver (JArr (rev done)) rest
  | XNext, FObj _ _ :: _, TComma => Some (XKey, stack)
  | XNext, FObj done _ :: rest, TRBrace => deliver (JObj done) rest
  | _, _, _ => None
  end.

Fixpoint parse_tokens (st : expect * list frame) (ts : list token) : option json :=
  match ts with
  | [] => match st with (XDone v, _) => Some v | _ => None end
  | t :: ts' =>
      match parse_step st t with
      | Some st' => parse_tokens st' ts'
      | None => None
      end
  end.

(** ** Exceptions *)

Inductive js_error := SyntaxError | TypeError.

Inductive outcome (A : Type) :=
| Ok (a : A)
| Thrown (e : js_error).
Arguments Ok {A} a.
Arguments Thrown {A} e.

Definition JSON_parse (s : text) : outcome json :=
  match lex LStart s with
  | Some toks =>
      match parse_tokens (XValue, []) toks with
      | Some v => Ok v
      | None => Thrown SyntaxError
      end
  | None => Thrown SyntaxError
  end.

(** Property read [v.k] on a parsed value: reading a property of [null]
    throws, a value other than an object has none of the properties the
    controller reads.  [None] is [undefined]. *)
Definition get_prop (v : json) (k : text) : outcome (option json) :=
  match v with
  | JNull => Thrown TypeError
  | JObj ms => Ok (obj_get k ms)
  | _ => Ok None
  end.

(** [a > b] on numbers. *)
Definition Qgtb (a b : Q) : bool :=
  match Qcompare a b with Gt => true | _ => false end.

(** Truthiness of a parsed value. *)
Definition truthy (v : json) : bool :=
  match v with
  | JNull => false
  | JBool b => b
  | JNum q => negb (Qeq_bool q 0)
  | JStr s => negb (Nat.eqb (length s) 0)
  | JArr _ | JObj _ => true
  end.

(** [Object.keys(v).length] for a value that is not [null]. *)
Definition Object_keys_length (v : json) : nat :=
  match v with
  | JObj ms => length ms
  | JArr l => length l
  | JStr s => length s
  | _ => 0
  end.

(** ** Number and string conversions of the host *)

Definition Z_toString (z : Z) : text :=
  lit (DecimalString.NilZero.string_of_int (Z.to_int z)).

Fixpoint fraction_digits (fuel : nat) (num den : Z) : text :=
  match fuel with
  | O => []
  | S f =>
      if (num =? 0)%Z then []
      else (48 + Z.to_N (num * 10 / den))%N :: fraction_digits f (num * 10 mod den) den
  end.

(** [String(n)] in positional notation (at most twenty fraction digits). *)
Definition Number_toString (q : Q) : text :=
  let n := Qnum (Qred q) in
  let d := Zpos (Qden (Qred q)) in
  if (d =? 1)%Z then Z_toString n
  else (if (n <? 0)%Z then [45%N] else [])
       ++ Z_toString (Z.abs n / d) ++ [46%N]
       ++ fraction_digits 20 (Z.abs n mod d) d.

Fixpoint join_comma (l : list text) : text :=
  match l with
  | [] => []
  | [x] => x
  | x :: l' => x ++ 44%N :: join_comma l'
  end.

(** [String(v)] *)
Fixpoint js_String (v : json) : text :=
  match v with
  | JNull => lit "null"
  | JBool true => lit "true"
  | JBool false => lit "false"
  | JNum q => Number_toString q
  | JStr s => s
  | JArr l =>
      join_comma
        ((fix elems (l : list json) : list text :=
            match l with
            | [] => []
            | JNull :: l' => [] :: elems l'
            | e :: l' => js_String e :: elems l'
            end) l)
  | JObj _ => lit "[object Object]"
  end.

(** [parseInt(s, 10)]; [None] is [NaN]. *)
Definition parseInt10 (s : text) : option Z :=
  let s1 := trim_start s in
  let (negative, s2) :=
    match s1 with
    | c :: r =>
        if N.eqb c 45 then (true, r)
        else if N.eqb c 43 then (false, r)
        else (false, s1)
    | [] => (false, s1)
    end in
  match fst (span_digits s2) with
  | [] => None
  | d => Some (if negative then - digits_value d else digits_value d)%Z
  end.

(** [s.toLowerCase()], on the letters A to Z. *)
Definition toLowerCase (s : text) : text :=
  map (fun c => if N.leb 65 c && N.leb c 90 then (c + 32)%N else c) s.

(** ** Data model ([types.ts]) *)

Inductive StatName :=
| Strength | Dexterity | Constitution | Intelligence | Wisdom | Charisma.

Definition StatName_values : list StatName :=
  [Strength; Dexterity; Constitution; Intelligence; Wisdom; Charisma].

Definition StatName_text (s : StatName) : text :=
  match s with
  | Strength => lit "Strength"
  | Dexterity => lit "Dexterity"
  | Constitution => lit "Constitution"
  | Intelligence => lit "Intelligence"
  | Wisdom => lit "Wisdom"
  | Charisma => lit "Charisma"
  end.

Definition StatName_eqb (a b : StatName) : bool :=
  match a, b with
  | Strength, Strength | Dexterity, Dexterity | Constitution, Constitution
  | Intelligence, Intelligence | Wisdom, Wisdom | Charisma, Charisma => true
  | _, _ => false
  end.

(** The member of the enumeration a parsed value is, if any
    ([Object.values(StatName).includes(v)]). *)
Definition StatName_of_json (v : json) : option StatName :=
  match v with
  | JStr s => find (fun n => text_eqb (StatName_text n) s) StatName_values
  | _ => None
  end.

Inductive ItemType :=
| Weapon | Armor | Potion | Quest | Misc | Food | Key | Book | Currency.

Definition ItemType_values : list ItemType :=
  [Weapon; Armor; Potion; Quest; Misc; Food; Key; Book; Currency].

Definition ItemType_text (t : ItemType) : text :=
  match t with
  | Weapon => lit "weapon"
  | Armor => lit "armor"
  | Potion => lit "potion"
  | Quest => lit "quest"
  | Misc => lit "misc"
  | Food => lit "food"
  | Key => lit "key"
  | Book => lit "book"
  | Currency => lit "currency"
  end.

Definition ItemType_eqb (a b : ItemType) : bool :=
  match a, b with
  | Weapon, Weapon | Armor, Armor | Potion, Potion | Quest, Quest
  | Misc, Misc | Food, Food | Key, Key | Book, Book | Currency, Currency => true
  | _, _ => false
  end.

Definition ItemType_of_json (v : json) : option ItemType :=
  match v with
  | JStr s => find (fun t => text_eqb (ItemType_text t) s) ItemType_values
  | _ => None
  end.

Record Item := {
  item_id : text;
  item_name : text;
  item_description : text;
  item_type : ItemType;
  item_quantity : Q
}.

Record Skill := { skill_name : text; skill_description : text }.

(** A focus target is kept as the object the model sent. *)
Definition FocusTargetInfo := json.

Record DiceRollRequest := {
  roll_id : text;
  statsToRoll : list StatName;
  roll_description : text
}.

Record XpAward := { xp_amount : Q; xp_reason : text }.

Record ItemAward := {
  award_name : text;
  award_description : text;
  award_type : ItemType;
  award_quantity : Q
}.

Record ItemConsumed := { consumed_name : text; consumed_quantity : Q }.

(** The fields the function initialises are never [undefined] in what it
    returns and carry their value; the others are optional. *)
Record ProcessedAiCommandsResult := {
  cleanedText : text;
  newHp : Q;
  newMaxHp : Q;
  newStatuses : list json;
  newFocusTargetInfo : option FocusTargetInfo;
  newDiceRollRequest : option DiceRollRequest;
  xpAward : option XpAward;
  levelUpInitiateReason : option text;
  itemAward : option ItemAward;
  itemConsumed : option ItemConsumed;
  newInventory : list Item;
  newCurrentXP : Q
}.

(** Field assignments [result.f = v]. *)
Definition set_cleanedText (v : text) (r : ProcessedAiCommandsResult) :=
  {| cleanedText := v; newHp := newHp r; newMaxHp := newMaxHp r;
     newStatuses := newStatuses r; newFocusTargetInfo := newFocusTargetInfo r;
     newDiceRollRequest := newDiceRollRequest r; xpAward := xpAward r;
     levelUpInitiateReason := levelUpInitiateReason r; itemAward := itemAward r;
     itemConsumed := itemConsumed r; newInventory := newInventory r;
     newCurrentXP := newCurrentXP r |}.

Definition set_newHp (v : Q) (r : ProcessedAiCommandsResult) :=
  {| cleanedText := cleanedText r; newHp := v; newMaxHp := newMaxHp r;
     newStatuses := newStatuses r; newFocusTargetInfo := newFocusTargetInfo r;
     newDiceRollRequest := newDiceRollRequest r; xpAward := xpAward r;
     levelUpInitiateReason := levelUpInitiateReason r; itemAward := itemAward r;
     itemConsumed := itemConsumed r; newInventory := newInventory r;
     newCurrentXP := newCurrentXP r |}.

Definition set_newMaxHp (v : Q) (r : ProcessedAiCommandsResult) :=
  {| cleanedText := cleanedText r; newHp := newHp r; newMaxHp := v;
     newStatuses := newStatuses r; newFocusTargetInfo := newFocusTargetInfo r;
     newDiceRollRequest := newDiceRollRequest r; xpAward := xpAward r;
     levelUpInitiateReason := levelUpInitiateReason r; itemAward := itemAward r;
     itemConsumed := itemConsumed r; newInventory := newInventory r;
     newCurrentXP := newCurrentXP r |}.

Definition set_newStatuses (v : list json) (r : ProcessedAiCommandsResult) :=
  {| cleanedText := cleanedText r; newHp := newHp r; newMaxHp := newMaxHp r;
     newStatuses := v; newFocusTargetInfo := newFocusTargetInfo r;
     newDiceRollRequest := newDiceRollRequest r; xpAward := xpAward r;
     levelUpInitiateReason := levelUpInitiateReason r; itemAward := itemAward r;
     itemConsumed := itemConsumed r; newInventory := newInventory r;
     newCurrentXP := newCurrentXP r |}.

Definition set_newFocusTargetInfo (v : option FocusTargetInfo) (r : ProcessedAiCommandsResult) :=
  {| cleanedText := cleanedText r; newHp := newHp r; newMaxHp := newMaxHp r;
     newStatuses := newStatuses r; newFocusTargetInfo := v;
     newDiceRollRequest := newDiceRollRequest r; xpAward := xpAward r;
     levelUpInitiateReason := levelUpInitiateReason r; itemAward := itemAward r;
     itemConsumed := itemConsumed r; newInventory := newInventory r;
     newCurrentXP := newCurrentXP r |}.

Definition set_newDiceRollRequest (v : option DiceRollRequest) (r : ProcessedAiCommandsResult) :=
  {| cleanedText := cleanedText r; newHp := newHp r; newMaxHp := newMaxHp r;
     newStatuses := newStatuses r; newFocusTargetInfo := newFocusTargetInfo r;
     newDiceRollRequest := v; xpAward := xpAward r;
     levelUpInitiateReason := levelUpInitiateReason r; itemAward := itemAward r;
     itemConsumed := itemConsumed r; newInventory := newInventory r;
     newCurrentXP := newCurrentXP r |}.

Definition set_xpAward (v : option XpAward) (r : ProcessedAiCommandsResult) :=
  {| cleanedText := cleanedText r; newHp := newHp r; newMaxHp := newMaxHp r;
     newStatuses := newStatuses r; newFocusTargetInfo := newFocusTargetInfo r;
     newDiceRollRequest := newDiceRollRequest r; xpAward := v;
     levelUpInitiateReason := levelUpInitiateReason r; itemAward := itemAward r;
     itemConsumed := itemConsumed r; newInventory := newInventory r;
     newCurrentXP := newCurrentXP r |}.

Definition set_levelUpInitiateReason (v : option text) (r : ProcessedAiCommandsResult) :=
  {| cleanedText := cleanedText r; newHp := newHp r; newMaxHp := newMaxHp r;
     newStatuses := newStatuses r; newFocusTargetInfo := newFocusTargetInfo r;
     newDiceRollRequest := newDiceRollRequest r; xpAward := xpAward r;
     levelUpInitiateReason := v; itemAward := itemAward r;
     itemConsumed := itemConsumed r; newInventory := newInventory r;
     newCurrentXP := newCurrentXP r |}.

Definition set_itemAward (v : option ItemAward) (r : ProcessedAiCommandsResult) :=
  {| cleanedText := cleanedText r; newHp := newHp r; newMaxHp := newMaxHp r;
     newStatuses := newStatuses r; newFocusTargetInfo := newFocusTargetInfo r;
     newDiceRollRequest := newDiceRollRequest r; xpAward := xpAward r;
     levelUpInitiateReason := levelUpInitiateReason r; itemAward := v;
     itemConsumed := itemConsumed r; newInventory := newInventory r;
     newCurrentXP := newCurrentXP r |}.

Definition set_itemConsumed (v : option ItemConsumed) (r : ProcessedAiCommandsResult) :=
  {| cleanedText := cleanedText r; newHp := newHp r; newMaxHp := newMaxHp r;
     newStatuses := newStatuses r; newFocusTargetInfo := newFocusTargetInfo r;
     newDiceRollRequest := newDiceRollRequest r; xpAward := xpAward r;
     levelUpInitiateReason := levelUpInitiateReason r; itemAward := itemAward r;
     itemConsumed := v; newInventory := newInventory r;
     newCurrentXP := newCurrentXP r |}.

Definition set_newInventory (v : list Item) (r : ProcessedAiCommandsResult) :=
  {| cleanedText := cleanedText r; newHp := newHp r; newMaxHp := newMaxHp r;
     newStatuses := newStatuses r; newFocusTargetInfo := newFocusTargetInfo r;
     newDiceRollRequest := newDiceRollRequest r; xpAward := xpAward r;
     levelUpInitiateReason := levelUpInitiateReason r; itemAward := itemAward r;
     itemConsumed := itemConsumed r; newInventory := v;
     newCurrentXP := newCurrentXP r |}.

Definition set_newCurrentXP (v : Q) (r : ProcessedAiCommandsResult) :=
  {| cleanedText := cleanedText r; newHp := newHp r; newMaxHp := newMaxHp r;
     newStatuses := newStatuses r; newFocusTargetInfo := newFocusTargetInfo r;
     newDiceRollRequest := newDiceRollRequest r; xpAward := xpAward r;
     levelUpInitiateReason := levelUpInitiateReason r; itemAward := itemAward r;
     itemConsumed := itemConsumed r; newInventory := newInventory r;
     newCurrentXP := v |}.

(** ** Computations that assign and may throw

    [M S A]: a computation over mutable state [S] that returns an [A] or
    throws; what it assigned before throwing stays assigned. *)

Definition M (S A : Type) := S -> outcome A * S.

Definition ret {S A} (a : A) : M S A := fun s => (Ok a, s).

Definition bind {S A B} (c : M S A) (k : A -> M S B) : M S B :=
  fun s =>
    match c s with
    | (Ok a, s') => k a s'
    | (Thrown e, s') => (Thrown e, s')
    end.

Definition lift {S A} (o : outcome A) : M S A := fun s => (o, s).

Definition try_catch {S A} (body : M S A) (handler : js_error -> M S A) : M S A :=
  fun s =>
    match body s with
    | (Ok a, s') => (Ok a, s')
    | (Thrown e, s') => handler e s'
    end.

Definition assign {S} (f : S -> S) : M S unit := fun s => (Ok tt, f s).

Declare Scope js_scope.
Delimit Scope js_scope with js.
Notation "x <- c ;; k" := (bind c (fun x => k))
  (at level 61, c at next level, right associativity) : js_scope.
Notation "c ;; k" := (bind c (fun _ => k))
  (at level 61, right associativity) : js_scope.
Open Scope js_scope.

(** [console.log], [console.warn] and [console.error] have no effect on the
    state and are left out. *)
Definition skip {S} : M S unit := ret tt.

(** The bodies of the [try] blocks assign fields of the local object
    [result] and nothing else. *)
Definition Body := M ProcessedAiCommandsResult unit.

(** ** The eight command blocks of [_updateStateAndParseCommands]

    Each [on_X] is the body of the [try] of block X, applied to the captured
    payload [m[1]]. *)

Definition on_PLAYER_HP_UPDATE (group1 : text) : Body :=
  hpUpdate <- lift (JSON_parse group1) ;;
  hp <- lift (get_prop hpUpdate (lit "hp")) ;;
  match hp with
  | Some (JNum n) => assign (set_newHp n)
  | _ => skip
  end ;;
  maxHp <- lift (get_prop hpUpdate (lit "maxHp")) ;;
  match maxHp with
  | Some (JNum n) => assign (set_newMaxHp n)
  | _ => skip
  end.

Definition on_PLAYER_STATUS_UPDATE (group1 : text) : Body :=
  statusUpdate <- lift (JSON_parse group1) ;;
  if truthy statusUpdate
  then
    statuses <- lift (get_prop statusUpdate (lit "statuses")) ;;
    match statuses with
    | Some (JArr l) => assign (set_newStatuses l)
    | _ => skip
    end
  else skip.

(** [l.every(stat => Object.values(StatName).includes(stat))], with the names
    read when it holds. *)
Fixpoint every_StatName (l : list json) : option (list StatName) :=
  match l with
  | [] => Some []
  | v :: l' =>
      match StatName_of_json v, every_StatName l' with
      | Some n, Some ns => Some (n :: ns)
      | _, _ => None
      end
  end.

Definition on_DICE_ROLL_REQUEST (group1 : text) : Body :=
  newDiceRollRequest <- lift (JSON_parse group1) ;;
  stats <- lift (get_prop newDiceRollRequest (lit "statsToRoll")) ;;
  match stats with
  | Some (JArr l) =>
      if Nat.ltb 0 (length l)
      then
        match every_StatName l with
        | Some names =>
            description <- lift (get_prop newDiceRollRequest (lit "description")) ;;
            match description with
            | Some (JStr d) =>
                id <- lift (get_prop newDiceRollRequest (lit "id")) ;;
                match id with
                | Some (JStr i) =>
                    assign (set_newDiceRollRequest
                              (Some {| roll_id := i; statsToRoll := names;
                                       roll_description := d |}))
                | _ => skip
                end
            | _ => skip
            end
        | None => skip
        end
      else skip
  | _ => skip
  end.

Fixpoint obj_remove (k : text) (ms : list (text * json)) : list (text * json) :=
  match ms with
  | [] => []
  | (k', v) :: ms' =>
      if text_eqb k' k then ms' else (k', v) :: obj_remove k ms'
  end.

(** [if (o.k !== undefined && typeof o.k !== 'number')
       o.k = parseInt(String(o.k), 10) || undefined;]
    A property set to [undefined] reads as an absent one and is removed. *)
Definition coerce_number_field (k : text) (o : json)
  : M ProcessedAiCommandsResult json :=
  field <- lift (get_prop o k) ;;
  match field, o with
  | Some (JNum _), _ => ret o
  | Some v, JObj ms =>
      match parseInt10 (js_String v) with
      | Some z =>
          if (z =? 0)%Z then ret (JObj (obj_remove k ms))
          else ret (JObj (obj_set k (JNum (inject_Z z)) ms))
      | None => ret (JObj (obj_remove k ms))
      end
  | _, _ => ret o
  end.

Definition on_FOCUS_PANEL_UPDATE (group1 : text) : Body :=
  clear <-
    (if text_eqb (toLowerCase group1) (lit "null") then ret true
     else
       v <- lift (JSON_parse group1) ;;
       if truthy v
       then v' <- lift (JSON_parse group1) ;;
            ret (Nat.eqb (Object_keys_length v') 0)
       else ret false) ;;
  if clear : bool
  then assign (set_newFocusTargetInfo None)
  else
    newFocusInfo <- lift (JSON_parse group1) ;;
    newFocusInfo <- coerce_number_field (lit "hp") newFocusInfo ;;
    newFocusInfo <- coerce_number_field (lit "maxHp") newFocusInfo ;;
    assign (set_newFocusTargetInfo (Some newFocusInfo)).

Definition on_AWARD_XP (group1 : text) : Body :=
  xpData <- lift (JSON_parse group1) ;;
  amount <- lift (get_prop xpData (lit "amount")) ;;
  match amount with
  | Some (JNum a) =>
      reason <- lift (get_prop xpData (lit "reason")) ;;
      match reason with
      | Some (JStr why) =>
          assign (set_xpAward (Some {| xp_amount := a; xp_reason := why |})) ;;
          assign (fun r => set_newCurrentXP (Qplus (newCurrentXP r) a) r)
      | _ => skip
      end
  | _ => skip
  end.

(** [l.findIndex(p)]; [None] is [-1]. *)
Fixpoint findIndex {A} (p : A -> bool) (l : list A) : option nat :=
  match l with
  | [] => None
  | x :: l' =>
      if p x then Some O
      else match findIndex p l' with
           | Some i => Some (S i)
           | None => None
           end
  end.

(** [l[i] = f(l[i])] for an index inside the list. *)
Fixpoint update_at {A} (i : nat) (f : A -> A) (l : list A) : list A :=
  match l, i with
  | [], _ => []
  | x :: l', O => f x :: l'
  | x :: l', S j => x :: update_at j f l'
  end.

(** [l.splice(i, 1)] *)
Fixpoint remove_at {A} (i : nat) (l : list A) : list A :=
  match l, i with
  | [], _ => []
  | _ :: l', O => l'
  | x :: l', S j => x :: remove_at j l'
  end.

Definition set_item_quantity (q : Q) (it : Item) : Item :=
  {| item_id := item_id it; item_name := item_name it;
     item_description := item_description it; item_type := item_type it;
     item_quantity := q |}.

Definition stackableTypes : list ItemType := [Potion; Misc; Food; Key; Currency].

Definition is_stackable (t : ItemType) : bool := existsb (ItemType_eqb t) stackableTypes.

(** The inventory part of the AWARD_ITEM block; [now] is [Date.now()]. *)
Definition award_inventory (now : Z) (itemData : ItemAward) (tempInventory : list Item)
  : list Item :=
  let existingItemIndex :=
    if is_stackable (award_type itemData)
    then findIndex (fun item => text_eqb (item_name item) (award_name itemData)
                                && ItemType_eqb (item_type item) (award_type itemData))
                   tempInventory
    else None in
  match existingItemIndex with
  | Some i =>
      update_at i (fun it => set_item_quantity
                               (Qplus (item_quantity it) (award_quantity itemData)) it)
                tempInventory
  | None =>
      tempInventory ++
      [{| item_id := award_name itemData ++ 45%N :: Z_toString now;
          item_name := award_name itemData;
          item_description := award_description itemData;
          item_type := award_type itemData;
          item_quantity := award_quantity itemData |}]
  end.

Definition on_AWARD_ITEM (now : Z) (group1 : text) : Body :=
  itemData <- lift (JSON_parse group1) ;;
  name <- lift (get_prop itemData (lit "name")) ;;
  match name with
  | Some (JStr n) =>
      description <- lift (get_prop itemData (lit "description")) ;;
      match description with
      | Some (JStr d) =>
          type <- lift (get_prop itemData (lit "type")) ;;
          match type with
          | Some ty =>
              match ItemType_of_json ty with
              | Some t =>
                  quantity <- lift (get_prop itemData (lit "quantity")) ;;
                  match quantity with
                  | Some (JNum q) =>
                      if Qgtb q 0
                      then
                        let data := {| award_name := n; award_description := d;
                                       award_type := t; award_quantity := q |} in
                        assign (set_itemAward (Some data)) ;;
                        assign (fun r => set_newInventory
                                           (award_inventory now data (newInventory r)) r)
                      else skip
                  | _ => skip
                  end
              | None => skip
              end
          | None => skip
          end
      | _ => skip
      end
  | _ => skip
  end.

(** The inventory part of the CONSUME_ITEM block; [None] when the block does
    not assign [result.newInventory]. *)
Definition consume_inventory (itemData : ItemConsumed) (tempInventory : list Item)
  : option (list Item) :=
  match findIndex (fun item => text_eqb (item_name item) (consumed_name itemData))
                  tempInventory with
  | Some itemIndex =>
      match nth_error tempInventory itemIndex with
      | Some held =>
          match Qcompare (item_quantity held) (consumed_quantity itemData) with
          | Gt =>
              Some (update_at itemIndex
                      (fun it => set_item_quantity
                                   (Qminus (item_quantity it) (consumed_quantity itemData)) it)
                      tempInventory)
          | Eq => Some (remove_at itemIndex tempInventory)
          | Lt => Some tempInventory
          end
      | None => None
      end
  | None => None
  end.

Definition on_CONSUME_ITEM (group1 : text) : Body :=
  itemData <- lift (JSON_parse group1) ;;
  name <- lift (get_prop itemData (lit "name")) ;;
  match name with
  | Some (JStr n) =>
      quantity <- lift (get_prop itemData (lit "quantity")) ;;
      match quantity with
      | Some (JNum q) =>
          if Qgtb q 0
          then
            let data := {| consumed_name := n; consumed_quantity := q |} in
            assign (set_itemConsumed (Some data)) ;;
            assign (fun r => match consume_inventory data (newInventory r) with
                             | Some inv => set_newInventory inv r
                             | None => r
                             end)
          else skip
      | _ => skip
      end
  | _ => skip
  end.

Definition on_LEVEL_UP_INITIATE (group1 : text) : Body :=
  levelUpData <- lift (JSON_parse group1) ;;
  reason <- lift (get_prop levelUpData (lit "reason")) ;;
  match reason with
  | Some (JStr why) => assign (set_levelUpInitiateReason (Some why))
  | _ => skip
  end.

(** The two local variables of [_updateStateAndParseCommands]. *)
Record locals := { processedText : text; result : ProcessedAiCommandsResult }.

(** A body, run on the variable [result]. *)
Definition on_result {A} (c : M ProcessedAiCommandsResult A) : M locals A :=
  fun s =>
    let (o, r) := c (result s) in
    (o, {| processedText := processedText s; result := r |}).

Definition assign_text (f : text -> text) : M locals unit :=
  assign (fun s => {| processedText := f (processedText s); result := result s |}).

(** One block:
    [const m = processedText.match(R);
     if (m && m[1]) { try { ... } catch (e) { console.error(...) }
                      processedText = processedText.replace(R, '').trim(); }] *)
Definition block (R : regex) (body : text -> Body) : M locals unit :=
  fun s =>
    match regex_exec R (processedText s) with
    | Some m =>
        if negb (Nat.eqb (length (m_group1 m)) 0)
        then
          (try_catch (on_result (body (m_group1 m))) (fun _ => skip) ;;
           assign_text (fun t => trim (regex_replace_empty R t))) s
        else skip s
    | None => skip s
    end.

(** The commands, in the order of their blocks. *)
Inductive command :=
| PLAYER_HP_UPDATE | PLAYER_STATUS_UPDATE | DICE_ROLL_REQUEST | FOCUS_PANEL_UPDATE
| AWARD_XP | AWARD_ITEM | CONSUME_ITEM | LEVEL_UP_INITIATE.

Definition regex_of (c : command) : regex :=
  match c with
  | PLAYER_HP_UPDATE => PLAYER_HP_UPDATE_REGEX
  | PLAYER_STATUS_UPDATE => PLAYER_STATUS_UPDATE_REGEX
  | DICE_ROLL_REQUEST => DICE_ROLL_REQUEST_REGEX
  | FOCUS_PANEL_UPDATE => FOCUS_PANEL_UPDATE_REGEX
  | AWARD_XP => AWARD_XP_REGEX
  | AWARD_ITEM => AWARD_ITEM_REGEX
  | CONSUME_ITEM => CONSUME_ITEM_REGEX
  | LEVEL_UP_INITIATE => LEVEL_UP_INITIATE_REGEX
  end.

Definition body_of (now : Z) (c : command) : text -> Body :=
  match c with
  | PLAYER_HP_UPDATE => on_PLAYER_HP_UPDATE
  | PLAYER_STATUS_UPDATE => on_PLAYER_STATUS_UPDATE
  | DICE_ROLL_REQUEST => on_DICE_ROLL_REQUEST
  | FOCUS_PANEL_UPDATE => on_FOCUS_PANEL_UPDATE
  | AWARD_XP => on_AWARD_XP
  | AWARD_ITEM => on_AWARD_ITEM now
  | CONSUME_ITEM => on_CONSUME_ITEM
  | LEVEL_UP_INITIATE => on_LEVEL_UP_INITIATE
  end.

Definition command_block (now : Z) (c : command) : M locals unit :=
  block (regex_of c) (body_of now c).

Definition parse_commands (now : Z) : M locals unit :=
  command_block now PLAYER_HP_UPDATE ;;
  command_block now PLAYER_STATUS_UPDATE ;;
  command_block now DICE_ROLL_REQUEST ;;
  command_block now FOCUS_PANEL_UPDATE ;;
  command_block now AWARD_XP ;;
  command_block now AWARD_ITEM ;;
  command_block now CONSUME_ITEM ;;
  command_block now LEVEL_UP_INITIATE ;;
  assign (fun s => {| processedText := processedText s;
                      result := set_cleanedText (processedText s) (result s) |}).

(** [now] is the value [Date.now()] has during the call. *)
Definition _updateStateAndParseCommands (now : Z)
    (aiText : text)
    (currentSnapshotHp currentSnapshotMaxHp : Q)
    (currentSnapshotStatuses : list json)
    (currentSnapshotFocusTarget : option FocusTargetInfo)
    (currentSnapshotDiceRollRequest : option DiceRollRequest)
    (currentSnapshotInventory : list Item)
    (currentSnapshotXP : Q)
  : outcome ProcessedAiCommandsResult :=
  let text0 := cleanPotentialUndefined aiText in
  let result0 :=
    {| cleanedText := text0;
       newHp := currentSnapshotHp;
       newMaxHp := currentSnapshotMaxHp;
       newStatuses := currentSnapshotStatuses;
       newFocusTargetInfo := currentSnapshotFocusTarget;
       newDiceRollRequest := None;
       xpAward := None;
       levelUpInitiateReason := None;
       itemAward := None;
       itemConsumed := None;
       newInventory := currentSnapshotInventory;
       newCurrentXP := currentSnapshotXP |} in
  match parse_commands now {| processedText := text0; result := result0 |} with
  | (Ok _, s) => Ok (result s)
  | (Thrown e, _) => Thrown e
  end.

(** ** Constants ([constants.ts]) *)

Definition BASE_STAT_VALUE : Q := 10%Q.
Definition MIN_STAT_VALUE : Q := 3%Q.
Definition XP_THRESHOLDS : list Q :=
  [0; 100; 300; 600; 1000; 1500; 2100; 2800; 3600; 4500]%Q.
Definition MAX_LEVEL : nat := length XP_THRESHOLDS.
Definition BASE_HP_GAIN_PER_LEVEL : Q := 8%Q.
Definition MAX_AUTO_REGEN_RETRIES : nat := 2.

(** ** The dice roller ([DiceRoller.performRoll]) *)

(** [Stats]: an object with an optional number for each ability. *)
Definition Stats := StatName -> option Q.

Record SingleStatRollResult := {
  statName : StatName;
  diceValue : Z;
  modifier : Z;
  totalValue : Z
}.

Record DiceRollReport := {
  rollId : text;
  rollDescription : text;
  results : list SingleStatRollResult
}.

(** The callback of [statsToRoll.map]; [random] is the value [Math.random()]
    returns in this call. *)
Definition roll_stat (characterStats : Stats) (random : Q) (name : StatName)
  : SingleStatRollResult :=
  let statValue :=
    match characterStats name with
    | Some v => v
    | None => BASE_STAT_VALUE
    end in
  let modifier := Qfloor (Qdiv (Qminus statValue 10) 2) in
  let diceValue := (1 + Qfloor (Qmult random 20))%Z in
  let totalValue := (diceValue + modifier)%Z in
  {| statName := name; diceValue := diceValue; modifier := modifier;
     totalValue := totalValue |}.

(** [map] calls its callback on the elements in order: the i-th result uses
    the i-th value of [Math.random()], counted from [i]. *)
Fixpoint roll_stats (characterStats : Stats) (randoms : nat -> Q) (i : nat)
    (names : list StatName) : list SingleStatRollResult :=
  match names with
  | [] => []
  | n :: names' =>
      roll_stat characterStats (randoms i) n
      :: roll_stats characterStats randoms (S i) names'
  end.

(** The report [performRoll] hands to [onRollComplete] once the animation and
    the display delay are over; [randoms] are the successive values of
    [Math.random()]. *)
Definition performRoll (request : DiceRollRequest) (characterStats : Stats)
    (randoms : nat -> Q) : DiceRollReport :=
  let rollResults := roll_stats characterStats randoms 0 (statsToRoll request) in
  {| rollId := roll_id request;
     rollDescription := roll_description request;
     results := rollResults |}.

(** ** The state of the chat controller ([ChatInterface])

    The identity of the character (name, race, class, backstory, world) is a
    constant property of the component and the conversation session is an
    object of the completion service; the state keeps whether a session is
    present.  The input field content, the error banner and the panel toggles
    are display state and are left out. *)

Inductive GamePhase := CharacterCreation | Gameplay | Error | Loading | LoadPrompt.

Definition GamePhase_eqb (a b : GamePhase) : bool :=
  match a, b with
  | CharacterCreation, CharacterCreation | Gameplay, Gameplay | Error, Error
  | Loading, Loading | LoadPrompt, LoadPrompt => true
  | _, _ => false
  end.

(** [xpToNextLevel]: a number or [Infinity]. *)
Inductive threshold := Finite (q : Q) | Infinity.

(** [currentXP - currentXpToNextLevel] *)
Inductive difference := Exactly (q : Q) | MinusInfinity.

Definition xp_minus (xp : Q) (t : threshold) : difference :=
  match t with
  | Finite q => Exactly (Qminus xp q)
  | Infinity => MinusInfinity
  end.

(** [xp >= t] *)
Definition xp_reaches (xp : Q) (t : threshold) : bool :=
  match t with
  | Finite q => match Qcompare xp q with Lt => false | _ => true end
  | Infinity => false
  end.

Inductive Sender := user | ai | system.

Definition Sender_eqb (a b : Sender) : bool :=
  match a, b with
  | user, user | ai, ai | system, system => true
  | _, _ => false
  end.

(** The text of a message: the model's narrative, the player's input, or one
    of the notes the controller composes (kept by their parameters). *)
Inductive MessageText :=
| Plain (t : text)
| XpGained (amount : Q) (reason : text)
| ItemGained (name : text) (quantity : Q)
| ItemUsed (name : text) (quantity : Q)
| LevelUpInitiated (reason : text)
| AlreadyAtMaxLevel (reason : text)
| IncompleteRetrying (finishReason : text) (attempt : nat)
| IncompleteGaveUp (finishReason : text)
| NarratorStalled
| RollMade (description : text) (rolled : list SingleStatRollResult)
| MaxLevelReached
| LevelGained (newLevel : nat) (ability : option text)
| ReadyForNextLevel.

(** [msg_id] is [None] for an identifier drawn from the clock and
    [Math.random()]: such an identifier is never looked up. *)
Record ChatMessage := {
  msg_id : option text;
  sender : Sender;
  msg_text : MessageText;
  finishReason : option text;
  isRegenerating : bool
}.

Record Character := {
  hp : Q;
  maxHp : Q;
  stats : Stats;
  skills : list Skill;
  statuses : list json;
  inventory : list Item;
  level : nat;
  character_currentXP : difference;
  xpToNextLevel : threshold
}.

Record SavedGame := {
  character : Character;
  saved_chatHistory : list ChatMessage;
  saved_focusTargetInfo : option FocusTargetInfo
}.

Record Props := {
  gamePhase : GamePhase;
  apiKeyAvailable : bool;
  Date_now : Z;             (* the clock during the handler *)
  chats_create_ok : bool    (* whether the service creates a session *)
}.

Record ChatState := {
  chatHistory : list ChatMessage;
  isAiTyping : bool;
  chatSession : bool;
  focusTargetInfo : option FocusTargetInfo;
  currentPlayerStatuses : list json;
  currentHp : Q;
  currentMaxHp : Q;
  currentStats : Stats;
  currentSkills : list Skill;
  currentLevel : nat;
  currentXP : Q;
  currentXpToNextLevel : threshold;
  currentInventory : list Item;
  activeDiceRollRequest : option DiceRollRequest;
  isDiceInterfaceActive : bool;
  isLevelUpModalOpen : bool;
  lastResolvedRollIdRef : option text
}.

(** What a handler does besides updating the state: the snapshot it hands to
    [saveGameInternalLogic], and the regeneration it schedules. *)
Record Effects := {
  saved : option SavedGame;
  regenerate : option (text * nat)
}.

Definition no_effects : Effects := {| saved := None; regenerate := None |}.

Inductive stream_result :=
| Completed (completeAiResponseText : text) (currentFinishReason : option text)
| Failed.

(** The [disabled] attribute of the input field and, with an empty input
    disabling it as well, of the send button. *)
Definition input_disabled (p : Props) (s : ChatState) : bool :=
  isAiTyping s || negb (apiKeyAvailable p) || isDiceInterfaceActive s
  || existsb isRegenerating (chatHistory s) || isLevelUpModalOpen s.

Definition system_note (t : MessageText) : ChatMessage :=
  {| msg_id := None; sender := system; msg_text := t;
     finishReason := None; isRegenerating := false |}.

Definition id_is (aiMessageId : text) (m : ChatMessage) : bool :=
  match msg_id m with
  | Some i => text_eqb i aiMessageId
  | None => false
  end.

(** [snapshotInventory.find(item => item.name === name)] as the callers of
    [_updateStateAndParseCommands] see it after the call.  The CONSUME_ITEM
    block decrements the quantity inside the item object it found; that
    object is the one of the snapshot unless the AWARD_ITEM block replaced it
    by a merged copy. *)
Definition originalItem_quantity (snapshotInventory : list Item)
    (r : ProcessedAiCommandsResult) (name : text) : option Q :=
  match findIndex (fun item => text_eqb (item_name item) name) snapshotInventory with
  | Some j =>
      match nth_error snapshotInventory j with
      | Some it =>
          let merged_at_j :=
            match itemAward r with
            | Some a =>
                is_stackable (award_type a)
                && match findIndex (fun item => text_eqb (item_name item) (award_name a)
                                               && ItemType_eqb (item_type item) (award_type a))
                                   snapshotInventory with
                   | Some e => Nat.eqb e j
                   | None => false
                   end
            | None => false
            end in
          match itemConsumed r with
          | Some c =>
              if text_eqb (consumed_name c) name
                 && negb merged_at_j
                 && Qgtb (item_quantity it) (consumed_quantity c)
              then Some (Qminus (item_quantity it) (consumed_quantity c))
              else Some (item_quantity it)
          | None => Some (item_quantity it)
          end
      | None => None
      end
  | None => None
  end.

(** State updates [setX(v)] used on the way through a handler. *)
Definition set_chatHistory (h : list ChatMessage) (s : ChatState) : ChatState :=
  {| chatHistory := h; isAiTyping := isAiTyping s; chatSession := chatSession s;
     focusTargetInfo := focusTargetInfo s;
     currentPlayerStatuses := currentPlayerStatuses s;
     currentHp := currentHp s; currentMaxHp := currentMaxHp s;
     currentStats := currentStats s; currentSkills := currentSkills s;
     currentLevel := currentLevel s; currentXP := currentXP s;
     currentXpToNextLevel := currentXpToNextLevel s;
     currentInventory := currentInventory s;
     activeDiceRollRequest := activeDiceRollRequest s;
     isDiceInterfaceActive := isDiceInterfaceActive s;
     isLevelUpModalOpen := isLevelUpModalOpen s;
     lastResolvedRollIdRef := lastResolvedRollIdRef s |}.

Definition set_isAiTyping (b : bool) (s : ChatState) : ChatState :=
  {| chatHistory := chatHistory s; isAiTyping := b; chatSession := chatSession s;
     focusTargetInfo := focusTargetInfo s;
     currentPlayerStatuses := currentPlayerStatuses s;
     currentHp := currentHp s; currentMaxHp := currentMaxHp s;
     currentStats := currentStats s; currentSkills := currentSkills s;
     currentLevel := currentLevel s; currentXP := currentXP s;
     currentXpToNextLevel := currentXpToNextLevel s;
     currentInventory := currentInventory s;
     activeDiceRollRequest := activeDiceRollRequest s;
     isDiceInterfaceActive := isDiceInterfaceActive s;
     isLevelUpModalOpen := isLevelUpModalOpen s;
     lastResolvedRollIdRef := lastResolvedRollIdRef s |}.

(** [setActiveDiceRollRequest], [setIsDiceInterfaceActive] and the assignment
    to [lastResolvedRollIdRef.current], which the code always makes together. *)
Definition set_dice (request : option DiceRollRequest) (active : bool)
    (lastResolved : option text) (s : ChatState) : ChatState :=
  {| chatHistory := chatHistory s; isAiTyping := isAiTyping s;
     chatSession := chatSession s;
     focusTargetInfo := focusTargetInfo s;
     currentPlayerStatuses := currentPlayerStatuses s;
     currentHp := currentHp s; currentMaxHp := currentMaxHp s;
     currentStats := currentStats s; currentSkills := currentSkills s;
     currentLevel := currentLevel s; currentXP := currentXP s;
     currentXpToNextLevel := currentXpToNextLevel s;
     currentInventory := currentInventory s;
     activeDiceRollRequest := request;
     isDiceInterfaceActive := active;
     isLevelUpModalOpen := isLevelUpModalOpen s;
     lastResolvedRollIdRef := lastResolved |}.

Definition set_isLevelUpModalOpen (b : bool) (s : ChatState) : ChatState :=
  {| chatHistory := chatHistory s; isAiTyping := isAiTyping s;
     chatSession := chatSession s;
     focusTargetInfo := focusTargetInfo s;
     currentPlayerStatuses := currentPlayerStatuses s;
     currentHp := currentHp s; currentMaxHp := currentMaxHp s;
     currentStats := currentStats s; currentSkills := currentSkills s;
     currentLevel := currentLevel s; currentXP := currentXP s;
     currentXpToNextLevel := currentXpToNextLevel s;
     currentInventory := currentInventory s;
     activeDiceRollRequest := activeDiceRollRequest s;
     isDiceInterfaceActive := isDiceInterfaceActive s;
     isLevelUpModalOpen := b;
     lastResolvedRollIdRef := lastResolvedRollIdRef s |}.

Definition set_lastResolvedRollIdRef (v : option text) (s : ChatState) : ChatState :=
  set_dice (activeDiceRollRequest s) (isDiceInterfaceActive s) v s.

Definition addMessageToHistory (m : ChatMessage) (s : ChatState) : ChatState :=
  set_chatHistory (chatHistory s ++ [m]) s.

(** [currentFinishReason && ['MAX_TOKENS', 'SAFETY', 'RECITATION'].includes(currentFinishReason)] *)
Definition interrupted (currentFinishReason : option text) : bool :=
  match currentFinishReason with
  | Some r => existsb (text_eqb r) [lit "MAX_TOKENS"; lit "SAFETY"; lit "RECITATION"]
  | None => false
  end.

(** The [catch] of [handleStreamAndProcessInternal], followed by its
    [finally]. *)
Definition stream_failed (cur : ChatState) (aiMessageId : text) : ChatState :=
  set_isAiTyping false
    (set_chatHistory
       (map (fun msg =>
               if id_is aiMessageId msg
               then {| msg_id := msg_id msg; sender := system;
                       msg_text := NarratorStalled;
                       finishReason := finishReason msg; isRegenerating := false |}
               else msg)
            (chatHistory cur))
       cur).

(** The call of [_updateStateAndParseCommands] in
    [handleStreamAndProcessInternal]: on the cleaned text of the stream, with
    the snapshot taken from the closure. *)
Definition reconcile (p : Props) (cl : ChatState) (completeAiResponseText : text)
  : outcome ProcessedAiCommandsResult :=
  let finalCleanedAiText := cleanPotentialUndefined completeAiResponseText in
  _updateStateAndParseCommands (Date_now p) finalCleanedAiText
    (currentHp cl) (currentMaxHp cl) (currentPlayerStatuses cl)
    (focusTargetInfo cl) (activeDiceRollRequest cl)
    (currentInventory cl) (currentXP cl).

(** [handleStreamAndProcessInternal], from the end of the stream on.

    [cl] is the state of the render which created the callback: the constants
    [currentHp], [isDiceInterfaceActive], [isLevelUpModalOpen] and the others
    of its closure.  [cur] is the pending state its [setX] calls apply to;
    the functional update of the conversation log and the reference
    [lastResolvedRollIdRef] read [cur]. *)
Definition handleStreamAndProcessInternal (p : Props) (cl cur : ChatState)
    (stream : stream_result) (aiMessageId : text)
    (isAutoRegen : bool) (retryCountIfAuto : nat) (isPostDiceRollResponse : bool)
  : ChatState * Effects :=
  match stream with
  | Failed => (stream_failed cur aiMessageId, no_effects)
  | Completed completeAiResponseText currentFinishReason =>
      let snapshotInventory := currentInventory cl in
      match reconcile p cl completeAiResponseText with
      | Thrown _ => (stream_failed cur aiMessageId, no_effects)
      | Ok processingResults =>
          let finalTextForDisplay := cleanedText processingResults in
          let xpNote :=
            match xpAward processingResults with
            | Some a => [system_note (XpGained (xp_amount a) (xp_reason a))]
            | None => []
            end in
          let itemNote :=
            match itemAward processingResults with
            | Some a => [system_note (ItemGained (award_name a) (award_quantity a))]
            | None => []
            end in
          let consumedNote :=
            match itemConsumed processingResults with
            | Some c =>
                match originalItem_quantity snapshotInventory processingResults
                        (consumed_name c) with
                | Some held =>
                    if Qgtb (consumed_quantity c) held then []
                    else [system_note (ItemUsed (consumed_name c) (consumed_quantity c))]
                | None => []
                end
            | None => []
            end in
          (* a reason counts when it is a non-empty string *)
          let initiateReason :=
            match levelUpInitiateReason processingResults with
            | Some why => if Nat.eqb (length why) 0 then None else Some why
            | None => None
            end in
          let initiateNote :=
            match initiateReason with
            | Some why => [system_note (LevelUpInitiated why)]
            | None => []
            end in
          let finalXPForLevelCheck := newCurrentXP processingResults in
          let shouldTriggerLevelUpModal :=
            match initiateReason with Some _ => true | None => false end
            || (xp_reaches finalXPForLevelCheck (currentXpToNextLevel cl)
                && Nat.ltb (currentLevel cl) MAX_LEVEL) in
          let opensModal :=
            shouldTriggerLevelUpModal && Nat.ltb (currentLevel cl) MAX_LEVEL in
          let maxLevelNote :=
            match initiateReason with
            | Some why =>
                if shouldTriggerLevelUpModal && negb (Nat.ltb (currentLevel cl) MAX_LEVEL)
                then [system_note (AlreadyAtMaxLevel why)]
                else []
            | None => []
            end in
          let systemMessagesToAdd :=
            xpNote ++ itemNote ++ consumedNote ++ initiateNote ++ maxLevelNote in
          (* the functional update of the conversation log *)
          let updatedHistory :=
            map (fun msg =>
                   if id_is aiMessageId msg
                   then {| msg_id := msg_id msg; sender := sender msg;
                           msg_text := Plain finalTextForDisplay;
                           finishReason := currentFinishReason;
                           isRegenerating := false |}
                   else msg)
                (chatHistory cur)
            ++ systemMessagesToAdd in
          let characterStateForSaveAndSession :=
            {| hp := newHp processingResults;
               maxHp := newMaxHp processingResults;
               stats := currentStats cl;
               skills := currentSkills cl;
               statuses := newStatuses processingResults;
               inventory := newInventory processingResults;
               level := currentLevel cl;
               character_currentXP := Exactly (newCurrentXP processingResults);
               xpToNextLevel := currentXpToNextLevel cl |} in
          let activates :=
            match newDiceRollRequest processingResults with
            | Some newRollReq =>
                match lastResolvedRollIdRef cur with
                | Some resolved => negb (text_eqb (roll_id newRollReq) resolved)
                | None => true
                end
            | None => false
            end in
          let conditionsForAutosave :=
            GamePhase_eqb (gamePhase p) Gameplay
            && apiKeyAvailable p
            && (negb (isDiceInterfaceActive cl) || isPostDiceRollResponse)
            && negb (isLevelUpModalOpen cl) in
          let retries := interrupted currentFinishReason && isAutoRegen
                         && Nat.ltb retryCountIfAuto MAX_AUTO_REGEN_RETRIES in
          let gaveUp := interrupted currentFinishReason && isAutoRegen
                        && negb (Nat.ltb retryCountIfAuto MAX_AUTO_REGEN_RETRIES) in
          let reason := match currentFinishReason with Some r => r | None => [] end in
          let returnedHistory :=
            if retries
            then updatedHistory
                 ++ [system_note (IncompleteRetrying reason (retryCountIfAuto + 1))]
            else if gaveUp
            then updatedHistory ++ [system_note (IncompleteGaveUp reason)]
            else updatedHistory in
          ({| chatHistory := returnedHistory;
              isAiTyping := false;
              chatSession := if chats_create_ok p then true else chatSession cur;
              focusTargetInfo := newFocusTargetInfo processingResults;
              currentPlayerStatuses := newStatuses processingResults;
              currentHp := newHp processingResults;
              currentMaxHp := newMaxHp processingResults;
              currentStats := currentStats cur;
              currentSkills := currentSkills cur;
              currentLevel := currentLevel cur;
              currentXP := newCurrentXP processingResults;
              currentXpToNextLevel := currentXpToNextLevel cur;
              currentInventory := newInventory processingResults;
              activeDiceRollRequest :=
                if activates then newDiceRollRequest processingResults
                else activeDiceRollRequest cur;
              isDiceInterfaceActive :=
                if activates then true else isDiceInterfaceActive cur;
              isLevelUpModalOpen :=
                if opensModal then true else isLevelUpModalOpen cur;
              lastResolvedRollIdRef :=
                if activates then None else lastResolvedRollIdRef cur |},
           {| saved :=
                if conditionsForAutosave
                then Some {| character := characterStateForSaveAndSession;
                             saved_chatHistory := updatedHistory;
                             saved_focusTargetInfo := newFocusTargetInfo processingResults |}
                else None;
              regenerate :=
                if retries then Some (aiMessageId, retryCountIfAuto + 1) else None |})
      end
  end.

Definition placeholder (id : text) : ChatMessage :=
  {| msg_id := Some id; sender := ai; msg_text := Plain (lit "...");
     finishReason := None; isRegenerating := true |}.

(** [handleSendMessage]; [stream] is what the completion stream of this turn
    delivers. *)
Definition handleSendMessage (p : Props) (s : ChatState) (userInput : text)
    (stream : stream_result) : ChatState * Effects :=
  if Nat.eqb (length (trim userInput)) 0 || isAiTyping s || negb (chatSession s)
     || isDiceInterfaceActive s
  then (s, no_effects)
  else
    let cur := set_lastResolvedRollIdRef None s in
    let cur := addMessageToHistory
                 {| msg_id := None; sender := user; msg_text := Plain userInput;
                    finishReason := None; isRegenerating := false |} cur in
    let cur := set_isAiTyping true cur in
    let aiMessageId := Z_toString (Date_now p) ++ lit "-ai-stream" in
    let cur := addMessageToHistory (placeholder aiMessageId) cur in
    handleStreamAndProcessInternal p s cur stream aiMessageId true 0 false.

(** [handleDiceRollComplete]; [stream] is what the completion stream delivers
    in answer to the roll report. *)
Definition handleDiceRollComplete (p : Props) (s : ChatState) (report : DiceRollReport)
    (stream : stream_result) : ChatState * Effects :=
  let cur := set_dice None false (Some (rollId report)) s in
  let cur := addMessageToHistory
               (system_note (RollMade (rollDescription report) (results report))) cur in
  if negb (chatSession s)
  then (cur, no_effects)
  else
    let cur := set_isAiTyping true cur in
    let aiMessageId := Z_toString (Date_now p) ++ lit "-ai-response-after-roll" in
    let cur := addMessageToHistory (placeholder aiMessageId) cur in
    handleStreamAndProcessInternal p s cur stream aiMessageId true 0 true.

(** ** Progression ([handleLevelUpComplete]) *)

Record LevelUpPayload := {
  chosenStatIncrease : option StatName;
  chosenAbility : option Skill
}.

(** [v || BASE_STAT_VALUE] for an optional number. *)
Definition or_base (v : option Q) : Q :=
  match v with
  | Some q => if Qeq_bool q 0 then BASE_STAT_VALUE else q
  | None => BASE_STAT_VALUE
  end.

Definition set_stat (stats : Stats) (n : StatName) (v : Q) : Stats :=
  fun m => if StatName_eqb m n then Some v else stats m.

(** [a < b] on numbers. *)
Definition Qltb (a b : Q) : bool :=
  match Qcompare a b with Lt => true | _ => false end.

Definition handleLevelUpComplete (p : Props) (s : ChatState) (payload : LevelUpPayload)
  : ChatState * Effects :=
  if negb (Nat.ltb (currentLevel s) MAX_LEVEL)
  then (set_isLevelUpModalOpen false
          (addMessageToHistory (system_note MaxLevelReached) s), no_effects)
  else
    let newLevel := currentLevel s + 1 in
    let newStats :=
      match chosenStatIncrease payload with
      | Some chosen =>
          match currentStats s chosen with
          | Some v => set_stat (currentStats s) chosen (Qplus (or_base (Some v)) 1)
          | None => currentStats s
          end
      | None => currentStats s
      end in
    let newSkills :=
      match chosenAbility payload with
      | Some ability => currentSkills s ++ [ability]
      | None => currentSkills s
      end in
    let newCon := or_base (newStats Constitution) in
    let newConModifier := Qfloor (Qdiv (Qminus newCon 10) 2) in
    let newMaxHpVal :=
      Qplus (Qplus (currentMaxHp s) BASE_HP_GAIN_PER_LEVEL) (inject_Z newConModifier) in
    let newCurrentXPVal := xp_minus (currentXP s) (currentXpToNextLevel s) in
    let clampedXP :=
      match newCurrentXPVal with
      | Exactly q => if Qltb q 0 then 0%Q else q
      | MinusInfinity => 0%Q
      end in
    let newXpToNextLevelThreshold :=
      if Nat.ltb newLevel MAX_LEVEL
      then Finite (nth newLevel XP_THRESHOLDS 0%Q)
      else Infinity in
    let congratulations :=
      system_note (LevelGained newLevel
                     (match chosenAbility payload with
                      | Some ability => Some (skill_name ability)
                      | None => None
                      end)) in
    let history := chatHistory s ++ [congratulations] in
    let updatedCharacterForAI :=
      {| hp := newMaxHpVal; maxHp := newMaxHpVal; stats := newStats;
         skills := newSkills; statuses := currentPlayerStatuses s;
         inventory := currentInventory s; level := newLevel;
         character_currentXP := newCurrentXPVal;
         xpToNextLevel := newXpToNextLevelThreshold |} in
    let autosaveConditions :=
      GamePhase_eqb (gamePhase p) Gameplay && apiKeyAvailable p
      && negb (isDiceInterfaceActive s) && negb (isLevelUpModalOpen s) in
    (* the functional update [setCurrentXP(prevXP => ...)] reads the
       experience just set *)
    let reopens :=
      xp_reaches clampedXP newXpToNextLevelThreshold && Nat.ltb newLevel MAX_LEVEL in
    ({| chatHistory :=
          if reopens then history ++ [system_note ReadyForNextLevel] else history;
        isAiTyping := isAiTyping s;
        chatSession := if chats_create_ok p then true else chatSession s;
        focusTargetInfo := focusTargetInfo s;
        currentPlayerStatuses := currentPlayerStatuses s;
        currentHp := newMaxHpVal;
        currentMaxHp := newMaxHpVal;
        currentStats := newStats;
        currentSkills := newSkills;
        currentLevel := newLevel;
        currentXP := clampedXP;
        currentXpToNextLevel := newXpToNextLevelThreshold;
        currentInventory := currentInventory s;
        activeDiceRollRequest := activeDiceRollRequest s;
        isDiceInterfaceActive := isDiceInterfaceActive s;
        isLevelUpModalOpen := reopens;
        lastResolvedRollIdRef := None |},
     {| saved :=
          if autosaveConditions
          then Some {| character := updatedCharacterForAI;
                       saved_chatHistory := history;
                       saved_focusTargetInfo := focusTargetInfo s |}
          else None;
        regenerate := None |}).

(** ** Notions used in the statements *)

(** The text a block leaves: the leftmost match of its pattern removed and
    the ends trimmed, or the text as it was when the pattern does not match. *)
Definition strip (R : regex) (t : text) : text :=
  match regex_exec R t with
  | Some m => trim (m_pre m ++ m_post m)
  | None => t
  end.

(** The snapshot a block leaves: the body run on the payload of the leftmost
    match, an exception of the body caught. *)
Definition effect (R : regex) (body : text -> Body) (t : text)
    (r : ProcessedAiCommandsResult) : ProcessedAiCommandsResult :=
  match regex_exec R t with
  | Some m => snd (try_catch (body (m_group1 m)) (fun _ => skip) r)
  | None => r
  end.

Definition run_block (R : regex) (body : text -> Body) (st : locals) : locals :=
  {| processedText := strip R (processedText st);
     result := effect R body (processedText st) (result st) |}.

Definition processing_order : list command :=
  [PLAYER_HP_UPDATE; PLAYER_STATUS_UPDATE; DICE_ROLL_REQUEST; FOCUS_PANEL_UPDATE;
   AWARD_XP; AWARD_ITEM; CONSUME_ITEM; LEVEL_UP_INITIATE].

Definition run_blocks (now : Z) (cs : list command) (st : locals) : locals :=
  fold_left (fun st c => run_block (regex_of c) (body_of now c) st) cs st.

(** The snapshot of the arguments, as [_updateStateAndParseCommands] sets it
    up before the first block. *)
Definition initial_result (t : text) (hp maxHp : Q) (sts : list json)
    (focus : option FocusTargetInfo) (inv : list Item) (xp : Q)
  : ProcessedAiCommandsResult :=
  {| cleanedText := t; newHp := hp; newMaxHp := maxHp; newStatuses := sts;
     newFocusTargetInfo := focus; newDiceRollRequest := None; xpAward := None;
     levelUpInitiateReason := None; itemAward := None; itemConsumed := None;
     newInventory := inv; newCurrentXP := xp |}.

(** A captured payload is the word [null] or runs from an opening brace to
    the first closing brace. *)
Definition payload_shape (g : text) : Prop :=
  g = lit "null" \/ exists body, g = lbrace :: body ++ [rbrace] /\ ~ In rbrace body.

(** The stackable categories, as the specification lists them. *)
Definition stackable_category (t : ItemType) : Prop :=
  t = Potion \/ t = Currency \/ t = Key \/ t = Food \/ t = Misc.

Definition same_name_and_category (n : text) (t : ItemType) (it : Item) : Prop :=
  item_name it = n /\ item_type it = t.

(** The entry an award adds to the inventory. *)
Definition new_entry (now : Z) (n d : text) (t : ItemType) (q : Q) : Item :=
  {| item_id := n ++ 45%N :: Z_toString now; item_name := n;
     item_description := d; item_type := t; item_quantity := q |}.

(** A dice-roll payload the specification accepts, without the upper bound
    on the number of abilities: [statsToRoll] is a non-empty array of names
    of the enumeration, [id] and [description] are strings. *)
Definition dice_payload_accepted (payload : text) (req : DiceRollRequest) : Prop :=
  exists obj l,
    JSON_parse payload = Ok obj /\
    get_prop obj (lit "statsToRoll") = Ok (Some (JArr l)) /\
    l <> [] /\
    l = map (fun n => JStr (StatName_text n)) (statsToRoll req) /\
    get_prop obj (lit "description") = Ok (Some (JStr (roll_description req))) /\
    get_prop obj (lit "id") = Ok (Some (JStr (roll_id req))).

(** The ability score a roll uses: the character's, or the baseline when the
    character has none. *)
Definition score (characterStats : Stats) (n : StatName) : Q :=
  match characterStats n with
  | Some v => v
  | None => 10%Q
  end.

Definition command_eqb (a b : command) : bool :=
  match a, b with
  | PLAYER_HP_UPDATE, PLAYER_HP_UPDATE
  | PLAYER_STATUS_UPDATE, PLAYER_STATUS_UPDATE
  | DICE_ROLL_REQUEST, DICE_ROLL_REQUEST
  | FOCUS_PANEL_UPDATE, FOCUS_PANEL_UPDATE
  | AWARD_XP, AWARD_XP
  | AWARD_ITEM, AWARD_ITEM
  | CONSUME_ITEM, CONSUME_ITEM
  | LEVEL_UP_INITIATE, LEVEL_UP_INITIATE => true
  | _, _ => false
  end.

(** The blocks that run before the block of [c], and those that run after. *)
Fixpoint before (c : command) (l : list command) : list command :=
  match l with
  | [] => []
  | x :: l' => if command_eqb x c then [] else x :: before c l'
  end.

Fixpoint after (c : command) (l : list command) : list command :=
  match l with
  | [] => []
  | x :: l' => if command_eqb x c then l' else after c l'
  end.

(** The state in which the block of [c] starts. *)
Definition state_before (now : Z) (c : command) (aiText : text) (hp maxHp : Q)
    (sts : list json) (focus : option FocusTargetInfo) (inv : list Item) (xp : Q)
  : locals :=
  let t0 := cleanPotentialUndefined aiText in
  run_blocks now (before c processing_order)
    {| processedText := t0; result := initial_result t0 hp maxHp sts focus inv xp |}.

(** ** Turns used as examples *)

(** An experience award whose payload lacks the closing brace, followed by a
    well-formed item award. *)
Definition unclosed_award_turn : text :=
  js "You win. AWARD_XP::{'amount':50,'reason':'victory' AWARD_ITEM::{'name':'Potion','description':'heals','type':'potion','quantity':1}".

(** The item award of [unclosed_award_turn] alone. *)
Definition item_award_turn : text :=
  js "You win. AWARD_ITEM::{'name':'Potion','description':'heals','type':'potion','quantity':1}".

(** The eight commands, the payload of the experience award malformed (its
    key is not quoted). *)
Definition eight_commands_turn : text :=
  js "The orc falls. FOCUS_PANEL_UPDATE::{'name':'Orc','hp':0,'maxHp':15,'type':'enemy'} PLAYER_HP_UPDATE::{'hp':12,'maxHp':20} PLAYER_STATUS_UPDATE::{'statuses':['Tired']} DICE_ROLL_REQUEST::{'id':'r7','statsToRoll':['Wisdom'],'description':'Search'} AWARD_XP::{amount:50,'reason':'victory'} AWARD_ITEM::{'name':'Axe','description':'rusty','type':'weapon','quantity':1} CONSUME_ITEM::{'name':'Potion','quantity':1} LEVEL_UP_INITIATE::{'reason':'growth'}".

Definition potion (q : Q) : Item :=
  {| item_id := lit "Potion-1"; item_name := lit "Potion";
     item_description := lit "heals"; item_type := Potion; item_quantity := q |}.

Definition consume_two_turn : text :=
  js "You drink. CONSUME_ITEM::{'name':'Potion','quantity':2}".

(** A roll request for four abilities, and one for a single ability. *)
Definition four_abilities_turn : text :=
  js "Brace yourself. DICE_ROLL_REQUEST::{'id':'r1','statsToRoll':['Strength','Dexterity','Wisdom','Charisma'],'description':'Hold the gate'}".

Definition one_ability_turn : text :=
  js "Brace yourself. DICE_ROLL_REQUEST::{'id':'r1','statsToRoll':['Strength'],'description':'Hold the gate'}".


(** The abilities of the examples of the specification: scores 10, 8, 16 and
    3, the other two abilities without a score. *)
Definition example_stats : Stats :=
  fun n =>
    match n with
    | Strength => Some 10%Q
    | Dexterity => Some 8%Q
    | Constitution => Some 16%Q
    | Intelligence => Some 3%Q
    | _ => None
    end.

Definition example_request : DiceRollRequest :=
  {| roll_id := lit "r1";
     statsToRoll := [Strength; Dexterity; Constitution; Intelligence; Wisdom];
     roll_description := lit "Hold the gate" |}.

(** A character of level 2 in active play: maximum health 20, Constitution
    14, 350 experience points against a threshold of 300, one potion. *)
Definition level_two_stats : Stats :=
  fun n => match n with Constitution => Some 14%Q | _ => Some 10%Q end.

Definition level_two_state : ChatState :=
  {| chatHistory := []; isAiTyping := false; chatSession := true;
     focusTargetInfo := None; currentPlayerStatuses := [];
     currentHp := 11; currentMaxHp := 20;
     currentStats := level_two_stats; currentSkills := [];
     currentLevel := 2; currentXP := 350; currentXpToNextLevel := Finite 300;
     currentInventory := [potion 1];
     activeDiceRollRequest := None; isDiceInterfaceActive := false;
     isLevelUpModalOpen := false; lastResolvedRollIdRef := None |}.

(** The same character with the level-up choice open and 950 experience
    points. *)
Definition level_two_rich_state : ChatState :=
  {| chatHistory := []; isAiTyping := false; chatSession := true;
     focusTargetInfo := None; currentPlayerStatuses := [];
     currentHp := 11; currentMaxHp := 20;
     currentStats := level_two_stats; currentSkills := [];
     currentLevel := 2; currentXP := 950; currentXpToNextLevel := Finite 300;
     currentInventory := [potion 1];
     activeDiceRollRequest := None; isDiceInterfaceActive := false;
     isLevelUpModalOpen := true; lastResolvedRollIdRef := None |}.

Definition constitution_fifteen_state : ChatState :=
  {| chatHistory := []; isAiTyping := false; chatSession := true;
     focusTargetInfo := None; currentPlayerStatuses := [];
     currentHp := 11; currentMaxHp := 20;
     currentStats := fun n => match n with Constitution => Some 15%Q | _ => Some 10%Q end;
     currentSkills := [];
     currentLevel := 2; currentXP := 350; currentXpToNextLevel := Finite 300;
     currentInventory := [];
     activeDiceRollRequest := None; isDiceInterfaceActive := false;
     isLevelUpModalOpen := true; lastResolvedRollIdRef := None |}.

Definition choose_strength : LevelUpPayload :=
  {| chosenStatIncrease := Some Strength; chosenAbility := None |}.

Definition playing : Props :=
  {| gamePhase := Gameplay; apiKeyAvailable := true; Date_now := 1700;
     chats_create_ok := true |}.

Definition choose_constitution : LevelUpPayload :=
  {| chosenStatIncrease := Some Constitution; chosenAbility := None |}.

(** The roll [r1] is on the table: the state in which the dice roller
    reports. *)
Definition rolling_state : ChatState :=
  {| chatHistory := []; isAiTyping := false; chatSession := true;
     focusTargetInfo := None; currentPlayerStatuses := [];
     currentHp := 11; currentMaxHp := 20;
     currentStats := level_two_stats; currentSkills := [];
     currentLevel := 2; currentXP := 50; currentXpToNextLevel := Finite 300;
     currentInventory := [potion 1];
     activeDiceRollRequest :=
       Some {| roll_id := lit "r1"; statsToRoll := [Strength];
               roll_description := lit "Hold the gate" |};
     isDiceInterfaceActive := true;
     isLevelUpModalOpen := false; lastResolvedRollIdRef := None |}.

Definition report_r1 : DiceRollReport :=
  performRoll {| roll_id := lit "r1"; statsToRoll := [Strength];
                 roll_description := lit "Hold the gate" |}
    level_two_stats (fun _ => Qmake 1 2).

(** A turn that asks for another roll, [r2]. *)
Definition next_roll_turn : text :=
  js "The gate holds. DICE_ROLL_REQUEST::{'id':'r2','statsToRoll':['Wisdom'],'description':'Listen'}".

(** A turn that awards enough experience for the next level. *)
Definition big_award_turn : text :=
  js "The dragon falls. AWARD_XP::{'amount':1000,'reason':'dragon'}".

Definition sword_award_turn : text :=
  js "A blade. AWARD_ITEM::{'name':'Sword','description':'sharp','type':'weapon','quantity':1}".

Definition consume_three_turn : text :=
  js "You drink deep. CONSUME_ITEM::{'name':'Potion','quantity':3}".

(** The eight commands back to back, all well formed, and nothing else. *)
Definition all_commands_turn : text :=
  js "FOCUS_PANEL_UPDATE::{'name':'Orc','hp':'7','maxHp':15,'type':'enemy'}PLAYER_HP_UPDATE::{'hp':12,'maxHp':20}PLAYER_STATUS_UPDATE::{'statuses':['Tired']}DICE_ROLL_REQUEST::{'id':'r7','statsToRoll':['Wisdom'],'description':'Search'}AWARD_XP::{'amount':50,'reason':'victory'}AWARD_ITEM::{'name':'Axe','description':'rusty','type':'weapon','quantity':1}CONSUME_ITEM::{'name':'Potion','quantity':1}LEVEL_UP_INITIATE::{'reason':'growth'}".

(** The inventory after a turn, for a character who held [inv] before. *)
Definition inventory_after (turn : text) (inv : list Item) : list Item :=
  match _updateStateAndParseCommands 1700 turn 20 20 [] None None inv 0 with
  | Ok r => newInventory r
  | Thrown _ => inv
  end.

(** * The rest of the program

    The parts of the controller, of the player panel, of the character
    creator, of the service module and of the start-up that the properties
    further down are about. *)

(** ** The text shown while the answer streams in *)

(** [_getDisplayableTextFromPartialAiResponse]: each pattern is removed once,
    in the order of the source, and the ends are trimmed once, at the end. *)
Definition _getDisplayableTextFromPartialAiResponse (aiText : text) : text :=
  let displayableText := cleanPotentialUndefined aiText in
  let displayableText := regex_replace_empty FOCUS_PANEL_UPDATE_REGEX displayableText in
  let displayableText := regex_replace_empty PLAYER_STATUS_UPDATE_REGEX displayableText in
  let displayableText := regex_replace_empty DICE_ROLL_REQUEST_REGEX displayableText in
  let displayableText := regex_replace_empty PLAYER_HP_UPDATE_REGEX displayableText in
  let displayableText := regex_replace_empty AWARD_XP_REGEX displayableText in
  let displayableText := regex_replace_empty LEVEL_UP_INITIATE_REGEX displayableText in
  let displayableText := regex_replace_empty AWARD_ITEM_REGEX displayableText in
  let displayableText := regex_replace_empty CONSUME_ITEM_REGEX displayableText in
  trim displayableText.

(** [s.includes(p)] *)
Fixpoint occurs (p s : text) : bool :=
  starts_with p s ||
  match s with
  | [] => false
  | _ :: s' => occurs p s'
  end.

(** The order in which the display removes the patterns. *)
Definition display_order : list command :=
  [FOCUS_PANEL_UPDATE; PLAYER_STATUS_UPDATE; DICE_ROLL_REQUEST; PLAYER_HP_UPDATE;
   AWARD_XP; LEVEL_UP_INITIATE; AWARD_ITEM; CONSUME_ITEM].

Definition remove_each (cs : list command) (s : text) : text :=
  fold_left (fun s c => regex_replace_empty (regex_of c) s) cs s.

(** ** Notions used for what a turn keeps *)

Definition positive_quantities (inv : list Item) : Prop :=
  Forall (fun it => (0 < item_quantity it)%Q) inv.

(** [respects R c]: the state [c] leaves, whether it returns or throws, is
    related by [R] to the state it started from. *)
Definition respects {S A : Type} (R : S -> S -> Prop) (c : M S A) : Prop :=
  forall s, R s (snd (c s)).

Definition inventory_stays_positive (r r' : ProcessedAiCommandsResult) : Prop :=
  positive_quantities (newInventory r) -> positive_quantities (newInventory r').

(** The fields of the snapshot in the result, the text apart. *)
Inductive field :=
| F_newHp | F_newMaxHp | F_newStatuses | F_newFocusTargetInfo
| F_newDiceRollRequest | F_xpAward | F_newCurrentXP | F_levelUpInitiateReason
| F_itemAward | F_itemConsumed | F_newInventory.

(** The commands whose block assigns the field. *)
Definition writers (f : field) : list command :=
  match f with
  | F_newHp | F_newMaxHp => [PLAYER_HP_UPDATE]
  | F_newStatuses => [PLAYER_STATUS_UPDATE]
  | F_newFocusTargetInfo => [FOCUS_PANEL_UPDATE]
  | F_newDiceRollRequest => [DICE_ROLL_REQUEST]
  | F_xpAward | F_newCurrentXP => [AWARD_XP]
  | F_levelUpInitiateReason => [LEVEL_UP_INITIATE]
  | F_itemAward => [AWARD_ITEM]
  | F_itemConsumed => [CONSUME_ITEM]
  | F_newInventory => [AWARD_ITEM; CONSUME_ITEM]
  end.

Definition same_field (f : field) (r r' : ProcessedAiCommandsResult) : Prop :=
  match f with
  | F_newHp => newHp r' = newHp r
  | F_newMaxHp => newMaxHp r' = newMaxHp r
  | F_newStatuses => newStatuses r' = newStatuses r
  | F_newFocusTargetInfo => newFocusTargetInfo r' = newFocusTargetInfo r
  | F_newDiceRollRequest => newDiceRollRequest r' = newDiceRollRequest r
  | F_xpAward => xpAward r' = xpAward r
  | F_newCurrentXP => newCurrentXP r' = newCurrentXP r
  | F_levelUpInitiateReason => levelUpInitiateReason r' = levelUpInitiateReason r
  | F_itemAward => itemAward r' = itemAward r
  | F_itemConsumed => itemConsumed r' = itemConsumed r
  | F_newInventory => newInventory r' = newInventory r
  end.

(** ** What [JSON.parse] keeps while it reads an object *)

Definition distinct_keys (ms : list (text * json)) : Prop := NoDup (map fst ms).

Definition frame_ok (f : frame) : Prop :=
  match f with
  | FArr _ => True
  | FObj done _ => distinct_keys done
  end.

(** The outermost open container is an object. *)
Fixpoint rooted_in_object (stack : list frame) : Prop :=
  match stack with
  | [] => False
  | [FObj _ _] => True
  | _ :: rest => rooted_in_object rest
  end.

Definition reading_object (st : expect * list frame) : Prop :=
  Forall frame_ok (snd st) /\
  match fst st with
  | XDone v => snd st = [] /\ exists ms, v = JObj ms /\ distinct_keys ms
  | _ => rooted_in_object (snd st)
  end.

(** ** The focus target *)

(** A member that is a number, or is not there. *)
Definition number_or_absent (k : text) (ms : list (text * json)) : Prop :=
  match obj_get k ms with
  | Some v => exists q, v = JNum q
  | None => True
  end.

(** A focus target whose [hp] and [maxHp] can be computed with. *)
Definition focus_with_numbers (f : option FocusTargetInfo) : Prop :=
  match f with
  | None => True
  | Some v =>
      exists ms, v = JObj ms /\
                 number_or_absent (lit "hp") ms /\ number_or_absent (lit "maxHp") ms
  end.

Definition focus_kept_or_numbers (r r' : ProcessedAiCommandsResult) : Prop :=
  newFocusTargetInfo r' = newFocusTargetInfo r \/
  focus_with_numbers (newFocusTargetInfo r').

(** ** What the result reports of a turn

    The experience an award leaves, the inventory an item award leaves and
    the inventory a consumption leaves, for the records of the result; no
    record, no change. *)
Definition after_xp_award (a : option XpAward) (xp : Q) : Q :=
  match a with
  | Some data => Qplus xp (xp_amount data)
  | None => xp
  end.

Definition after_award (now : Z) (a : option ItemAward) (inv : list Item)
  : list Item :=
  match a with
  | Some data => award_inventory now data inv
  | None => inv
  end.

Definition after_consumption (c : option ItemConsumed) (inv : list Item)
  : list Item :=
  match c with
  | Some data =>
      match consume_inventory data inv with
      | Some inv' => inv'
      | None => inv
      end
  | None => inv
  end.

Definition xp_as_reported (r r' : ProcessedAiCommandsResult) : Prop :=
  xpAward r = None ->
  newCurrentXP r' = after_xp_award (xpAward r') (newCurrentXP r).

Definition award_as_reported (now : Z) (r r' : ProcessedAiCommandsResult) : Prop :=
  itemAward r = None ->
  newInventory r' = after_award now (itemAward r') (newInventory r).

Definition consumption_as_reported (r r' : ProcessedAiCommandsResult) : Prop :=
  itemConsumed r = None ->
  newInventory r' = after_consumption (itemConsumed r') (newInventory r).

(** ** The events of the controller

    The two notes of the debug menu, as the code units of their text. *)
Definition forced_level_up_note : text :=
  [1054; 1090; 1083; 1072; 1076; 1082; 1072; 58; 32; 1055; 1088; 1080; 1085; 1091;
   1076; 1080; 1090; 1077; 1083; 1100; 1085; 1086; 1077; 32; 1087; 1086; 1074; 1099;
   1096; 1077; 1085; 1080; 1077; 32; 1091; 1088; 1086; 1074; 1085; 1103; 32; 1080;
   1085; 1080; 1094; 1080; 1080; 1088; 1086; 1074; 1072; 1085; 1086; 46]%N.

Definition forced_at_max_level_note : text :=
  [1054; 1090; 1083; 1072; 1076; 1082; 1072; 58; 32; 1055; 1077; 1088; 1089; 1086;
   1085; 1072; 1078; 32; 1091; 1078; 1077; 32; 1085; 1072; 32; 1084; 1072; 1082;
   1089; 1080; 1084; 1072; 1083; 1100; 1085; 1086; 1084; 32; 1091; 1088; 1086; 1074;
   1085; 1077; 46; 32; 1055; 1086; 1074; 1099; 1096; 1077; 1085; 1080; 1077; 32;
   1091; 1088; 1086; 1074; 1085; 1103; 32; 1085; 1077; 1074; 1086; 1079; 1084; 1086;
   1078; 1085; 1086; 46]%N.

(** The effect on [forceLevelUpTrigger], for a positive trigger. *)
Definition forceLevelUp (s : ChatState) : ChatState :=
  if Nat.ltb (currentLevel s) MAX_LEVEL
  then set_isLevelUpModalOpen true
         (addMessageToHistory (system_note (Plain forced_level_up_note)) s)
  else addMessageToHistory (system_note (Plain forced_at_max_level_note)) s.

(** [getCurrentCharacterState], the mechanical part. *)
Definition getCurrentCharacterState (s : ChatState) : Character :=
  {| hp := currentHp s; maxHp := currentMaxHp s; stats := currentStats s;
     skills := currentSkills s; statuses := currentPlayerStatuses s;
     inventory := currentInventory s; level := currentLevel s;
     character_currentXP := Exactly (currentXP s);
     xpToNextLevel := currentXpToNextLevel s |}.

(** [handleManualSaveGame]: the snapshot handed to [saveGameInternalLogic]. *)
Definition handleManualSaveGame (s : ChatState) : Effects :=
  {| saved := Some {| character := getCurrentCharacterState s;
                      saved_chatHistory := chatHistory s;
                      saved_focusTargetInfo := focusTargetInfo s |};
     regenerate := None |}.

(** What the player, the dice roller, the level-up dialog and the menus can
    make the controller do.  The regeneration of an answer
    ([handleRegenerateMessage]) is not among them. *)
Inductive event :=
| SendMessage (userInput : text) (stream : stream_result)
| DiceRollComplete (report : DiceRollReport) (stream : stream_result)
| LevelUpComplete (payload : LevelUpPayload)
| LevelUpDismissed
| ForceLevelUp
| ManualSave.

Definition handle (p : Props) (s : ChatState) (e : event) : ChatState * Effects :=
  match e with
  | SendMessage userInput stream => handleSendMessage p s userInput stream
  | DiceRollComplete report stream => handleDiceRollComplete p s report stream
  | LevelUpComplete payload => handleLevelUpComplete p s payload
  | LevelUpDismissed => (set_isLevelUpModalOpen false s, no_effects)
  | ForceLevelUp => (forceLevelUp s, no_effects)
  | ManualSave => (s, handleManualSaveGame s)
  end.

(** The state after a sequence of events, each with the properties and the
    clock of its moment. *)
Definition run (s : ChatState) (es : list (Props * event)) : ChatState :=
  fold_left (fun s pe => fst (handle (fst pe) s (snd pe))) es s.

(** [(level < MAX_LEVEL) ? XP_THRESHOLDS[level] : Infinity] *)
Definition threshold_of_level (level : nat) : threshold :=
  if Nat.ltb level MAX_LEVEL then Finite (nth level XP_THRESHOLDS 0%Q) else Infinity.

(** The level is within bounds, the threshold is the one of the level, and
    the level-up choice is open only below the maximum level. *)
Definition level_consistent (s : ChatState) : Prop :=
  currentLevel s <= MAX_LEVEL /\
  currentXpToNextLevel s = threshold_of_level (currentLevel s) /\
  (isLevelUpModalOpen s = true -> currentLevel s < MAX_LEVEL).

(** No answer is being written or regenerated. *)
Definition quiet (s : ChatState) : Prop :=
  isAiTyping s = false /\ Forall (fun m => isRegenerating m = false) (chatHistory s).

(** The fields of the state that describe the character and the workflows. *)
Definition same_game (s s' : ChatState) : Prop :=
  focusTargetInfo s' = focusTargetInfo s /\
  currentPlayerStatuses s' = currentPlayerStatuses s /\
  currentHp s' = currentHp s /\ currentMaxHp s' = currentMaxHp s /\
  currentStats s' = currentStats s /\ currentSkills s' = currentSkills s /\
  currentLevel s' = currentLevel s /\ currentXP s' = currentXP s /\
  currentXpToNextLevel s' = currentXpToNextLevel s /\
  currentInventory s' = currentInventory s /\
  activeDiceRollRequest s' = activeDiceRollRequest s /\
  isDiceInterfaceActive s' = isDiceInterfaceActive s /\
  isLevelUpModalOpen s' = isLevelUpModalOpen s.

(** ** The experience bar ([PlayerInfoPanel]) *)

(** [Math.max(a, b)] and [Math.min(a, b)] on numbers. *)
Definition Math_max (a b : Q) : Q := if Qltb a b then b else a.


(** ** Character creation ([CharacterCreator])

    A race or a class, by its identifier and its modifiers; the name, the
    description, the icon and the abilities are display text. *)
Record Race := { race_id : text; race_baseStatModifiers : Stats }.
Record Class := { class_id : text; class_baseStatModifiers : Stats }.

Record AiStatSuggestion := {
  stat_modifiers : Stats;
  world_elements : list text;
  suggested_skills : list Skill
}.

Definition MANUAL_POINTS_POOL : Q := 6%Q.

Definition AVAILABLE_RACES : list Race :=
  [ {| race_id := lit "human";
       race_baseStatModifiers := fun _ => Some 1%Q |};
    {| race_id := lit "elf";
       race_baseStatModifiers :=
         fun n => match n with
                  | Dexterity => Some 2%Q | Intelligence => Some 1%Q | _ => None
                  end |};
    {| race_id := lit "dwarf";
       race_baseStatModifiers :=
         fun n => match n with
                  | Constitution => Some 2%Q | Strength => Some 1%Q | _ => None
                  end |};
    {| race_id := lit "orc";
       race_baseStatModifiers :=
         fun n => match n with
                  | Strength => Some 2%Q | Constitution => Some 1%Q
                  | Charisma => Some (-1)%Q | _ => None
                  end |} ].

Definition AVAILABLE_CLASSES : list Class :=
  [ {| class_id := lit "warrior";
       class_baseStatModifiers :=
         fun n => match n with
                  | Strength => Some 2%Q | Constitution => Some 1%Q | _ => None
                  end |};
    {| class_id := lit "mage";
       class_baseStatModifiers :=
         fun n => match n with
                  | Intelligence => Some 2%Q | Wisdom => Some 1%Q | _ => None
                  end |};
    {| class_id := lit "rogue";
       class_baseStatModifiers :=
         fun n => match n with
                  | Dexterity => Some 2%Q | Charisma => Some 1%Q | _ => None
                  end |};
    {| class_id := lit "ranger";
       class_baseStatModifiers :=
         fun n => match n with
                  | Dexterity => Some 1%Q | Wisdom => Some 2%Q | _ => None
                  end |} ].

Inductive RaceClassSourceOption := standard_races_classes | ai_generated_races_classes.

(** The messages [setError] is given by the handlers of the abilities. *)
Inductive CreatorError :=
| StatBelowMinimum
| IncreaseLimitExceeded (prospectiveDelta : Q)
| DecreaseLimitExceeded (prospectiveDelta : Q)
| FieldsMissing.

Inductive operation := increment | decrement.

(** The state of the creator the ability handlers and the last step read and
    write.  The model identifier is always set (its state starts with the
    default model and is only ever given a model of the list). *)
Record CreatorState := {
  cc_step : nat;
  cc_characterName : text;
  cc_raceClassSource : RaceClassSourceOption;
  cc_generatedRaces : option (list Race);
  cc_generatedClasses : option (list Class);
  cc_selectedRaceId : option text;
  cc_selectedClassId : option text;
  cc_backstory : text;
  cc_currentStats : Stats;
  cc_statsAfterAi : option Stats;
  cc_aiSuggestions : option AiStatSuggestion;
  cc_error : option CreatorError;
  cc_totalPointsDelta : Q;
  cc_statsInitializedForManualStep : bool;
  cc_isGodModeEnabled : bool
}.

Definition racesToDisplay (st : CreatorState) : list Race :=
  match cc_raceClassSource st, cc_generatedRaces st with
  | ai_generated_races_classes, Some l => l
  | _, _ => AVAILABLE_RACES
  end.

Definition classesToDisplay (st : CreatorState) : list Class :=
  match cc_raceClassSource st, cc_generatedClasses st with
  | ai_generated_races_classes, Some l => l
  | _, _ => AVAILABLE_CLASSES
  end.

(** [id === selected], the selection being a string or [null]. *)
Definition is_selected (selected : option text) (id : text) : bool :=
  match selected with
  | Some s => text_eqb id s
  | None => false
  end.

(** [m || 0] for a number. *)
Definition or_zero (m : Q) : Q := if Qeq_bool m 0 then 0%Q else m.

(** [for (const stat in mods) acc[stat] = (acc[stat] || BASE_STAT_VALUE) + (mods[stat] || 0)] *)
Definition add_modifiers (acc mods : Stats) : Stats :=
  fun n =>
    match mods n with
    | Some m => Some (Qplus (or_base (acc n)) (or_zero m))
    | None => acc n
    end.

(** The same, for the abilities [acc] has ([acc[stat] !== undefined]). *)
Definition add_ai_modifiers (acc mods : Stats) : Stats :=
  fun n =>
    match mods n, acc n with
    | Some m, Some _ => Some (Qplus (or_base (acc n)) (or_zero m))
    | _, _ => acc n
    end.

Definition set_creator_stats (stats : Stats) (afterAi : option Stats)
    (delta : Q) (initialized : bool) (err : option CreatorError)
    (st : CreatorState) : CreatorState :=
  {| cc_step := cc_step st; cc_characterName := cc_characterName st;
     cc_raceClassSource := cc_raceClassSource st;
     cc_generatedRaces := cc_generatedRaces st;
     cc_generatedClasses := cc_generatedClasses st;
     cc_selectedRaceId := cc_selectedRaceId st;
     cc_selectedClassId := cc_selectedClassId st;
     cc_backstory := cc_backstory st;
     cc_currentStats := stats; cc_statsAfterAi := afterAi;
     cc_aiSuggestions := cc_aiSuggestions st;
     cc_error := err; cc_totalPointsDelta := delta;
     cc_statsInitializedForManualStep := initialized;
     cc_isGodModeEnabled := cc_isGodModeEnabled st |}.

Definition calculateCurrentStats (st : CreatorState) : CreatorState :=
  let baseCalcStats : Stats := fun _ => Some BASE_STAT_VALUE in
  let race := find (fun r => is_selected (cc_selectedRaceId st) (race_id r))
                   (racesToDisplay st) in
  let charClass := find (fun c => is_selected (cc_selectedClassId st) (class_id c))
                        (classesToDisplay st) in
  let baseCalcStats :=
    match race with
    | Some r => add_modifiers baseCalcStats (race_baseStatModifiers r)
    | None => baseCalcStats
    end in
  let baseCalcStats :=
    match charClass with
    | Some c => add_modifiers baseCalcStats (class_baseStatModifiers c)
    | None => baseCalcStats
    end in
  let afterAi :=
    match cc_aiSuggestions st with
    | Some suggestions => add_ai_modifiers baseCalcStats (stat_modifiers suggestions)
    | None => baseCalcStats
    end in
  if Nat.ltb (cc_step st) 7
  then set_creator_stats afterAi (Some afterAi) (cc_totalPointsDelta st)
         (cc_statsInitializedForManualStep st) (cc_error st) st
  else if Nat.eqb (cc_step st) 7 && negb (cc_statsInitializedForManualStep st)
  then set_creator_stats afterAi (Some afterAi) 0 true (cc_error st) st
  else set_creator_stats (cc_currentStats st) (Some afterAi) (cc_totalPointsDelta st)
         (cc_statsInitializedForManualStep st) (cc_error st) st.

(** The sum [prospectiveDelta] of [handleManualStatChange]: over the six
    abilities, the value in hand less the value after the suggestions. *)
Definition prospective_delta (current afterAi : Stats) : Q :=
  fold_left (fun acc sName =>
               Qplus acc (Qminus (or_base (current sName)) (or_base (afterAi sName))))
            StatName_values 0%Q.

Definition handleManualStatChange (st : CreatorState) (statName : StatName)
    (op : operation) : CreatorState :=
  match cc_statsAfterAi st with
  | None => st
  | Some statsAfterAi =>
      let currentValue := or_base (cc_currentStats st statName) in
      let newValue :=
        match op with
        | increment => Qplus currentValue 1
        | decrement => Qminus currentValue 1
        end in
      let reject e :=
        set_creator_stats (cc_currentStats st) (cc_statsAfterAi st)
          (cc_totalPointsDelta st) (cc_statsInitializedForManualStep st) (Some e) st in
      if Qltb newValue MIN_STAT_VALUE then reject StatBelowMinimum
      else
        let prospectiveDelta :=
          fold_left
            (fun acc sName =>
               let baseVal := or_base (statsAfterAi sName) in
               let currentValInLoop :=
                 if StatName_eqb sName statName then newValue
                 else or_base (cc_currentStats st sName) in
               Qplus acc (Qminus currentValInLoop baseVal))
            StatName_values 0%Q in
        if negb (cc_isGodModeEnabled st) && Qgtb prospectiveDelta MANUAL_POINTS_POOL
        then reject (IncreaseLimitExceeded prospectiveDelta)
        else if negb (cc_isGodModeEnabled st)
                && Qltb prospectiveDelta (Qopp MANUAL_POINTS_POOL)
        then reject (DecreaseLimitExceeded prospectiveDelta)
        else
          set_creator_stats (set_stat (cc_currentStats st) statName newValue)
            (cc_statsAfterAi st) prospectiveDelta
            (cc_statsInitializedForManualStep st) None st
  end.

(** The skill a character gets when the backstory gave none. *)
Definition no_generated_skills : Skill :=
  {| skill_name :=
       [1053; 1077; 1090; 32; 1089; 1075; 1077; 1085; 1077; 1088; 1080; 1088;
        1086; 1074; 1072; 1085; 1085; 1099; 1093; 32; 1085; 1072; 1074; 1099;
        1082; 1086; 1074]%N;
     skill_description :=
       [1055; 1088; 1077; 1076; 1099; 1089; 1090; 1086; 1088; 1080; 1103; 32;
        1085; 1077; 32; 1072; 1085; 1072; 1083; 1080; 1079; 1080; 1088; 1086;
        1074; 1072; 1083; 1072; 1089; 1100; 32; 1080; 1083; 1080; 32; 1048; 1048;
        32; 1085; 1077; 32; 1087; 1088; 1077; 1076; 1083; 1086; 1078; 1080; 1083;
        32; 1085; 1072; 1074; 1099; 1082; 1080; 46]%N |}.

(** [handleFinalizeCharacter]: the character handed to [onCharacterCreated],
    or the error shown.  Of the character, the part the game computes with. *)
Definition handleFinalizeCharacter (st : CreatorState) : Character + CreatorError :=
  let finalRace := find (fun r => is_selected (cc_selectedRaceId st) (race_id r))
                        (racesToDisplay st) in
  let finalClass := find (fun c => is_selected (cc_selectedClassId st) (class_id c))
                         (classesToDisplay st) in
  let is_empty (s : text) := Nat.eqb (length s) 0 in
  let unset (s : option text) :=
    match s with Some id => is_empty id | None => true end in
  if is_empty (cc_characterName st) || unset (cc_selectedRaceId st)
     || unset (cc_selectedClassId st) || is_empty (cc_backstory st)
     || match finalRace with Some _ => false | None => true end
     || match finalClass with Some _ => false | None => true end
  then inr FieldsMissing
  else
    let constitution := or_base (cc_currentStats st Constitution) in
    let conMod := Qfloor (Qdiv (Qminus constitution 10) 2) in
    let calculatedMaxHp := Math_max 10 (Qplus 20 (Qmult (inject_Z conMod) 2)) in
    inl {| hp := calculatedMaxHp; maxHp := calculatedMaxHp;
           stats := cc_currentStats st;
           skills := match cc_aiSuggestions st with
                     | Some suggestions => suggested_skills suggestions
                     | None => [no_generated_skills]
                     end;
           statuses := []; inventory := []; level := 1;
           character_currentXP := Exactly 0;
           (* XP_THRESHOLDS[1] || 100 *)
           xpToNextLevel :=
             Finite (match nth_error XP_THRESHOLDS 1 with
                     | Some t => if Qeq_bool t 0 then 100%Q else t
                     | None => 100%Q
                     end) |}.

(** The state [ChatInterface] starts in: the initial values of its state
    variables.  [initialHistory] and [initialFocusTarget] are [None] when the
    property is not given.  The experience of the state is a number: a
    character whose experience is not finite has no state here. *)
Definition initial_ChatState (initialCharacter : Character)
    (initialHistory : option (list ChatMessage))
    (initialFocusTarget : option FocusTargetInfo) : option ChatState :=
  match character_currentXP initialCharacter with
  | Exactly xp =>
      Some {| chatHistory := match initialHistory with Some h => h | None => [] end;
              isAiTyping := false;
              chatSession := false;
              focusTargetInfo := initialFocusTarget;
              currentPlayerStatuses := statuses initialCharacter;
              currentHp := hp initialCharacter;
              currentMaxHp := maxHp initialCharacter;
              currentStats := stats initialCharacter;
              currentSkills := skills initialCharacter;
              currentLevel := level initialCharacter;
              currentXP := xp;
              currentXpToNextLevel := xpToNextLevel initialCharacter;
              currentInventory := inventory initialCharacter;
              activeDiceRollRequest := None;
              isDiceInterfaceActive := false;
              isLevelUpModalOpen := false;
              lastResolvedRollIdRef := None |}
  | MinusInfinity => None
  end.


(** The manual changes of the abilities, one after the other, each handled
    in the state the one before it has left. *)
Definition manual_changes (st : CreatorState)
    (changes : list (StatName * operation)) : CreatorState :=
  fold_left (fun st c => handleManualStatChange st (fst c) (snd c)) changes st.

(** The points moved are those of the sum, lie within the pool, and no
    ability is below the floor. *)
Definition within_pool (st : CreatorState) (afterAi : Stats) : Prop :=
  (cc_totalPointsDelta st == prospective_delta (cc_currentStats st) afterAi)%Q /\
  (- MANUAL_POINTS_POOL <= cc_totalPointsDelta st <= MANUAL_POINTS_POOL)%Q /\
  forall n, (MIN_STAT_VALUE <= or_base (cc_currentStats st n))%Q.

(** The modifier an optional table of modifiers has for an ability. *)
Definition modifier_in (mods : option Stats) (n : StatName) : Q :=
  match mods with
  | Some m => match m n with Some q => q | None => 0%Q end
  | None => 0%Q
  end.

(** An elf mage at the manual step, before the abilities are computed. *)
Definition creating_elf_mage : CreatorState :=
  {| cc_step := 7;
     cc_characterName := lit "Aria";
     cc_raceClassSource := standard_races_classes;
     cc_generatedRaces := None;
     cc_generatedClasses := None;
     cc_selectedRaceId := Some (lit "elf");
     cc_selectedClassId := Some (lit "mage");
     cc_backstory := lit "Raised in the woods.";
     cc_currentStats := fun _ => Some BASE_STAT_VALUE;
     cc_statsAfterAi := None;
     cc_aiSuggestions := None;
     cc_error := None;
     cc_totalPointsDelta := 0;
     cc_statsInitializedForManualStep := false;
     cc_isGodModeEnabled := false |}.

(** Seven points on strength: the seventh is refused. *)
Definition seven_on_strength : list (StatName * operation) :=
  repeat (Strength, increment) 7.

(** ** The client of the completion service ([geminiService])

    What the module reads of its host: [process.env.API_KEY], when there is
    one, and whether [new GoogleGenAI({ apiKey })] returns for a key. *)
Record Host := {
  API_KEY : option text;
  GoogleGenAI_accepts : text -> bool
}.

(** The three variables of the module.  A client is known by the key it was
    built with. *)
Record ServiceState := {
  ai_client : option text;
  userProvidedApiKey : option text;
  isManuallyInitialized : bool
}.

Definition service_start : ServiceState :=
  {| ai_client := None; userProvidedApiKey := None; isManuallyInitialized := false |}.

Definition API_KEY_PLACEHOLDER : text := lit "YOUR_API_KEY_HERE_PLACEHOLDER".

(** The key of the environment, when [getAi] takes it:
    [process.env.API_KEY && process.env.API_KEY !== placeholder
     && process.env.API_KEY.length >= 10]. *)
Definition environment_key (host : Host) : option text :=
  match API_KEY host with
  | Some k =>
      if negb (Nat.eqb (length k) 0) && negb (text_eqb k API_KEY_PLACEHOLDER)
         && Nat.leb 10 (length k)
      then Some k else None
  | None => None
  end.

(** [getAi]; [None] in the first component when it throws. *)
Definition getAi (host : Host) (st : ServiceState) : option text * ServiceState :=
  let (apiKeyToUse, usedManualKey) :=
    match environment_key host with
    | Some k => (Some k, false)
    | None =>
        match userProvidedApiKey st with
        | Some k => if Nat.eqb (length k) 0 then (None, false) else (Some k, true)
        | None => (None, false)
        end
    end in
  match apiKeyToUse with
  | None => (None, st)
  | Some key =>
      if match ai_client st with Some _ => false | None => true end
         || (usedManualKey && negb (isManuallyInitialized st))
         || (negb usedManualKey && isManuallyInitialized st)
      then
        if GoogleGenAI_accepts host key
        then (Some key,
              {| ai_client := Some key;
                 userProvidedApiKey := userProvidedApiKey st;
                 isManuallyInitialized := usedManualKey |})
        else (None,
              {| ai_client := None;
                 userProvidedApiKey :=
                   if usedManualKey then None else userProvidedApiKey st;
                 isManuallyInitialized := false |})
      else (ai_client st, st)
  end.

(** [trySetManualApiKey] *)
Definition trySetManualApiKey (host : Host) (key : text) (st : ServiceState)
  : bool * ServiceState :=
  if Nat.eqb (length key) 0 || Nat.ltb (length (trim key)) 10
  then (false, service_start)
  else
    match getAi host {| ai_client := None; userProvidedApiKey := Some (trim key);
                        isManuallyInitialized := false |} with
    | (Some _, st') => (true, st')
    | (None, st') =>
        (false, {| ai_client := ai_client st'; userProvidedApiKey := None;
                   isManuallyInitialized := isManuallyInitialized st' |})
    end.

(** [clearManualApiKey] *)
Definition clearManualApiKey (st : ServiceState) : ServiceState := service_start.

(** The calls the rest of the program makes to the module. *)
Inductive service_call := GetAi | TrySetManualApiKey (key : text) | ClearManualApiKey.

Definition service_step (host : Host) (st : ServiceState) (c : service_call)
  : ServiceState :=
  match c with
  | GetAi => snd (getAi host st)
  | TrySetManualApiKey key => snd (trySetManualApiKey host key st)
  | ClearManualApiKey => clearManualApiKey st
  end.

Definition service_after (host : Host) (calls : list service_call) : ServiceState :=
  fold_left (service_step host) calls service_start.

(** The key that has priority: the one of the environment, then the one the
    player gave. *)
Definition key_in_force (host : Host) (st : ServiceState) : option text :=
  match environment_key host with
  | Some k => Some k
  | None =>
      match userProvidedApiKey st with
      | Some k => if Nat.eqb (length k) 0 then None else Some k
      | None => None
      end
  end.

(** The client in hand was built with the key its mark says. *)
Definition client_matches (host : Host) (st : ServiceState) : Prop :=
  match ai_client st with
  | Some c =>
      GoogleGenAI_accepts host c = true /\
      if isManuallyInitialized st
      then userProvidedApiKey st = Some c /\ Nat.eqb (length c) 0 = false
      else environment_key host = Some c
  | None => isManuallyInitialized st = false
  end.

(** ** Start-up ([App.performInitialSetup]) *)

(** What [performInitialSetup] decides: whether the key of the environment
    counts, the phase, the saved game offered, the state of the service
    module, and what the storage holds under the key of the saved game
    afterwards. *)
Record Setup := {
  setup_apiKeyAvailable : bool;
  setup_gamePhase : GamePhase;
  setup_savedGameData : option json;
  setup_service : ServiceState;
  setup_storage : option text
}.

(** [keyFromEnv && keyFromEnv !== "YOUR_API_KEY_HERE_PLACEHOLDER" && keyFromEnv.length > 10] *)
Definition environment_key_counts (host : Host) : bool :=
  match API_KEY host with
  | Some k =>
      negb (Nat.eqb (length k) 0) && negb (text_eqb k API_KEY_PLACEHOLDER)
      && Nat.ltb 10 (length k)
  | None => false
  end.

(** Truthiness of a property that was read. *)
Definition truthy_prop (v : option json) : bool :=
  match v with
  | Some v => truthy v
  | None => false
  end.

(** [setSavedGameData(game); setGamePhase(GamePhase.LoadPrompt)] *)
Definition offer_saved_game (game : json) (s : Setup) : Setup :=
  {| setup_apiKeyAvailable := setup_apiKeyAvailable s; setup_gamePhase := LoadPrompt;
     setup_savedGameData := Some game; setup_service := setup_service s;
     setup_storage := setup_storage s |}.

(** [localStorage.removeItem(SAVE_GAME_KEY); setGamePhase(GamePhase.CharacterCreation)] *)
Definition discard_saved_game (s : Setup) : Setup :=
  {| setup_apiKeyAvailable := setup_apiKeyAvailable s;
     setup_gamePhase := CharacterCreation;
     setup_savedGameData := setup_savedGameData s; setup_service := setup_service s;
     setup_storage := None |}.

Definition start_creation (s : Setup) : Setup :=
  {| setup_apiKeyAvailable := setup_apiKeyAvailable s;
     setup_gamePhase := CharacterCreation;
     setup_savedGameData := setup_savedGameData s; setup_service := setup_service s;
     setup_storage := setup_storage s |}.

(** [performInitialSetup]; [stored] is what the storage holds under the key
    of the saved game.  The component starts in the phase [Loading] with no
    saved game in hand. *)
Definition performInitialSetup (host : Host) (service : ServiceState)
    (stored : option text) : Setup :=
  let s0 := {| setup_apiKeyAvailable := environment_key_counts host;
               setup_gamePhase := Loading; setup_savedGameData := None;
               setup_service := clearManualApiKey service;
               setup_storage := stored |} in
  match stored with
  | Some savedGameJson =>
      if negb (Nat.eqb (length savedGameJson) 0)
      then
        snd (try_catch
               (game <- lift (JSON_parse savedGameJson) ;;
                character <- lift (get_prop game (lit "character")) ;;
                if truthy_prop character
                then
                  chatHistory <- lift (get_prop game (lit "chatHistory")) ;;
                  if truthy_prop chatHistory
                  then
                    lastSaved <- lift (get_prop game (lit "lastSaved")) ;;
                    if truthy_prop lastSaved
                    then assign (offer_saved_game game)
                    else assign discard_saved_game
                  else assign discard_saved_game
                else assign discard_saved_game)
               (fun _ => assign discard_saved_game) s0)
      else start_creation s0
  | None => start_creation s0
  end.

(** A member of an object that is there and truthy. *)
Definition has_truthy (game : json) (k : text) : Prop :=
  exists v, get_prop game k = Ok (Some v) /\ truthy v = true.

(** The stored text is a saved game: it parses to a value whose
    [character], [chatHistory] and [lastSaved] are truthy. *)
Definition is_saved_game (stored : option text) (game : json) : Prop :=
  exists savedGameJson,
    stored = Some savedGameJson /\ JSON_parse savedGameJson = Ok game /\
    has_truthy game (lit "character") /\ has_truthy game (lit "chatHistory") /\
    has_truthy game (lit "lastSaved").
(** The character of [level_two_state] below the threshold, with three
    potions. *)
Definition three_potions_state : ChatState :=
  {| chatHistory := []; isAiTyping := false; chatSession := true;
     focusTargetInfo := None; currentPlayerStatuses := [];
     currentHp := 11; currentMaxHp := 20;
     currentStats := level_two_stats; currentSkills := [];
     currentLevel := 2; currentXP := 120; currentXpToNextLevel := Finite 300;
     currentInventory := [potion 3];
     activeDiceRollRequest := None; isDiceInterfaceActive := false;
     isLevelUpModalOpen := false; lastResolvedRollIdRef := None |}.

(** A target whose hit points come as strings. *)
Definition goblin_turn : text :=
  js "A goblin! FOCUS_PANEL_UPDATE::{'name':'Goblin','hp':'12','maxHp':'many'}".

(** * Properties *)

(** ** Text and patterns *)

Lemma text_eqb_eq (a b : text) : text_eqb a b = true <-> a = b.
Proof.
  revert b; induction a as [|x a IH]; intros [|y b]; simpl; split; intro H;
    try reflexivity; try discriminate.
  - apply andb_true_iff in H as [Hx Hab].
    apply N.eqb_eq in Hx; apply IH in Hab; subst; reflexivity.
  - injection H as -> ->. rewrite N.eqb_refl. simpl. apply IH. reflexivity.
Qed.

Lemma text_eqb_refl (a : text) : text_eqb a a = true.
Proof. apply text_eqb_eq. reflexivity. Qed.

Lemma text_eqb_neq (a b : text) : text_eqb a b = false <-> a <> b.
Proof.
  split.
  - intros H E. apply text_eqb_eq in E. congruence.
  - intro H. destruct (text_eqb a b) eqn:E; [|reflexivity].
    apply text_eqb_eq in E. contradiction.
Qed.

Lemma starts_with_split (p s : text) :
  starts_with p s = true -> s = p ++ skipn (length p) s.
Proof.
  revert s; induction p as [|x p IH]; intros s H; simpl in *.
  - reflexivity.
  - destruct s as [|y s]; [discriminate|].
    apply andb_true_iff in H as [Hx Hp]. apply N.eqb_eq in Hx. subst y.
    simpl. f_equal. apply IH, Hp.
Qed.

Lemma starts_with_app (p s : text) : starts_with p (p ++ s) = true.
Proof.
  induction p as [|x p IH]; simpl; [reflexivity|].
  rewrite N.eqb_refl. exact IH.
Qed.

Lemma lazy_until_rbrace_split (s body rest : text) :
  lazy_until_rbrace s = Some (body, rest) ->
  s = body ++ rbrace :: rest /\ ~ In rbrace body.
Proof.
  revert body rest; induction s as [|c s IH]; intros body rest H; simpl in H.
  - discriminate.
  - destruct (N.eqb c rbrace) eqn:Ec.
    + apply N.eqb_eq in Ec. injection H as <- <-. subst c. split; [reflexivity|].
      intros [].
    + destruct (lazy_until_rbrace s) as [[b r]|] eqn:El; [|discriminate].
      injection H as <- <-. destruct (IH b r eq_refl) as [-> Hn].
      split; [reflexivity|].
      intros [E|Hin]; [|exact (Hn Hin)].
      apply N.eqb_neq in Ec. congruence.
Qed.

Lemma match_group_split (R : regex) (s g rest : text) :
  match_group R s = Some (g, rest) -> s = g ++ rest /\ payload_shape g.
Proof.
  unfold match_group, match_braces. intro H.
  destruct s as [|c s].
  - simpl in H. rewrite andb_false_r in H. discriminate.
  - destruct (N.eqb c lbrace) eqn:Ec.
    + destruct (lazy_until_rbrace s) as [[b r]|] eqn:El.
      * injection H as <- <-. apply N.eqb_eq in Ec. subst c.
        destruct (lazy_until_rbrace_split _ _ _ El) as [-> Hn].
        split.
        -- simpl. rewrite <- app_assoc. reflexivity.
        -- right. exists b. split; [reflexivity|exact Hn].
      * destruct (or_null R && starts_with (lit "null") (c :: s)) eqn:En; [|discriminate].
        injection H as <- <-. apply andb_true_iff in En as [_ En].
        split; [apply (starts_with_split _ _ En)|left; reflexivity].
    + destruct (or_null R && starts_with (lit "null") (c :: s)) eqn:En; [|discriminate].
      injection H as <- <-. apply andb_true_iff in En as [_ En].
      split; [apply (starts_with_split _ _ En)|left; reflexivity].
Qed.

Lemma match_here_split (R : regex) (s g rest : text) :
  match_here R s = Some (g, rest) ->
  s = sigil R ++ g ++ rest /\ payload_shape g.
Proof.
  unfold match_here. intro H.
  destruct (starts_with (sigil R) s) eqn:Es; [|discriminate].
  apply match_group_split in H as [E Hs].
  split; [|exact Hs].
  rewrite (starts_with_split _ _ Es) at 1. rewrite E. reflexivity.
Qed.

(** The match found by [regex_exec] cuts the text in four. *)
Lemma regex_exec_split (R : regex) (s : text) (m : regex_match) :
  regex_exec R s = Some m ->
  s = m_pre m ++ sigil R ++ m_group1 m ++ m_post m /\ payload_shape (m_group1 m).
Proof.
  revert m; induction s as [|c s IH]; intros m H; simpl in H.
  - destruct (match_here R []) as [[g rest]|] eqn:Eh; [|discriminate].
    injection H as <-. simpl. apply match_here_split. exact Eh.
  - destruct (match_here R (c :: s)) as [[g rest]|] eqn:Eh.
    + injection H as <-. simpl. apply match_here_split. exact Eh.
    + destruct (regex_exec R s) as [m'|] eqn:Er; [|discriminate].
      injection H as <-. simpl. destruct (IH m' eq_refl) as [E Hs].
      split; [|exact Hs]. rewrite E at 1. reflexivity.
Qed.

Lemma payload_shape_nonempty (g : text) :
  payload_shape g -> Nat.eqb (length g) 0 = false.
Proof. intros [-> | [b [-> _]]]; reflexivity. Qed.

Lemma regex_exec_group_nonempty (R : regex) (s : text) (m : regex_match) :
  regex_exec R s = Some m -> negb (Nat.eqb (length (m_group1 m)) 0) = true.
Proof.
  intro H. apply regex_exec_split in H as [_ Hs].
  rewrite (payload_shape_nonempty _ Hs). reflexivity.
Qed.

(** ** The blocks *)

(** A block never throws: it leaves the text and the snapshot described by
    [run_block]. *)
Lemma block_run (R : regex) (body : text -> Body) (st : locals) :
  block R body st = (Ok tt, run_block R body st).
Proof.
  unfold block, run_block, strip, effect.
  destruct st as [t r]; simpl.
  destruct (regex_exec R t) as [m|] eqn:Em; [|reflexivity].
  rewrite (regex_exec_group_nonempty _ _ _ Em).
  unfold bind, try_catch, on_result, assign_text, assign, skip, ret,
    regex_replace_empty; simpl.
  destruct (body (m_group1 m) r) as [[[]|e] r']; simpl; rewrite Em; reflexivity.
Qed.

Lemma parse_commands_run (now : Z) (st : locals) :
  parse_commands now st =
  (Ok tt,
   let fin := run_blocks now processing_order st in
   {| processedText := processedText fin;
      result := set_cleanedText (processedText fin) (result fin) |}).
Proof.
  unfold parse_commands, command_block, bind.
  repeat rewrite block_run. reflexivity.
Qed.

Lemma _updateStateAndParseCommands_run (now : Z) (aiText : text) (hp maxHp : Q)
    (sts : list json) (focus : option FocusTargetInfo)
    (dice : option DiceRollRequest) (inv : list Item) (xp : Q) :
  _updateStateAndParseCommands now aiText hp maxHp sts focus dice inv xp =
  let t0 := cleanPotentialUndefined aiText in
  let fin := run_blocks now processing_order
               {| processedText := t0;
                  result := initial_result t0 hp maxHp sts focus inv xp |} in
  Ok (set_cleanedText (processedText fin) (result fin)).
Proof.
  unfold _updateStateAndParseCommands. rewrite parse_commands_run. reflexivity.
Qed.

(** A body starts by parsing its payload: when that throws, nothing has been
    assigned.  For the focus block the payload is one a match can capture. *)
Lemma body_of_malformed (now : Z) (c : command) (g : text) (e : js_error)
    (r : ProcessedAiCommandsResult) :
  payload_shape g ->
  JSON_parse g = Thrown e ->
  body_of now c g r = (Thrown e, r).
Proof.
  intros Hs Hp.
  destruct c; simpl;
    try (unfold on_PLAYER_HP_UPDATE, on_PLAYER_STATUS_UPDATE, on_DICE_ROLL_REQUEST,
           on_AWARD_XP, on_AWARD_ITEM, on_CONSUME_ITEM, on_LEVEL_UP_INITIATE,
           bind, lift; rewrite Hp; reflexivity).
  unfold on_FOCUS_PANEL_UPDATE, bind, lift.
  destruct Hs as [-> | [b [-> _]]].
  - vm_compute in Hp. discriminate.
  - replace (text_eqb (toLowerCase (lbrace :: b ++ [rbrace])) (lit "null")) with false
      by reflexivity.
    rewrite Hp. reflexivity.
Qed.

(** A block whose pattern matches: the body runs on the payload inside its
    [try], and the match is removed from the text. *)
Lemma command_block_matched (now : Z) (c : command) (st : locals) (m : regex_match) :
  regex_exec (regex_of c) (processedText st) = Some m ->
  command_block now c st =
  (Ok tt,
   {| processedText := trim (m_pre m ++ m_post m);
      result := snd (try_catch (body_of now c (m_group1 m)) (fun _ => skip)
                       (result st)) |}).
Proof.
  intro Em. unfold command_block. rewrite block_run.
  unfold run_block, strip, effect. rewrite Em. reflexivity.
Qed.

Lemma processing_order_split (c : command) :
  processing_order = before c processing_order ++ c :: after c processing_order.
Proof. destruct c; reflexivity. Qed.

Lemma run_blocks_app (now : Z) (l1 l2 : list command) (st : locals) :
  run_blocks now (l1 ++ l2) st = run_blocks now l2 (run_blocks now l1 st).
Proof. unfold run_blocks. apply fold_left_app. Qed.

Lemma run_block_malformed (now : Z) (c : command) (st : locals)
    (m : regex_match) (e : js_error) :
  regex_exec (regex_of c) (processedText st) = Some m ->
  JSON_parse (m_group1 m) = Thrown e ->
  run_block (regex_of c) (body_of now c) st =
  {| processedText := trim (m_pre m ++ m_post m); result := result st |}.
Proof.
  intros Em Hp. unfold run_block, strip, effect. rewrite Em.
  unfold try_catch.
  rewrite (body_of_malformed now c _ e (result st)
             (proj2 (regex_exec_split _ _ _ Em)) Hp).
  reflexivity.
Qed.

(** C1 (as amended).  Reconciliation returns normally for every turn text.
    When the payload captured for a command is malformed JSON, the result is
    the one of the blocks before it, followed by the removal of the matched
    sigil and payload from the text with the snapshot left as it was,
    followed by the blocks after it: the malformed command is ignored, its
    span is stripped, and every other block is run on the text that is left
    when its turn comes. *)
Theorem malformed_payload_isolated (now : Z) (aiText : text) (hp maxHp : Q)
    (sts : list json) (focus : option FocusTargetInfo)
    (dice : option DiceRollRequest) (inv : list Item) (xp : Q) :
  (exists r,
      _updateStateAndParseCommands now aiText hp maxHp sts focus dice inv xp = Ok r) /\
  forall (c : command) (m : regex_match) (e : js_error),
    let st := state_before now c aiText hp maxHp sts focus inv xp in
    regex_exec (regex_of c) (processedText st) = Some m ->
    JSON_parse (m_group1 m) = Thrown e ->
    let fin := run_blocks now (after c processing_order)
                 {| processedText := trim (m_pre m ++ m_post m);
                    result := result st |} in
    _updateStateAndParseCommands now aiText hp maxHp sts focus dice inv xp =
    Ok (set_cleanedText (processedText fin) (result fin)).
Proof.
  split.
  { rewrite _updateStateAndParseCommands_run. eexists. reflexivity. }
  intros c m e st Em Hp fin.
  rewrite _updateStateAndParseCommands_run.
  cbv zeta.
  rewrite (processing_order_split c) at 1 2.
  rewrite !run_blocks_app.
  change (run_blocks now (c :: after c processing_order) ?s)
    with (run_blocks now (after c processing_order)
            (run_block (regex_of c) (body_of now c) s)).
  fold (state_before now c aiText hp maxHp sts focus inv xp). fold st.
  rewrite (run_block_malformed now c st m e Em Hp).
  reflexivity.
Qed.

(** The scenario of the specification: eight commands, one of them (the
    experience award) malformed.  The seven others are applied, the
    experience is left as it was, the text is cleaned of all eight. *)
Lemma malformed_payload_isolated_witness :
  exists r,
    _updateStateAndParseCommands 1700 eight_commands_turn 20 20 [] None None
      [potion 2] 0 = Ok r /\
    cleanedText r = lit "The orc falls." /\
    newHp r = 12%Q /\
    newStatuses r = [JStr (lit "Tired")] /\
    newDiceRollRequest r =
      Some {| roll_id := lit "r7"; statsToRoll := [Wisdom];
              roll_description := lit "Search" |} /\
    newFocusTargetInfo r <> None /\
    xpAward r = None /\ newCurrentXP r = 0%Q /\
    map item_name (newInventory r) = [lit "Potion"; lit "Axe"] /\
    map item_quantity (newInventory r) = [1; 1]%Q /\
    levelUpInitiateReason r = Some (lit "growth").
Proof.
  eexists. split.
  - eapply (proj2 (malformed_payload_isolated 1700 eight_commands_turn 20 20 []
                     None None [potion 2] 0)) with (c := AWARD_XP).
    + vm_compute. reflexivity.
    + vm_compute. reflexivity.
  - vm_compute. repeat split. discriminate.
Defined.

(** The eight commands back to back, all valid: nothing is left of the text
    and each command has its effect. *)
Example all_commands_round_trip :
  exists r,
    _updateStateAndParseCommands 1700 all_commands_turn 20 20 [] None None
      [potion 2] 0 = Ok r /\
    cleanedText r = [] /\
    newHp r = 12%Q /\
    newStatuses r = [JStr (lit "Tired")] /\
    option_map roll_id (newDiceRollRequest r) = Some (lit "r7") /\
    newFocusTargetInfo r =
      Some (JObj [(lit "name", JStr (lit "Orc")); (lit "hp", JNum 7);
                  (lit "maxHp", JNum 15); (lit "type", JStr (lit "enemy"))]) /\
    option_map xp_amount (xpAward r) = Some 50%Q /\
    map item_name (newInventory r) = [lit "Potion"; lit "Axe"] /\
    option_map consumed_name (itemConsumed r) = Some (lit "Potion") /\
    levelUpInitiateReason r = Some (lit "growth").
Proof. eexists. split; [vm_compute; reflexivity|]. repeat split. Qed.

(** C1, as stated, fails.  The turn holds two commands; the payload of the
    experience award is malformed (it lacks its closing brace), the item award
    is well formed and is applied when it stands alone; in the turn it is
    removed with the span matched for the experience award and not applied. *)
Lemma unclosed_payload_swallows_next_command :
  (exists m e,
      regex_exec AWARD_XP_REGEX unclosed_award_turn = Some m /\
      JSON_parse (m_group1 m) = Thrown e) /\
  (exists m obj,
      regex_exec AWARD_ITEM_REGEX unclosed_award_turn = Some m /\
      JSON_parse (m_group1 m) = Ok obj) /\
  (exists r,
      _updateStateAndParseCommands 1700 item_award_turn 20 20 [] None None [] 0 = Ok r /\
      itemAward r <> None /\
      map item_name (newInventory r) = [lit "Potion"]) /\
  (exists r,
      _updateStateAndParseCommands 1700 unclosed_award_turn 20 20 [] None None [] 0 = Ok r /\
      itemAward r = None /\
      newInventory r = [] /\
      cleanedText r = lit "You win.").
Proof.
  repeat split.
  - eexists. eexists. split; vm_compute; reflexivity.
  - eexists. eexists. split; vm_compute; reflexivity.
  - eexists. split; [vm_compute; reflexivity|]. split; [discriminate|reflexivity].
  - eexists. split; [vm_compute; reflexivity|]. repeat split.
Qed.

(** ** Inventory *)

Lemma findIndex_first {A} (p : A -> bool) (l1 l2 : list A) (x : A) :
  (forall y, In y l1 -> p y = false) -> p x = true ->
  findIndex p (l1 ++ x :: l2) = Some (length l1).
Proof.
  induction l1 as [|y l1 IH]; intros Hn Hx; simpl.
  - rewrite Hx. reflexivity.
  - rewrite (Hn y (or_introl eq_refl)).
    rewrite IH; [reflexivity| |exact Hx].
    intros z Hz. apply Hn. right. exact Hz.
Qed.

Lemma findIndex_none {A} (p : A -> bool) (l : list A) :
  (forall y, In y l -> p y = false) -> findIndex p l = None.
Proof.
  induction l as [|y l IH]; intro Hn; simpl; [reflexivity|].
  rewrite (Hn y (or_introl eq_refl)).
  rewrite IH; [reflexivity|]. intros z Hz. apply Hn. right. exact Hz.
Qed.

Lemma update_at_middle {A} (f : A -> A) (l1 l2 : list A) (x : A) :
  update_at (length l1) f (l1 ++ x :: l2) = l1 ++ f x :: l2.
Proof. induction l1 as [|y l1 IH]; simpl; [reflexivity|]. rewrite IH. reflexivity. Qed.

Lemma remove_at_middle {A} (l1 l2 : list A) (x : A) :
  remove_at (length l1) (l1 ++ x :: l2) = l1 ++ l2.
Proof. induction l1 as [|y l1 IH]; simpl; [reflexivity|]. rewrite IH. reflexivity. Qed.

Lemma nth_error_middle {A} (l1 l2 : list A) (x : A) :
  nth_error (l1 ++ x :: l2) (length l1) = Some x.
Proof. induction l1 as [|y l1 IH]; simpl; [reflexivity|exact IH]. Qed.

Lemma ItemType_eqb_eq (a b : ItemType) : ItemType_eqb a b = true <-> a = b.
Proof. destruct a, b; simpl; split; intro H; try reflexivity; discriminate. Qed.

Lemma ItemType_of_json_text (t : ItemType) :
  ItemType_of_json (JStr (ItemType_text t)) = Some t.
Proof. destruct t; reflexivity. Qed.

Lemma is_stackable_category (t : ItemType) :
  is_stackable t = true <-> stackable_category t.
Proof.
  unfold stackable_category.
  destruct t; simpl; split; intro H; try reflexivity; try discriminate;
    try (repeat (try (left; reflexivity); right); reflexivity);
    repeat (destruct H as [H|H]; try discriminate); discriminate.
Qed.

Lemma Qgtb_pos (q : Q) : (0 < q)%Q -> Qgtb q 0 = true.
Proof.
  intro H. unfold Qgtb. apply Qgt_alt in H. rewrite H. reflexivity.
Qed.

Lemma same_entry_test (n : text) (t : ItemType) (it : Item) :
  text_eqb (item_name it) n && ItemType_eqb (item_type it) t = true
  <-> same_name_and_category n t it.
Proof.
  unfold same_name_and_category.
  rewrite andb_true_iff, text_eqb_eq, ItemType_eqb_eq. reflexivity.
Qed.

Lemma same_entry_test_false (n : text) (t : ItemType) (it : Item) :
  ~ same_name_and_category n t it ->
  text_eqb (item_name it) n && ItemType_eqb (item_type it) t = false.
Proof.
  intro H.
  destruct (text_eqb (item_name it) n && ItemType_eqb (item_type it) t) eqn:E;
    [|reflexivity].
  apply same_entry_test in E. contradiction.
Qed.

(** What the body of the AWARD_ITEM block does with a valid payload. *)
Lemma on_AWARD_ITEM_valid (now : Z) (g : text) (obj : json) (n d : text)
    (t : ItemType) (q : Q) (r : ProcessedAiCommandsResult) :
  JSON_parse g = Ok obj ->
  get_prop obj (lit "name") = Ok (Some (JStr n)) ->
  get_prop obj (lit "description") = Ok (Some (JStr d)) ->
  get_prop obj (lit "type") = Ok (Some (JStr (ItemType_text t))) ->
  get_prop obj (lit "quantity") = Ok (Some (JNum q)) ->
  (0 < q)%Q ->
  let data := {| award_name := n; award_description := d; award_type := t;
                 award_quantity := q |} in
  on_AWARD_ITEM now g r =
  (Ok tt, set_newInventory (award_inventory now data (newInventory r))
            (set_itemAward (Some data) r)).
Proof.
  intros Hp Hn Hd Ht Hq Hpos data.
  unfold on_AWARD_ITEM, bind, lift.
  rewrite Hp, Hn, Hd, Ht, ItemType_of_json_text, Hq, (Qgtb_pos _ Hpos).
  reflexivity.
Qed.

(** C2.  A valid AWARD_ITEM command with a positive quantity: in a stackable
    category (potion, currency, key, food, misc), when an entry of the same
    name and category exists, the quantity of the first such entry grows by
    the awarded quantity and nothing is added; in any other category (weapon,
    armor, quest, book) a new entry is appended, whatever the inventory
    holds. *)
Theorem award_item_stacks_by_category (now : Z) (st : locals) (m : regex_match)
    (obj : json) (n d : text) (t : ItemType) (q : Q) :
  regex_exec AWARD_ITEM_REGEX (processedText st) = Some m ->
  JSON_parse (m_group1 m) = Ok obj ->
  get_prop obj (lit "name") = Ok (Some (JStr n)) ->
  get_prop obj (lit "description") = Ok (Some (JStr d)) ->
  get_prop obj (lit "type") = Ok (Some (JStr (ItemType_text t))) ->
  get_prop obj (lit "quantity") = Ok (Some (JNum q)) ->
  (0 < q)%Q ->
  let inv := newInventory (result st) in
  let inv' := newInventory (result (snd (command_block now AWARD_ITEM st))) in
  fst (command_block now AWARD_ITEM st) = Ok tt /\
  (stackable_category t ->
   forall l1 it l2,
     inv = l1 ++ it :: l2 ->
     same_name_and_category n t it ->
     (forall x, In x l1 -> ~ same_name_and_category n t x) ->
     inv' = l1 ++ set_item_quantity (item_quantity it + q)%Q it :: l2 /\
     length inv' = length inv) /\
  (t = Weapon \/ t = Armor \/ t = Quest \/ t = Book ->
   inv' = inv ++ [new_entry now n d t q]).
Proof.
  intros Em Hp Hn Hd Ht Hq Hpos inv inv'.
  assert (E : inv' = award_inventory now
                {| award_name := n; award_description := d; award_type := t;
                   award_quantity := q |} inv).
  { unfold inv'. rewrite (command_block_matched now AWARD_ITEM st m Em).
    cbn [snd result body_of]. unfold try_catch.
    rewrite (on_AWARD_ITEM_valid now _ obj n d t q _ Hp Hn Hd Ht Hq Hpos).
    reflexivity. }
  split; [rewrite (command_block_matched now AWARD_ITEM st m Em); reflexivity|].
  split.
  - intros Hs l1 it l2 Hinv Hit Hl1.
    rewrite E. unfold award_inventory. simpl award_type. simpl award_name.
    simpl award_quantity.
    rewrite (proj2 (is_stackable_category t) Hs).
    rewrite Hinv.
    rewrite (findIndex_first _ l1 l2 it).
    + rewrite update_at_middle. split; [reflexivity|].
      rewrite !length_app. reflexivity.
    + intros y Hy. apply same_entry_test_false. apply Hl1. exact Hy.
    + apply same_entry_test. exact Hit.
  - intro Hns. rewrite E. unfold award_inventory. simpl award_type.
    replace (is_stackable t) with false
      by (destruct Hns as [-> | [-> | [-> | ->]]]; reflexivity).
    reflexivity.
Qed.

(** Potion awarded twice: one entry, quantity two (here, the second award on
    an inventory that holds the first). *)
Lemma award_item_stacks_by_category_witness :
  let st := {| processedText := item_award_turn;
               result := initial_result item_award_turn 20 20 [] None [potion 1] 0 |} in
  newInventory (result (snd (command_block 1700 AWARD_ITEM st)))
  = [set_item_quantity (1 + 1)%Q (potion 1)].
Proof.
  intro st.
  edestruct (award_item_stacks_by_category 1700 st) with (t := Potion)
    as (_ & H & _).
  - vm_compute. reflexivity.
  - vm_compute. reflexivity.
  - vm_compute. reflexivity.
  - vm_compute. reflexivity.
  - vm_compute. reflexivity.
  - vm_compute. reflexivity.
  - reflexivity.
  - destruct (H (or_introl eq_refl) [] (potion 1) [] eq_refl) as [E _].
    + split; reflexivity.
    + intros x [].
    + exact E.
Defined.

Lemma on_CONSUME_ITEM_valid (g : text) (obj : json) (n : text) (q : Q)
    (r : ProcessedAiCommandsResult) :
  JSON_parse g = Ok obj ->
  get_prop obj (lit "name") = Ok (Some (JStr n)) ->
  get_prop obj (lit "quantity") = Ok (Some (JNum q)) ->
  (0 < q)%Q ->
  let data := {| consumed_name := n; consumed_quantity := q |} in
  on_CONSUME_ITEM g r =
  (Ok tt,
   match consume_inventory data (newInventory r) with
   | Some inv => set_newInventory inv (set_itemConsumed (Some data) r)
   | None => set_itemConsumed (Some data) r
   end).
Proof.
  intros Hp Hn Hq Hpos data.
  unfold on_CONSUME_ITEM, bind, lift.
  rewrite Hp, Hn, Hq, (Qgtb_pos _ Hpos).
  reflexivity.
Qed.

Lemma name_test_false (n : text) (it : Item) :
  item_name it <> n -> text_eqb (item_name it) n = false.
Proof. intro H. apply text_eqb_neq. exact H. Qed.

(** C3.  A valid CONSUME_ITEM command looks for the first entry of that name,
    whatever its category.  When it asks for more than the entry holds, the
    inventory is left as it is; for exactly what the entry holds, the entry
    is removed; for less, the quantity of the entry is lowered by the amount.
    Nothing is thrown. *)
Theorem consume_item_by_name (now : Z) (st : locals) (m : regex_match)
    (obj : json) (n : text) (q : Q) (l1 l2 : list Item) (it : Item) :
  regex_exec CONSUME_ITEM_REGEX (processedText st) = Some m ->
  JSON_parse (m_group1 m) = Ok obj ->
  get_prop obj (lit "name") = Ok (Some (JStr n)) ->
  get_prop obj (lit "quantity") = Ok (Some (JNum q)) ->
  (0 < q)%Q ->
  newInventory (result st) = l1 ++ it :: l2 ->
  item_name it = n ->
  (forall x, In x l1 -> item_name x <> n) ->
  let inv' := newInventory (result (snd (command_block now CONSUME_ITEM st))) in
  fst (command_block now CONSUME_ITEM st) = Ok tt /\
  ((item_quantity it < q)%Q -> inv' = l1 ++ it :: l2) /\
  ((item_quantity it == q)%Q -> inv' = l1 ++ l2) /\
  ((q < item_quantity it)%Q ->
   inv' = l1 ++ set_item_quantity (item_quantity it - q)%Q it :: l2).
Proof.
  intros Em Hp Hn Hq Hpos Hinv Hit Hl1 inv'.
  split; [rewrite (command_block_matched now CONSUME_ITEM st m Em); reflexivity|].
  assert (E : inv' =
              match Qcompare (item_quantity it) q with
              | Gt => l1 ++ set_item_quantity (item_quantity it - q)%Q it :: l2
              | Eq => l1 ++ l2
              | Lt => l1 ++ it :: l2
              end).
  { unfold inv'. rewrite (command_block_matched now CONSUME_ITEM st m Em).
    cbn [snd result body_of]. unfold try_catch.
    rewrite (on_CONSUME_ITEM_valid _ obj n q _ Hp Hn Hq Hpos).
    unfold consume_inventory. simpl consumed_name. simpl consumed_quantity.
    rewrite Hinv.
    rewrite (findIndex_first _ l1 l2 it).
    - rewrite nth_error_middle.
      destruct (Qcompare (item_quantity it) q); simpl.
      + rewrite remove_at_middle. reflexivity.
      + reflexivity.
      + rewrite update_at_middle. reflexivity.
    - intros y Hy. apply name_test_false. apply Hl1. exact Hy.
    - apply text_eqb_eq. exact Hit. }
  repeat split.
  - intro H. apply Qlt_alt in H.
    change (Qcompare (item_quantity it) q = Lt) in H. rewrite E, H. reflexivity.
  - intro H. apply Qeq_alt in H.
    change (Qcompare (item_quantity it) q = Eq) in H. rewrite E, H. reflexivity.
  - intro H. apply Qgt_alt in H.
    change (Qcompare (item_quantity it) q = Gt) in H. rewrite E, H. reflexivity.
Qed.

(** Without an entry of that name the inventory is left as it is as well. *)
Lemma consume_item_absent (now : Z) (st : locals) (m : regex_match)
    (obj : json) (n : text) (q : Q) :
  regex_exec CONSUME_ITEM_REGEX (processedText st) = Some m ->
  JSON_parse (m_group1 m) = Ok obj ->
  get_prop obj (lit "name") = Ok (Some (JStr n)) ->
  get_prop obj (lit "quantity") = Ok (Some (JNum q)) ->
  (0 < q)%Q ->
  (forall x, In x (newInventory (result st)) -> item_name x <> n) ->
  newInventory (result (snd (command_block now CONSUME_ITEM st)))
  = newInventory (result st).
Proof.
  intros Em Hp Hn Hq Hpos Hl.
  rewrite (command_block_matched now CONSUME_ITEM st m Em).
  cbn [snd result body_of]. unfold try_catch.
  rewrite (on_CONSUME_ITEM_valid _ obj n q _ Hp Hn Hq Hpos).
  unfold consume_inventory. simpl consumed_name.
  rewrite findIndex_none; [reflexivity|].
  intros y Hy. apply name_test_false. apply Hl. exact Hy.
Qed.

(** The checks of the specification on whole turns: a potion awarded twice
    is one entry of quantity two, a sword awarded twice is two entries, and a
    request for more than is held changes nothing. *)
Example potion_awarded_twice :
  map (fun it => (item_name it, item_type it, item_quantity it))
      (inventory_after item_award_turn (inventory_after item_award_turn []))
  = [(lit "Potion", Potion, (1 + 1)%Q)].
Proof. vm_compute. reflexivity. Qed.

Example sword_awarded_twice :
  map (fun it => (item_name it, item_type it, item_quantity it))
      (inventory_after sword_award_turn (inventory_after sword_award_turn []))
  = [(lit "Sword", Weapon, 1%Q); (lit "Sword", Weapon, 1%Q)].
Proof. vm_compute. reflexivity. Qed.

Example consume_more_than_held :
  inventory_after consume_three_turn [potion 2] = [potion 2].
Proof. vm_compute. reflexivity. Qed.

(** Asked for two potions with two in hand: the entry is removed. *)
Lemma consume_item_by_name_witness :
  let st := {| processedText := consume_two_turn;
               result := initial_result consume_two_turn 20 20 [] None [potion 2] 0 |} in
  newInventory (result (snd (command_block 1700 CONSUME_ITEM st))) = [].
Proof.
  intro st.
  edestruct (consume_item_by_name 1700 st) with (l1 := @nil Item) (it := potion 2)
    (l2 := @nil Item) as (_ & _ & H & _).
  - vm_compute. reflexivity.
  - vm_compute. reflexivity.
  - vm_compute. reflexivity.
  - vm_compute. reflexivity.
  - reflexivity.
  - reflexivity.
  - reflexivity.
  - intros x [].
  - apply H. reflexivity.
Defined.

(** ** Dice-roll requests *)

Lemma StatName_of_json_text (n : StatName) :
  StatName_of_json (JStr (StatName_text n)) = Some n.
Proof. destruct n; reflexivity. Qed.

Lemma StatName_of_json_Some (v : json) (n : StatName) :
  StatName_of_json v = Some n -> v = JStr (StatName_text n).
Proof.
  unfold StatName_of_json. destruct v; try discriminate.
  intro H. apply find_some in H as [_ H]. apply text_eqb_eq in H.
  rewrite H. reflexivity.
Qed.

Lemma every_StatName_map (names : list StatName) :
  every_StatName (map (fun n => JStr (StatName_text n)) names) = Some names.
Proof.
  induction names as [|n names IH]; [reflexivity|].
  cbn [map every_StatName]. rewrite StatName_of_json_text, IH. reflexivity.
Qed.

Lemma every_StatName_Some (l : list json) (names : list StatName) :
  every_StatName l = Some names ->
  l = map (fun n => JStr (StatName_text n)) names.
Proof.
  revert names; induction l as [|v l IH]; intros names H; simpl in H.
  - injection H as <-. reflexivity.
  - destruct (StatName_of_json v) as [n|] eqn:En; [|discriminate].
    destruct (every_StatName l) as [ns|] eqn:El; [|discriminate].
    injection H as <-. simpl.
    rewrite (StatName_of_json_Some _ _ En), (IH ns eq_refl). reflexivity.
Qed.

(** The body of the DICE_ROLL_REQUEST block either takes the request of an
    accepted payload or assigns nothing. *)
Lemma on_DICE_ROLL_REQUEST_cases (g : text) (r : ProcessedAiCommandsResult) :
  (exists req, dice_payload_accepted g req /\
               on_DICE_ROLL_REQUEST g r = (Ok tt, set_newDiceRollRequest (Some req) r))
  \/ ((forall req, ~ dice_payload_accepted g req) /\
      snd (on_DICE_ROLL_REQUEST g r) = r).
Proof.
  unfold on_DICE_ROLL_REQUEST, bind, lift.
  destruct (JSON_parse g) as [obj|e] eqn:Hp.
  2:{ right. split; [|reflexivity].
      intros req (o & l & Hp' & _). congruence. }
  destruct (get_prop obj (lit "statsToRoll")) as [stats|e] eqn:Hs.
  2:{ right. split; [|reflexivity].
      intros req (o & l & Hp' & Hs' & _).
      rewrite Hp in Hp'. injection Hp' as <-. congruence. }
  assert (Hbad : (forall l0, stats <> Some (JArr l0)) ->
                 forall req, ~ dice_payload_accepted g req).
  { intros Hne req (o & l & Hp' & Hs' & _).
    rewrite Hp in Hp'. injection Hp' as <-. rewrite Hs in Hs'.
    injection Hs' as ->. exact (Hne l eq_refl). }
  destruct stats as [[| | | |l|]|];
    try (right; split; [apply Hbad; intro; discriminate|reflexivity]).
  destruct l as [|v l].
  { right. split; [|reflexivity].
    intros req (o & l & Hp' & Hs' & Hne & _).
    rewrite Hp in Hp'. injection Hp' as <-. rewrite Hs in Hs'.
    injection Hs' as <-. exact (Hne eq_refl). }
  cbn [length Nat.ltb Nat.leb].
  destruct (every_StatName (v :: l)) as [names|] eqn:Hev.
  2:{ right. split; [|reflexivity].
      intros req (o & l' & Hp' & Hs' & _ & Hl & _).
      rewrite Hp in Hp'. injection Hp' as <-. rewrite Hs in Hs'.
      injection Hs' as <-. rewrite Hl, every_StatName_map in Hev. discriminate. }
  destruct (get_prop obj (lit "description")) as [desc|e] eqn:Hd.
  2:{ right. split; [|reflexivity].
      intros req (o & l' & Hp' & _ & _ & _ & Hd' & _).
      rewrite Hp in Hp'. injection Hp' as <-. congruence. }
  assert (Hbadd : (forall d0, desc <> Some (JStr d0)) ->
                  forall req, ~ dice_payload_accepted g req).
  { intros Hne req (o & l' & Hp' & _ & _ & _ & Hd' & _).
    rewrite Hp in Hp'. injection Hp' as <-. rewrite Hd in Hd'.
    injection Hd' as ->. exact (Hne _ eq_refl). }
  destruct desc as [[| | |d| |]|];
    try (right; split; [apply Hbadd; intro; discriminate|reflexivity]).
  destruct (get_prop obj (lit "id")) as [id|e] eqn:Hi.
  2:{ right. split; [|reflexivity].
      intros req (o & l' & Hp' & _ & _ & _ & _ & Hi').
      rewrite Hp in Hp'. injection Hp' as <-. congruence. }
  assert (Hbadi : (forall i0, id <> Some (JStr i0)) ->
                  forall req, ~ dice_payload_accepted g req).
  { intros Hne req (o & l' & Hp' & _ & _ & _ & _ & Hi').
    rewrite Hp in Hp'. injection Hp' as <-. rewrite Hi in Hi'.
    injection Hi' as ->. exact (Hne _ eq_refl). }
  destruct id as [[| | |i| |]|];
    try (right; split; [apply Hbadi; intro; discriminate|reflexivity]).
  left. exists {| roll_id := i; statsToRoll := names; roll_description := d |}.
  split; [|reflexivity].
  exists obj, (v :: l). simpl.
  repeat split; try assumption; try discriminate.
  apply every_StatName_Some. exact Hev.
Qed.

(** C8 (as amended).  The DICE_ROLL_REQUEST block removes the matched command
    from the text in every case.  It takes the request exactly when the
    payload parses, [statsToRoll] is a non-empty array of names of the six
    abilities, and [id] and [description] are strings; otherwise the command
    is ignored.  No upper bound is put on the number of abilities. *)
Theorem dice_request_validation (now : Z) (st : locals) (m : regex_match) :
  regex_exec DICE_ROLL_REQUEST_REGEX (processedText st) = Some m ->
  let st' := snd (command_block now DICE_ROLL_REQUEST st) in
  fst (command_block now DICE_ROLL_REQUEST st) = Ok tt /\
  processedText st' = trim (m_pre m ++ m_post m) /\
  ((exists req, dice_payload_accepted (m_group1 m) req /\
                result st' = set_newDiceRollRequest (Some req) (result st))
   \/ ((forall req, ~ dice_payload_accepted (m_group1 m) req) /\
       result st' = result st)).
Proof.
  intros Em st'.
  unfold st'. rewrite (command_block_matched now DICE_ROLL_REQUEST st m Em).
  cbn [fst snd result processedText body_of].
  split; [reflexivity|]. split; [reflexivity|].
  unfold try_catch.
  destruct (on_DICE_ROLL_REQUEST_cases (m_group1 m) (result st))
    as [(req & Hacc & E)|[Hno E]].
  - left. exists req. split; [exact Hacc|]. rewrite E. reflexivity.
  - right. split; [exact Hno|].
    destruct (on_DICE_ROLL_REQUEST (m_group1 m) (result st)) as [[[]|e] r'];
      simpl in *; exact E.
Qed.

(** A request for one ability is taken, and the command leaves the text. *)
Lemma dice_request_validation_witness :
  let st := {| processedText := one_ability_turn;
               result := initial_result one_ability_turn 20 20 [] None [] 0 |} in
  let st' := snd (command_block 1700 DICE_ROLL_REQUEST st) in
  processedText st' = lit "Brace yourself." /\
  newDiceRollRequest (result st') <> None.
Proof.
  intros st st'.
  edestruct (dice_request_validation 1700 st) as (_ & Ht & Hr).
  - vm_compute. reflexivity.
  - fold st' in Ht, Hr. split.
    + rewrite Ht. vm_compute. reflexivity.
    + destruct Hr as [(req & _ & E)|(Hno & _)].
      * rewrite E. discriminate.
      * exfalso.
        apply (Hno {| roll_id := lit "r1"; statsToRoll := [Strength];
                      roll_description := lit "Hold the gate" |}).
        eexists. eexists.
        split; [vm_compute; reflexivity|].
        split; [vm_compute; reflexivity|].
        split; [discriminate|].
        split; [vm_compute; reflexivity|].
        split; vm_compute; reflexivity.
Defined.

(** C8, as stated, fails: a request that names four abilities is taken as the
    active request. *)
Lemma four_abilities_request_accepted :
  exists r,
    _updateStateAndParseCommands 1700 four_abilities_turn 20 20 [] None None [] 0 = Ok r /\
    newDiceRollRequest r =
      Some {| roll_id := lit "r1";
              statsToRoll := [Strength; Dexterity; Wisdom; Charisma];
              roll_description := lit "Hold the gate" |} /\
    cleanedText r = lit "Brace yourself.".
Proof.
  eexists. split; [vm_compute; reflexivity|]. split; reflexivity.
Qed.

(** ** Only the leftmost match of a pattern counts *)

Lemma trim_start_app_nonspace (a b : text) (x : char) :
  is_js_space x = false -> trim_start (a ++ x :: b) = trim_start a ++ x :: b.
Proof.
  intro Hx. induction a as [|c a IH]; simpl.
  - rewrite Hx. reflexivity.
  - destruct (is_js_space c); [exact IH|reflexivity].
Qed.




Lemma run_block_no_match (R : regex) (body : text -> Body) (st : locals) :
  regex_exec R (processedText st) = None -> run_block R body st = st.
Proof.
  intro H. unfold run_block, strip, effect. rewrite H. destruct st; reflexivity.
Qed.

Lemma run_blocks_no_match (now : Z) (l : list command) (st : locals) :
  (forall c, In c l -> regex_exec (regex_of c) (processedText st) = None) ->
  run_blocks now l st = st.
Proof.
  induction l as [|c l IH]; intro H; [reflexivity|].
  unfold run_blocks. simpl.
  rewrite run_block_no_match by (apply H; left; reflexivity).
  apply IH. intros c' Hc'. apply H. right. exact Hc'.
Qed.



(** ** The dice roller *)

Lemma dice_in_range (random : Q) :
  (0 <= random)%Q -> (random < 1)%Q ->
  (1 <= 1 + Qfloor (random * 20) <= 20)%Z.
Proof.
  intros H0 H1.
  assert (Hlo : (0 <= Qfloor (random * 20))%Z).
  { change 0%Z with (Qfloor 0). apply Qfloor_resp_le.
    apply Qmult_le_0_compat; [exact H0|discriminate]. }
  assert (Hhi : (Qfloor (random * 20) < 20)%Z).
  { rewrite Zlt_Qlt.
    apply Qle_lt_trans with (random * 20)%Q; [apply Qfloor_le|].
    change (inject_Z 20) with (1 * 20)%Q.
    apply Qmult_lt_compat_r; [reflexivity|exact H1]. }
  lia.
Qed.

Lemma modifier_of_integer_score (z : Z) :
  Qfloor ((inject_Z z - 10) / 2) = ((z - 10) / 2)%Z.
Proof.
  unfold Qfloor, Qdiv, Qminus, Qplus, Qopp, Qmult, Qinv, inject_Z. simpl.
  f_equal. lia.
Qed.

Lemma roll_stats_names (characterStats : Stats) (randoms : nat -> Q)
    (names : list StatName) (i : nat) :
  map statName (roll_stats characterStats randoms i names) = names.
Proof.
  revert i; induction names as [|n names IH]; intro i; simpl;
    [reflexivity|]. rewrite IH. reflexivity.
Qed.

Lemma roll_stats_each (characterStats : Stats) (randoms : nat -> Q)
    (names : list StatName) (i : nat) :
  (forall k, (0 <= randoms k)%Q /\ (randoms k < 1)%Q) ->
  Forall (fun r =>
            (1 <= diceValue r <= 20)%Z /\
            modifier r = Qfloor ((score characterStats (statName r) - 10) / 2) /\
            totalValue r = (diceValue r + modifier r)%Z)
         (roll_stats characterStats randoms i names).
Proof.
  intro Hr. revert i; induction names as [|n names IH]; intro i; simpl.
  - constructor.
  - constructor; [|apply IH].
    destruct (Hr i) as [H0 H1].
    split; [apply dice_in_range; assumption|].
    split; reflexivity.
Qed.

(** C7.  The report keeps the identifier and the description of the request
    and has one result for each requested ability, in the order of the
    request.  In each result the die shows a value from 1 to 20, the modifier
    is floor((score - 10) / 2) of the character's score for that ability, 10
    when the character has none, and the total is their sum. *)
Theorem performRoll_report (request : DiceRollRequest) (characterStats : Stats)
    (randoms : nat -> Q) :
  (forall k, (0 <= randoms k)%Q /\ (randoms k < 1)%Q) ->
  let report := performRoll request characterStats randoms in
  rollId report = roll_id request /\
  rollDescription report = roll_description request /\
  map statName (results report) = statsToRoll request /\
  Forall (fun r =>
            (1 <= diceValue r <= 20)%Z /\
            modifier r = Qfloor ((score characterStats (statName r) - 10) / 2) /\
            (forall z, score characterStats (statName r) = inject_Z z ->
                       modifier r = ((z - 10) / 2)%Z) /\
            totalValue r = (diceValue r + modifier r)%Z)
         (results report).
Proof.
  intros Hr report. unfold report, performRoll. simpl.
  split; [reflexivity|]. split; [reflexivity|].
  split; [apply roll_stats_names|].
  eapply Forall_impl; [|apply (roll_stats_each characterStats randoms _ 0 Hr)].
  intros r (Hd & Hm & Ht).
  repeat split; try assumption; try apply Hd.
  intros z Hz. rewrite Hm, Hz. apply modifier_of_integer_score.
Qed.

(** The modifiers of the specification: 10 gives 0, 8 gives -1, 16 gives 3,
    3 gives -4, and an ability without a score rolls as 10. *)
Lemma performRoll_report_witness :
  let report := performRoll example_request example_stats (fun _ => Qmake 19 20) in
  map statName (results report)
  = [Strength; Dexterity; Constitution; Intelligence; Wisdom] /\
  map modifier (results report) = [0; -1; 3; -4; 0]%Z /\
  map diceValue (results report) = [20; 20; 20; 20; 20]%Z /\
  Forall (fun r => (1 <= diceValue r <= 20)%Z) (results report).
Proof.
  intro report.
  destruct (performRoll_report example_request example_stats (fun _ => Qmake 19 20))
    as (_ & _ & Hn & Hall).
  - intro k. split; [discriminate|reflexivity].
  - split; [exact Hn|]. split; [reflexivity|]. split; [reflexivity|].
    eapply Forall_impl; [|exact Hall]. intros r (Hd & _). exact Hd.
Defined.

(** ** Progression *)

Lemma Qltb_lt (a b : Q) : Qltb a b = true <-> (a < b)%Q.
Proof.
  unfold Qltb. rewrite Qlt_alt.
  change (Qcompare a b) with (a ?= b)%Q.
  destruct (a ?= b)%Q; split; intro H; congruence.
Qed.

Lemma xp_reaches_iff (xp : Q) (t : threshold) :
  xp_reaches xp t = true <-> exists q, t = Finite q /\ (q <= xp)%Q.
Proof.
  destruct t as [q|]; simpl.
  - split.
    + intro H. exists q. split; [reflexivity|].
      apply Qnot_lt_le. intro Hlt. apply Qlt_alt in Hlt.
      change (Qcompare xp q = Lt) in Hlt. rewrite Hlt in H. discriminate.
    + intros (q' & E & Hle). injection E as <-.
      destruct (Qcompare xp q) eqn:Ec; try reflexivity.
      change ((xp ?= q)%Q = Lt) in Ec. apply Qlt_alt in Ec.
      exfalso. apply (Qlt_not_le _ _ Ec). exact Hle.
  - split; [discriminate|]. intros (q & E & _). discriminate.
Qed.

Lemma or_base_floor (v : Q) : (MIN_STAT_VALUE <= v)%Q -> or_base (Some v) = v.
Proof.
  intro H. unfold or_base.
  destruct (Qeq_bool v 0) eqn:E; [|reflexivity].
  apply Qeq_bool_iff in E. unfold MIN_STAT_VALUE in H. lra.
Qed.

Lemma StatName_eqb_eq (a b : StatName) : StatName_eqb a b = true <-> a = b.
Proof. destruct a, b; simpl; split; intro H; try reflexivity; discriminate. Qed.

(** C5.  Level-up below the maximum level.  Maximum health grows by 8 plus
    floor((Con - 10) / 2), Con being the Constitution score after the chosen
    increase (read as the code reads every score: the baseline 10 for a
    missing or zero score); the chosen score, when it respects the floor of
    the scores, is one higher than before, the others are unchanged; health
    is set to the new maximum; experience is lowered by the threshold and
    never falls below zero; the next threshold comes from the table, or is
    [Infinity], which no experience reaches, at the last level. *)
Theorem level_up_math (p : Props) (s : ChatState) (payload : LevelUpPayload) :
  currentLevel s < MAX_LEVEL ->
  let s' := fst (handleLevelUpComplete p s payload) in
  let Con := or_base (currentStats s' Constitution) in
  currentMaxHp s' = (currentMaxHp s + 8 + inject_Z (Qfloor ((Con - 10) / 2)))%Q /\
  currentHp s' = currentMaxHp s' /\
  (forall chosen v,
      chosenStatIncrease payload = Some chosen ->
      currentStats s chosen = Some v -> (MIN_STAT_VALUE <= v)%Q ->
      currentStats s' chosen = Some (v + 1)%Q /\
      or_base (currentStats s' chosen) = (v + 1)%Q) /\
  (forall n, chosenStatIncrease payload <> Some n ->
             currentStats s' n = currentStats s n) /\
  (0 <= currentXP s')%Q /\
  (forall t, currentXpToNextLevel s = Finite t ->
             ((t <= currentXP s)%Q -> currentXP s' = (currentXP s - t)%Q) /\
             ((currentXP s < t)%Q -> currentXP s' = 0%Q)) /\
  currentLevel s' = currentLevel s + 1 /\
  (currentLevel s' < MAX_LEVEL ->
   exists t, nth_error XP_THRESHOLDS (currentLevel s') = Some t /\
             currentXpToNextLevel s' = Finite t) /\
  (currentLevel s' = MAX_LEVEL ->
   currentXpToNextLevel s' = Infinity /\
   forall xp, xp_reaches xp (currentXpToNextLevel s') = false).
Proof.
  intros Hlevel s' Con.
  unfold Con, s', handleLevelUpComplete.
  rewrite (proj2 (Nat.ltb_lt _ _) Hlevel).
  cbn [negb fst currentStats currentMaxHp currentHp currentXP currentLevel
       currentXpToNextLevel].
  split; [reflexivity|].
  split; [reflexivity|].
  split.
  { intros chosen v Hc Hv Hfloor. rewrite Hc, Hv.
    unfold set_stat. rewrite (proj2 (StatName_eqb_eq chosen chosen) eq_refl).
    rewrite (or_base_floor _ Hfloor). split; [reflexivity|].
    apply or_base_floor. unfold MIN_STAT_VALUE in *. lra. }
  split.
  { intros n Hn.
    destruct (chosenStatIncrease payload) as [chosen|]; [|reflexivity].
    destruct (currentStats s chosen) as [v|]; [|reflexivity].
    unfold set_stat.
    destruct (StatName_eqb n chosen) eqn:E; [|reflexivity].
    apply StatName_eqb_eq in E. subst n. contradiction. }
  split.
  { destruct (currentXpToNextLevel s) as [t|]; simpl; [|discriminate].
    destruct (Qltb (currentXP s - t) 0) eqn:E; [discriminate|].
    apply Qnot_lt_le. intro Hlt. apply Qltb_lt in Hlt. congruence. }
  split.
  { intros t Ht. rewrite Ht. simpl. split; intro H.
    - destruct (Qltb (currentXP s - t) 0) eqn:E; [|reflexivity].
      apply Qltb_lt in E. lra.
    - destruct (Qltb (currentXP s - t) 0) eqn:E; [reflexivity|].
      assert (E' : (currentXP s - t < 0)%Q) by lra.
      apply Qltb_lt in E'. congruence. }
  split; [reflexivity|].
  split.
  { intro Hnext. rewrite (proj2 (Nat.ltb_lt _ _) Hnext).
    exists (nth (currentLevel s + 1) XP_THRESHOLDS 0%Q).
    split; [|reflexivity].
    apply nth_error_nth'. exact Hnext. }
  intro Hmax. rewrite Hmax. rewrite Nat.ltb_irrefl.
  split; [reflexivity|]. intro xp. reflexivity.
Qed.

(** The figures of the specification: maximum health 20 and Constitution 14
    (modifier 2) give maximum health 30 and health 30; 350 experience points
    against a threshold of 300 leave 50.  The increase goes to Strength
    here. *)
Lemma level_up_math_witness :
  let s' := fst (handleLevelUpComplete playing level_two_state choose_strength) in
  currentStats s' Strength = Some (10 + 1)%Q /\
  currentStats s' Constitution = Some 14%Q /\
  currentMaxHp s' = (20 + 8 + inject_Z 2)%Q /\
  currentHp s' = currentMaxHp s' /\
  currentXP s' = (350 - 300)%Q /\
  currentLevel s' = 3 /\
  currentXpToNextLevel s' = Finite 600.
Proof.
  intro s'.
  destruct (level_up_math playing level_two_state choose_strength)
    as (Hm & Hh & Hc & Ho & _ & Hx & Hl & Ht & _).
  - unfold MAX_LEVEL. simpl. lia.
  - fold s' in Hm, Hh, Hc, Ho, Hx, Hl, Ht.
    split; [apply (Hc Strength 10%Q eq_refl eq_refl); discriminate|].
    split; [rewrite (Ho Constitution); [reflexivity|discriminate]|].
    split; [exact Hm|]. split; [exact Hh|].
    split; [apply (Hx 300%Q eq_refl); discriminate|].
    split; [exact Hl|].
    destruct Ht as (t & Hn & E).
    + rewrite Hl. unfold MAX_LEVEL. simpl. lia.
    + rewrite Hl in Hn. simpl in Hn. injection Hn as <-. exact E.
Defined.

(** With Constitution chosen at a score of 15, the modifier is computed from
    16: maximum health grows by 8 + 3. *)
Example level_up_counts_increased_constitution :
  let s' := fst (handleLevelUpComplete playing constitution_fifteen_state
                   choose_constitution) in
  currentStats s' Constitution = Some (15 + 1)%Q /\
  currentMaxHp s' = (20 + 8 + inject_Z 3)%Q.
Proof. split; reflexivity. Qed.

(** C6.  Right after a level-up, when the experience left reaches the new
    threshold and the character is below the maximum level, the level-up
    choice is open again, and the input is disabled, as it is in every state
    in which the choice is open. *)
Theorem level_up_chains (p : Props) (s : ChatState) (payload : LevelUpPayload)
    (t : Q) :
  currentLevel s < MAX_LEVEL ->
  let s' := fst (handleLevelUpComplete p s payload) in
  currentXpToNextLevel s' = Finite t ->
  (t <= currentXP s')%Q ->
  currentLevel s' < MAX_LEVEL ->
  isLevelUpModalOpen s' = true /\
  input_disabled p s' = true /\
  In (system_note ReadyForNextLevel) (chatHistory s') /\
  forall s'', isLevelUpModalOpen s'' = true -> input_disabled p s'' = true.
Proof.
  intros Hlevel s' Ht Hxp Hnext.
  assert (Hopen : forall s'', isLevelUpModalOpen s'' = true ->
                              input_disabled p s'' = true).
  { intros s'' H. unfold input_disabled. rewrite H. apply orb_true_r. }
  assert (Hreach : xp_reaches (currentXP s') (currentXpToNextLevel s') = true).
  { apply xp_reaches_iff. exists t. split; assumption. }
  revert Ht Hxp Hnext Hreach. unfold s', handleLevelUpComplete.
  rewrite (proj2 (Nat.ltb_lt _ _) Hlevel).
  cbn [negb fst currentXpToNextLevel currentXP currentLevel isLevelUpModalOpen
       chatHistory].
  intros Ht Hxp Hnext Hreach.
  rewrite (proj2 (Nat.ltb_lt _ _) Hnext) in *.
  rewrite Hreach. cbn [andb].
  split; [reflexivity|].
  split; [apply Hopen; reflexivity|].
  split; [|exact Hopen].
  apply in_or_app. right. left. reflexivity.
Qed.

(** 950 experience points at level 2: the level-up to level 3 leaves 650,
    the threshold of level 4 is 600, and the choice opens again. *)
Lemma level_up_chains_witness :
  let s' := fst (handleLevelUpComplete playing level_two_rich_state choose_constitution) in
  isLevelUpModalOpen s' = true /\ input_disabled playing s' = true.
Proof.
  intro s'.
  destruct (level_up_chains playing level_two_rich_state choose_constitution 600%Q)
    as (Ho & Hd & _).
  - unfold MAX_LEVEL. simpl. lia.
  - reflexivity.
  - discriminate.
  - unfold MAX_LEVEL. simpl. lia.
  - split; [exact Ho|exact Hd].
Defined.

(** ** Dice gating *)

(** C4.  The roll report [report] has been resolved and the turn that
    answers it asks for a roll [req].  When [req] has the identifier of the
    report, no request is active after the turn and the dice interface stays
    closed; with another identifier, [req] is the active request and the
    dice interface is open. *)
Theorem resolved_roll_not_reactivated (p : Props) (s : ChatState)
    (report : DiceRollReport) (completeAiResponseText : text)
    (fin : option text) (r : ProcessedAiCommandsResult) (req : DiceRollRequest) :
  chatSession s = true ->
  reconcile p s completeAiResponseText = Ok r ->
  newDiceRollRequest r = Some req ->
  let s' := fst (handleDiceRollComplete p s report
                   (Completed completeAiResponseText fin)) in
  (roll_id req = rollId report ->
   activeDiceRollRequest s' = None /\ isDiceInterfaceActive s' = false) /\
  (roll_id req <> rollId report ->
   activeDiceRollRequest s' = Some req /\ isDiceInterfaceActive s' = true).
Proof.
  intros Hsession Hrec Hreq s'.
  unfold s', handleDiceRollComplete. rewrite Hsession. cbn [negb].
  unfold handleStreamAndProcessInternal. rewrite Hrec.
  cbn [fst activeDiceRollRequest isDiceInterfaceActive].
  rewrite Hreq.
  cbn [lastResolvedRollIdRef addMessageToHistory set_chatHistory set_isAiTyping
       set_dice activeDiceRollRequest isDiceInterfaceActive].
  split; intro H.
  - rewrite (proj2 (text_eqb_eq _ _) H). split; reflexivity.
  - rewrite (proj2 (text_eqb_neq _ _) H). split; reflexivity.
Qed.

(** The answer to the report of [r1] asks for [r1] again: nothing is
    activated. *)
Lemma resolved_roll_not_reactivated_witness :
  let s' := fst (handleDiceRollComplete playing rolling_state report_r1
                   (Completed one_ability_turn None)) in
  activeDiceRollRequest s' = None /\ isDiceInterfaceActive s' = false.
Proof.
  intro s'.
  edestruct (resolved_roll_not_reactivated playing rolling_state report_r1
               one_ability_turn None) as (H & _).
  - reflexivity.
  - vm_compute. reflexivity.
  - reflexivity.
  - apply H. reflexivity.
Defined.

(** The answer to the report of [r1] asks for [r2]: the new roll is
    activated. *)
Example other_roll_activated :
  let s' := fst (handleDiceRollComplete playing rolling_state report_r1
                   (Completed next_roll_turn None)) in
  option_map roll_id (activeDiceRollRequest s') = Some (lit "r2") /\
  isDiceInterfaceActive s' = true /\
  lastResolvedRollIdRef s' = None.
Proof. vm_compute. repeat split. Qed.

(** ** Autosave gating *)

(** The snapshot is handed to [saveGameInternalLogic] exactly under the
    conditions of the closure: the state as it was when the turn began. *)
Lemma autosave_conditions (p : Props) (cl cur : ChatState) (t : text)
    (fin : option text) (id : text) (auto : bool) (retry : nat) (post : bool) :
  saved (snd (handleStreamAndProcessInternal p cl cur (Completed t fin) id auto
                retry post)) <> None
  <-> gamePhase p = Gameplay /\ apiKeyAvailable p = true /\
      (isDiceInterfaceActive cl = false \/ post = true) /\
      isLevelUpModalOpen cl = false /\
      exists r, reconcile p cl t = Ok r.
Proof.
  unfold handleStreamAndProcessInternal.
  destruct (reconcile p cl t) as [r|e] eqn:Hr; cbn [snd saved no_effects].
  - destruct (gamePhase p), (apiKeyAvailable p), (isDiceInterfaceActive cl), post,
      (isLevelUpModalOpen cl); cbn;
      (split; [intro H; try (exfalso; apply H; reflexivity);
               repeat split; try reflexivity; try (left; reflexivity);
               try (right; reflexivity); exists r; reflexivity
              |intros (H1 & H2 & H3 & H4 & _); try discriminate;
               try (destruct H3; discriminate)]).
  - split; [intro H; exfalso; apply H; reflexivity|].
    intros (_ & _ & _ & _ & r & Hr'). discriminate.
Qed.

(** C9 fails on the code.  In active play, with no roll and no level-up
    pending, the player sends a message and the turn asks for a roll: the
    roll is activated and the snapshot is written in the same update.
    Likewise for a turn whose award opens the level-up choice. *)
Theorem autosave_with_workflow_pending :
  (let out := handleSendMessage playing level_two_state (lit "I push the gate")
                (Completed one_ability_turn None) in
   isDiceInterfaceActive (fst out) = true /\
   option_map roll_id (activeDiceRollRequest (fst out)) = Some (lit "r1") /\
   saved (snd out) <> None) /\
  (let out := handleSendMessage playing level_two_state (lit "I strike")
                (Completed big_award_turn None) in
   isLevelUpModalOpen (fst out) = true /\
   input_disabled playing (fst out) = true /\
   saved (snd out) <> None).
Proof.
  split; vm_compute; repeat split; discriminate.
Qed.

(** * Further properties *)

(** ** Trimmed texts *)


Lemma trim_start_head (s : text) :
  trim_start s = [] \/
  exists x r, trim_start s = x :: r /\ is_js_space x = false.
Proof.
  induction s as [|c s IH]; simpl; [left; reflexivity|].
  destruct (is_js_space c) eqn:Ec; [exact IH|].
  right. exists c, s. split; [reflexivity|exact Ec].
Qed.

Lemma trim_start_nonspace (x : char) (r : text) :
  is_js_space x = false -> trim_start (x :: r) = x :: r.
Proof. intro H. simpl. rewrite H. reflexivity. Qed.

Lemma trim_end_cons_nonspace (x : char) (r : text) :
  is_js_space x = false -> trim_end (x :: r) = x :: trim_end r.
Proof.
  intro H. unfold trim_end. simpl rev.
  rewrite (trim_start_app_nonspace (rev r) [] x H).
  rewrite rev_app_distr. reflexivity.
Qed.

Lemma trim_end_idem (s : text) : trim_end (trim_end s) = trim_end s.
Proof.
  unfold trim_end. rewrite rev_involutive.
  destruct (trim_start_head (rev s)) as [E | (x & r & E & Hx)]; rewrite E.
  - reflexivity.
  - rewrite (trim_start_nonspace x r Hx). reflexivity.
Qed.

(** Trimming twice is trimming once. *)
Lemma trim_idem (s : text) : trim (trim s) = trim s.
Proof.
  unfold trim.
  destruct (trim_start_head s) as [E | (x & r & E & Hx)]; rewrite E.
  - reflexivity.
  - rewrite (trim_end_cons_nonspace x r Hx).
    rewrite (trim_start_nonspace x _ Hx).
    rewrite <- (trim_end_cons_nonspace x r Hx).
    apply trim_end_idem.
Qed.

Lemma cleanPotentialUndefined_trimmed (t : text) :
  trim (cleanPotentialUndefined t) = cleanPotentialUndefined t.
Proof.
  unfold cleanPotentialUndefined.
  destruct (ends_with (lit "undefined") t); apply trim_idem.
Qed.

Lemma strip_trimmed (R : regex) (t : text) :
  trim t = t -> trim (strip R t) = strip R t.
Proof.
  intro H. unfold strip. destruct (regex_exec R t); [apply trim_idem|exact H].
Qed.

Lemma run_blocks_trimmed (now : Z) (cs : list command) (st : locals) :
  trim (processedText st) = processedText st ->
  trim (processedText (run_blocks now cs st)) = processedText (run_blocks now cs st).
Proof.
  revert st; induction cs as [|c cs IH]; intros st H; [exact H|].
  change (run_blocks now (c :: cs) st)
    with (run_blocks now cs (run_block (regex_of c) (body_of now c) st)).
  apply IH. simpl. apply strip_trimmed, H.
Qed.

(** X1.  The text a turn leaves for display has no white space at either
    end, whatever the answer of the narrator was. *)
Theorem cleaned_text_is_trimmed (now : Z) (aiText : text) (hp maxHp : Q)
    (sts : list json) (focus : option FocusTargetInfo)
    (dice : option DiceRollRequest) (inv : list Item) (xp : Q) :
  exists r,
    _updateStateAndParseCommands now aiText hp maxHp sts focus dice inv xp = Ok r /\
    trim (cleanedText r) = cleanedText r.
Proof.
  rewrite _updateStateAndParseCommands_run. cbv zeta.
  eexists. split; [reflexivity|].
  change (cleanedText (set_cleanedText ?t ?r)) with t.
  apply run_blocks_trimmed. simpl. apply cleanPotentialUndefined_trimmed.
Qed.

(** ** Texts without a command *)

Lemma occurs_intro (p a b : text) : occurs p (a ++ p ++ b) = true.
Proof.
  induction a as [|c a IH]; simpl.
  - destruct (p ++ b) eqn:E; simpl.
    + destruct p; [reflexivity|discriminate].
    + rewrite <- E. rewrite starts_with_app. reflexivity.
  - rewrite IH. apply orb_true_r.
Qed.

Lemma occurs_split (p s : text) :
  occurs p s = true -> exists a b, s = a ++ p ++ b.
Proof.
  induction s as [|c s IH]; simpl; intro H.
  - apply orb_true_iff in H as [H|H]; [|discriminate].
    exists [], []. destruct p; [reflexivity|discriminate].
  - apply orb_true_iff in H as [H|H].
    + exists [], (skipn (length p) (c :: s)). apply (starts_with_split _ _ H).
    + destruct (IH H) as (a & b & ->). exists (c :: a), b. reflexivity.
Qed.

(** A stretch of a text without [p] is without [p]. *)
Lemma occurs_infix (p a s b : text) :
  occurs p (a ++ s ++ b) = false -> occurs p s = false.
Proof.
  intro H. destruct (occurs p s) eqn:E; [|reflexivity].
  apply occurs_split in E as (a' & b' & ->).
  rewrite <- H.
  replace (a ++ (a' ++ p ++ b') ++ b) with ((a ++ a') ++ p ++ (b' ++ b))
    by (rewrite <- !app_assoc; reflexivity).
  symmetry. apply occurs_intro.
Qed.

Lemma trim_start_suffix (s : text) : exists w, s = w ++ trim_start s.
Proof.
  induction s as [|c s [w IH]]; simpl.
  - exists []. reflexivity.
  - destruct (is_js_space c).
    + exists (c :: w). simpl. rewrite <- IH. reflexivity.
    + exists []. reflexivity.
Qed.

Lemma trim_end_prefix (s : text) : exists w, s = trim_end s ++ w.
Proof.
  unfold trim_end. destruct (trim_start_suffix (rev s)) as [w E].
  exists (rev w). rewrite <- rev_app_distr, <- E. symmetry. apply rev_involutive.
Qed.

Lemma trim_infix (s : text) : exists a b, s = a ++ trim s ++ b.
Proof.
  unfold trim. destruct (trim_start_suffix s) as [a Ea].
  destruct (trim_end_prefix (trim_start s)) as [b Eb].
  exists a, b. rewrite <- Eb. exact Ea.
Qed.

Lemma cleanPotentialUndefined_infix (t : text) :
  exists a b, t = a ++ cleanPotentialUndefined t ++ b.
Proof.
  unfold cleanPotentialUndefined.
  destruct (ends_with (lit "undefined") t).
  - set (n := length t - length (lit "undefined")).
    destruct (trim_infix (firstn n t)) as (a & b & E).
    exists a, (b ++ skipn n t).
    rewrite <- (firstn_skipn n t) at 1. rewrite E at 1.
    rewrite <- !app_assoc. reflexivity.
  - apply trim_infix.
Qed.

Lemma sigil_colons (c : command) :
  exists a, sigil (regex_of c) = a ++ lit "::".
Proof.
  exists (removelast (removelast (sigil (regex_of c)))).
  destruct c; vm_compute; reflexivity.
Qed.

Lemma regex_exec_occurs (c : command) (s : text) (m : regex_match) :
  regex_exec (regex_of c) s = Some m -> occurs (lit "::") s = true.
Proof.
  intro H. apply regex_exec_split in H as [E _].
  destruct (sigil_colons c) as [a Ea]. rewrite E, Ea.
  replace (m_pre m ++ (a ++ lit "::") ++ m_group1 m ++ m_post m)
    with ((m_pre m ++ a) ++ lit "::" ++ (m_group1 m ++ m_post m))
    by (rewrite <- !app_assoc; reflexivity).
  apply occurs_intro.
Qed.

Lemma no_colons_no_match (c : command) (s : text) :
  occurs (lit "::") s = false -> regex_exec (regex_of c) s = None.
Proof.
  intro H. destruct (regex_exec (regex_of c) s) as [m|] eqn:E; [|reflexivity].
  apply regex_exec_occurs in E. congruence.
Qed.

Lemma regex_replace_empty_no_match (R : regex) (s : text) :
  regex_exec R s = None -> regex_replace_empty R s = s.
Proof. intro H. unfold regex_replace_empty. rewrite H. reflexivity. Qed.

Lemma displayable_remove_each (aiText : text) :
  _getDisplayableTextFromPartialAiResponse aiText =
  trim (remove_each display_order (cleanPotentialUndefined aiText)).
Proof. reflexivity. Qed.

Lemma remove_each_no_match (cs : list command) (s : text) :
  (forall c, In c cs -> regex_exec (regex_of c) s = None) ->
  remove_each cs s = s.
Proof.
  induction cs as [|c cs IH]; intro H; [reflexivity|].
  unfold remove_each. simpl.
  rewrite regex_replace_empty_no_match by (apply H; left; reflexivity).
  apply IH. intros c' Hc'. apply H. right. exact Hc'.
Qed.

(** X2.  An answer in which [::] does not occur holds no command: the
    reconciliation returns the snapshot it was given, with the answer
    trimmed and without a trailing [undefined] as the text, and the text
    shown while it streams is that same text. *)
Theorem plain_text_changes_nothing (now : Z) (aiText : text) (hp maxHp : Q)
    (sts : list json) (focus : option FocusTargetInfo)
    (dice : option DiceRollRequest) (inv : list Item) (xp : Q) :
  occurs (lit "::") aiText = false ->
  _updateStateAndParseCommands now aiText hp maxHp sts focus dice inv xp =
    Ok (initial_result (cleanPotentialUndefined aiText) hp maxHp sts focus inv xp) /\
  _getDisplayableTextFromPartialAiResponse aiText = cleanPotentialUndefined aiText.
Proof.
  intro H.
  assert (H0 : occurs (lit "::") (cleanPotentialUndefined aiText) = false).
  { destruct (cleanPotentialUndefined_infix aiText) as (a & b & E).
    rewrite E in H. exact (occurs_infix _ _ _ _ H). }
  split.
  - rewrite _updateStateAndParseCommands_run. cbv zeta.
    rewrite run_blocks_no_match; [reflexivity|].
    intros c _. apply no_colons_no_match. exact H0.
  - rewrite displayable_remove_each.
    rewrite remove_each_no_match.
    + apply cleanPotentialUndefined_trimmed.
    + intros c _. apply no_colons_no_match. exact H0.
Qed.

Lemma plain_text_changes_nothing_witness :
  _updateStateAndParseCommands 1700 (lit "  The road is quiet. undefined") 11 20 []
    None None [potion 1] 50 =
    Ok (initial_result (lit "The road is quiet.") 11 20 [] None [potion 1] 50) /\
  _getDisplayableTextFromPartialAiResponse (lit "  The road is quiet. undefined")
    = lit "The road is quiet.".
Proof.
  apply (plain_text_changes_nothing 1700 (lit "  The road is quiet. undefined")).
  vm_compute. reflexivity.
Defined.

(** ** A text with a single command *)

Lemma starts_with_length (q p : text) :
  starts_with q p = true -> length q <= length p.
Proof.
  revert p; induction q as [|x q IH]; intros p H; simpl; [lia|].
  destruct p as [|y p]; [discriminate|].
  simpl in H. apply andb_true_iff in H as [_ H]. apply IH in H. simpl. lia.
Qed.

Lemma starts_with_extend (q p w : text) :
  starts_with q p = true -> starts_with q (p ++ w) = true.
Proof.
  revert p; induction q as [|x q IH]; intros p H; [reflexivity|].
  destruct p as [|y p]; [discriminate|].
  simpl in *. apply andb_true_iff in H as [Hx H].
  rewrite Hx. simpl. apply IH, H.
Qed.

Lemma lazy_until_rbrace_extend (s w body rest : text) :
  lazy_until_rbrace s = Some (body, rest) ->
  lazy_until_rbrace (s ++ w) = Some (body, rest ++ w).
Proof.
  revert body rest; induction s as [|c s IH]; intros body rest H; [discriminate|].
  simpl in *. destruct (N.eqb c rbrace).
  - injection H as <- <-. reflexivity.
  - destruct (lazy_until_rbrace s) as [[b r]|]; [|discriminate].
    injection H as <- <-. rewrite (IH b r eq_refl). reflexivity.
Qed.

Lemma match_group_extend (R : regex) (s w : text) :
  match_group R s <> None -> match_group R (s ++ w) <> None.
Proof.
  unfold match_group. intro H.
  destruct (match_braces (s ++ w)) eqn:Ew; [discriminate|].
  destruct (match_braces s) as [[g rest]|] eqn:Es.
  - exfalso. unfold match_braces in Es, Ew.
    destruct s as [|c s]; [discriminate|]. simpl in Ew.
    destruct (N.eqb c lbrace); [|discriminate].
    destruct (lazy_until_rbrace s) as [[b r]|] eqn:El; [|discriminate].
    rewrite (lazy_until_rbrace_extend _ w _ _ El) in Ew. discriminate.
  - destruct (or_null R); cbn [andb] in *; [|exfalso; apply H; reflexivity].
    destruct (starts_with (lit "null") s) eqn:En; [|exfalso; apply H; reflexivity].
    rewrite (starts_with_extend _ _ w En). discriminate.
Qed.

Lemma match_here_extend (R : regex) (s w : text) :
  match_here R s <> None -> match_here R (s ++ w) <> None.
Proof.
  unfold match_here. intro H.
  destruct (starts_with (sigil R) s) eqn:Es; [|congruence].
  rewrite (starts_with_extend _ _ w Es).
  rewrite skipn_app.
  replace (length (sigil R) - length s) with 0
    by (apply starts_with_length in Es; lia).
  apply match_group_extend, H.
Qed.

Lemma regex_exec_here (R : regex) (s : text) :
  regex_exec R s = None -> match_here R s = None.
Proof.
  destruct s; simpl; destruct (match_here R _) as [[g r]|]; intro H;
    try discriminate; reflexivity.
Qed.

(** A match in a text is still there when the text is continued ... *)
Lemma regex_exec_extend (R : regex) (s w : text) :
  regex_exec R (s ++ w) = None -> regex_exec R s = None.
Proof.
  induction s as [|c s IH]; intro H.
  - apply regex_exec_here in H.
    simpl. destruct (match_here R []) eqn:E; [|reflexivity].
    exfalso. apply (match_here_extend R [] w); [congruence|exact H].
  - pose proof (regex_exec_here _ _ H) as Hh.
    simpl in H. change (c :: s ++ w) with ((c :: s) ++ w) in H. rewrite Hh in H.
    simpl. destruct (match_here R (c :: s)) eqn:Es.
    + exfalso. apply (match_here_extend R (c :: s) w); [congruence|exact Hh].
    + destruct (regex_exec R (s ++ w)); [discriminate|].
      rewrite (IH eq_refl). reflexivity.
Qed.

(** ... or preceded by more text. *)
Lemma regex_exec_suffix (R : regex) (a s : text) :
  regex_exec R (a ++ s) = None -> regex_exec R s = None.
Proof.
  induction a as [|c a IH]; intro H; [exact H|].
  apply IH. simpl in H.
  destruct (match_here R (c :: a ++ s)) as [[g r]|]; [discriminate|].
  destruct (regex_exec R (a ++ s)); [discriminate|reflexivity].
Qed.

Lemma regex_exec_trim (R : regex) (s : text) :
  regex_exec R s = None -> regex_exec R (trim s) = None.
Proof.
  intro H. destruct (trim_infix s) as (a & b & E). rewrite E in H.
  apply regex_exec_suffix in H. apply regex_exec_extend in H. exact H.
Qed.

Lemma display_order_split (c : command) :
  display_order = before c display_order ++ c :: after c display_order.
Proof. destruct c; reflexivity. Qed.

Lemma In_before_neq (c c' : command) (l : list command) :
  In c' (before c l) -> c' <> c.
Proof.
  induction l as [|x l IH]; simpl; [intros []|].
  destruct (command_eqb x c) eqn:E; [intros []|].
  intros [<-|H]; [|exact (IH H)].
  intros ->. destruct c; discriminate.
Qed.

Lemma In_after_display_neq (c c' : command) :
  In c' (after c display_order) -> c' <> c.
Proof.
  destruct c; simpl; intros H ->;
    repeat (destruct H as [H|H]; [discriminate|]); exact H.
Qed.

Lemma remove_each_app (l1 l2 : list command) (s : text) :
  remove_each (l1 ++ l2) s = remove_each l2 (remove_each l1 s).
Proof. unfold remove_each. apply fold_left_app. Qed.

(** X3.  When exactly one command pattern matches the answer, and none
    matches what is left once that match is cut out, the text shown while
    the answer streams and the text the reconciliation leaves are the same:
    the answer without the match, trimmed. *)
Theorem single_command_display_is_cleaned_text (now : Z) (aiText : text)
    (hp maxHp : Q) (sts : list json) (focus : option FocusTargetInfo)
    (dice : option DiceRollRequest) (inv : list Item) (xp : Q)
    (c : command) (m : regex_match) :
  let t0 := cleanPotentialUndefined aiText in
  regex_exec (regex_of c) t0 = Some m ->
  (forall c', c' <> c -> regex_exec (regex_of c') t0 = None) ->
  (forall c', regex_exec (regex_of c') (m_pre m ++ m_post m) = None) ->
  exists r,
    _updateStateAndParseCommands now aiText hp maxHp sts focus dice inv xp = Ok r /\
    cleanedText r = trim (m_pre m ++ m_post m) /\
    _getDisplayableTextFromPartialAiResponse aiText = cleanedText r.
Proof.
  intros t0 Em Hothers Hleft.
  rewrite _updateStateAndParseCommands_run. cbv zeta. fold t0.
  eexists. split; [reflexivity|].
  change (cleanedText (set_cleanedText ?t ?r)) with t.
  assert (E : processedText
                (run_blocks now processing_order
                   {| processedText := t0;
                      result := initial_result t0 hp maxHp sts focus inv xp |})
              = trim (m_pre m ++ m_post m)).
  { rewrite (processing_order_split c) at 1.
    rewrite run_blocks_app.
    rewrite (run_blocks_no_match now (before c processing_order))
      by (intros c' Hc'; apply Hothers; exact (In_before_neq _ _ _ Hc')).
    change (run_blocks now (c :: after c processing_order) ?s)
      with (run_blocks now (after c processing_order)
              (run_block (regex_of c) (body_of now c) s)).
    rewrite run_blocks_no_match.
    - unfold run_block, strip. simpl. fold t0. rewrite Em. reflexivity.
    - intros c' _. unfold run_block, strip. simpl. fold t0. rewrite Em.
      apply regex_exec_trim, Hleft. }
  split; [exact E|]. rewrite E.
  rewrite displayable_remove_each. fold t0.
  rewrite (display_order_split c) at 1. rewrite remove_each_app.
  rewrite (remove_each_no_match (before c display_order))
    by (intros c' Hc'; apply Hothers; exact (In_before_neq _ _ _ Hc')).
  change (remove_each (c :: after c display_order) t0)
    with (remove_each (after c display_order) (regex_replace_empty (regex_of c) t0)).
  unfold regex_replace_empty at 1. rewrite Em.
  rewrite remove_each_no_match by (intros c' _; apply Hleft).
  reflexivity.
Qed.

Lemma single_command_display_is_cleaned_text_witness :
  exists r,
    _updateStateAndParseCommands 1700 one_ability_turn 11 20 [] None None [] 0 = Ok r /\
    cleanedText r = lit "Brace yourself." /\
    _getDisplayableTextFromPartialAiResponse one_ability_turn = cleanedText r.
Proof.
  destruct (single_command_display_is_cleaned_text 1700 one_ability_turn 11 20 []
              None None [] 0 DICE_ROLL_REQUEST
              {| m_pre := lit "Brace yourself. ";
                 m_group1 := js "{'id':'r1','statsToRoll':['Strength'],'description':'Hold the gate'}";
                 m_post := [] |})
    as (r & Hr & Hc & Hd).
  - vm_compute. reflexivity.
  - intros c' Hc'. destruct c'; try (vm_compute; reflexivity). congruence.
  - intro c'. destruct c'; vm_compute; reflexivity.
  - exists r. split; [exact Hr|]. split; [|exact Hd].
    rewrite Hc. vm_compute. reflexivity.
Defined.

(** ** The inventory stays positive *)

Lemma Qgtb_true (a b : Q) : Qgtb a b = true -> (b < a)%Q.
Proof.
  unfold Qgtb. destruct (Qcompare a b) eqn:E; try discriminate.
  intros _. apply Qgt_alt. exact E.
Qed.

Lemma Forall_update_at {A} (P : A -> Prop) (f : A -> A) (i : nat) (l : list A) :
  Forall P l ->
  (forall x, nth_error l i = Some x -> P (f x)) ->
  Forall P (update_at i f l).
Proof.
  revert i; induction l as [|y l IH]; intros i Hl Hf; [destruct i; constructor|].
  inversion Hl as [|? ? Hy Hl']; subst.
  destruct i as [|i]; simpl.
  - constructor; [apply Hf; reflexivity|exact Hl'].
  - constructor; [exact Hy|]. apply IH; [exact Hl'|]. intros x Hx. apply Hf. exact Hx.
Qed.

Lemma Forall_remove_at {A} (P : A -> Prop) (i : nat) (l : list A) :
  Forall P l -> Forall P (remove_at i l).
Proof.
  revert i; induction l as [|y l IH]; intros i Hl; [destruct i; constructor|].
  inversion Hl as [|? ? Hy Hl']; subst.
  destruct i as [|i]; simpl; [exact Hl'|].
  constructor; [exact Hy|apply IH, Hl'].
Qed.

Lemma award_inventory_positive (now : Z) (data : ItemAward) (inv : list Item) :
  (0 < award_quantity data)%Q ->
  positive_quantities inv -> positive_quantities (award_inventory now data inv).
Proof.
  intros Hq Hinv. unfold award_inventory.
  destruct (if is_stackable (award_type data) then _ else None) as [i|].
  - apply Forall_update_at; [exact Hinv|].
    intros x Hx. simpl.
    apply nth_error_In in Hx.
    pose proof (proj1 (Forall_forall _ _) Hinv x Hx) as Hpos. simpl in Hpos. lra.
  - apply Forall_app. split; [exact Hinv|].
    constructor; [exact Hq|constructor].
Qed.

Lemma consume_inventory_positive (data : ItemConsumed) (inv inv' : list Item) :
  positive_quantities inv ->
  consume_inventory data inv = Some inv' -> positive_quantities inv'.
Proof.
  intros Hinv. unfold consume_inventory.
  destruct (findIndex _ inv) as [i|]; [|discriminate].
  destruct (nth_error inv i) as [held|] eqn:Eh; [|discriminate].
  destruct (Qcompare (item_quantity held) (consumed_quantity data)) eqn:Ec;
    intro H; injection H as <-.
  - apply Forall_remove_at, Hinv.
  - exact Hinv.
  - apply Forall_update_at; [exact Hinv|].
    intros x Hx. rewrite Eh in Hx. injection Hx as <-. simpl.
    apply Qgt_alt in Ec. lra.
Qed.

(** ** What a computation leaves related *)

Section Respects.
Context {S : Type} (R : S -> S -> Prop).
Hypothesis R_refl : forall s, R s s.
Hypothesis R_trans : forall s1 s2 s3, R s1 s2 -> R s2 s3 -> R s1 s3.

Lemma respects_ret {A} (a : A) : respects R (ret a).
Proof. intro s. apply R_refl. Qed.

Lemma respects_lift {A} (o : outcome A) : respects R (lift o).
Proof. intro s. apply R_refl. Qed.

Lemma respects_assign (f : S -> S) : (forall s, R s (f s)) -> respects R (assign f).
Proof. intros H s. apply H. Qed.

Lemma respects_bind {A B} (c : M S A) (k : A -> M S B) :
  respects R c -> (forall a, respects R (k a)) -> respects R (bind c k).
Proof.
  intros Hc Hk s. unfold bind. specialize (Hc s).
  destruct (c s) as [[a|e] s']; simpl in *; [|exact Hc].
  exact (R_trans _ _ _ Hc (Hk a s')).
Qed.

End Respects.

(** Walks through a body: binds, reads, branches, and leaves the assignments
    to the caller. *)
Ltac walk Rrefl Rtrans :=
  repeat first
    [ apply (respects_ret _ Rrefl)
    | apply (respects_lift _ Rrefl)
    | apply (respects_bind _ Rtrans); [|intro]
    | match goal with
      | |- respects _ (match ?x with _ => _ end) => destruct x eqn:?
      end
    | apply respects_assign; intro ].

Lemma body_of_positive (now : Z) (c : command) (g : text) :
  respects inventory_stays_positive (body_of now c g).
Proof.
  assert (Rrefl : forall s, inventory_stays_positive s s) by (intros s H; exact H).
  assert (Rtrans : forall s1 s2 s3, inventory_stays_positive s1 s2 ->
                     inventory_stays_positive s2 s3 -> inventory_stays_positive s1 s3)
    by (intros s1 s2 s3 H1 H2 H; exact (H2 (H1 H))).
  destruct c; cbn [body_of];
    unfold on_PLAYER_HP_UPDATE, on_PLAYER_STATUS_UPDATE, on_DICE_ROLL_REQUEST,
      on_FOCUS_PANEL_UPDATE, coerce_number_field, on_AWARD_XP, on_AWARD_ITEM,
      on_CONSUME_ITEM, on_LEVEL_UP_INITIATE, skip;
    walk Rrefl Rtrans; try (intro H; exact H).
  - (* the award *)
    intro H. cbn [newInventory set_newInventory].
    apply award_inventory_positive; [|exact H].
    simpl. apply Qgtb_true. assumption.
  - (* the consumption *)
    intro H. destruct (consume_inventory _ _) as [inv'|] eqn:Ec; [|exact H].
    cbn [newInventory set_newInventory].
    exact (consume_inventory_positive _ _ _ H Ec).
Qed.

(** A block relates the snapshots as its body does on the payloads a match
    can capture. *)
Lemma effect_respects
    (R : ProcessedAiCommandsResult -> ProcessedAiCommandsResult -> Prop)
    (Rx : regex) (body : text -> Body) (t : text) (r : ProcessedAiCommandsResult) :
  (forall s, R s s) ->
  (forall g, payload_shape g -> respects R (body g)) ->
  R r (effect Rx body t r).
Proof.
  intros Rrefl Hb. unfold effect.
  destruct (regex_exec Rx t) as [m|] eqn:Em; [|apply Rrefl].
  unfold try_catch.
  specialize (Hb (m_group1 m) (proj2 (regex_exec_split _ _ _ Em)) r).
  destruct (body (m_group1 m) r) as [[[]|e] r']; exact Hb.
Qed.

Lemma run_blocks_respects
    (R : ProcessedAiCommandsResult -> ProcessedAiCommandsResult -> Prop)
    (now : Z) (cs : list command) (st : locals) :
  (forall s, R s s) ->
  (forall s1 s2 s3, R s1 s2 -> R s2 s3 -> R s1 s3) ->
  (forall c g, In c cs -> payload_shape g -> respects R (body_of now c g)) ->
  R (result st) (result (run_blocks now cs st)).
Proof.
  intros Rrefl Rtrans. revert st; induction cs as [|c cs IH]; intros st Hb.
  - apply Rrefl.
  - change (run_blocks now (c :: cs) st)
      with (run_blocks now cs (run_block (regex_of c) (body_of now c) st)).
    eapply Rtrans; [|apply IH; intros c' g Hc'; apply Hb; right; exact Hc'].
    simpl. apply effect_respects; [exact Rrefl|].
    intro g. apply Hb. left. reflexivity.
Qed.

(** X4.  A turn keeps the quantities of the inventory positive: when every
    item of the inventory in hand has a positive quantity, so has every item
    of the inventory after the turn, whatever the answer of the narrator. *)
Theorem inventory_quantities_stay_positive (now : Z) (aiText : text) (hp maxHp : Q)
    (sts : list json) (focus : option FocusTargetInfo)
    (dice : option DiceRollRequest) (inv : list Item) (xp : Q) :
  positive_quantities inv ->
  exists r,
    _updateStateAndParseCommands now aiText hp maxHp sts focus dice inv xp = Ok r /\
    positive_quantities (newInventory r).
Proof.
  intro Hinv. rewrite _updateStateAndParseCommands_run. cbv zeta.
  eexists. split; [reflexivity|].
  change (newInventory (set_cleanedText ?t ?r)) with (newInventory r).
  match goal with
  | |- context [run_blocks now processing_order ?st] =>
      apply (run_blocks_respects inventory_stays_positive now processing_order st)
  end.
  - intros s H; exact H.
  - intros s1 s2 s3 H1 H2 H; exact (H2 (H1 H)).
  - intros c g _ _. apply body_of_positive.
  - exact Hinv.
Qed.

Lemma inventory_quantities_stay_positive_witness :
  exists r,
    _updateStateAndParseCommands 1700 all_commands_turn 20 20 [] None None
      [potion 2] 0 = Ok r /\
    positive_quantities (newInventory r).
Proof.
  apply (inventory_quantities_stay_positive 1700 all_commands_turn 20 20 [] None None
           [potion 2] 0).
  constructor; [reflexivity|constructor].
Defined.

(** ** Which command writes which field *)

Lemma same_field_refl (f : field) (r : ProcessedAiCommandsResult) : same_field f r r.
Proof. destruct f; reflexivity. Qed.

Lemma same_field_trans (f : field) (r1 r2 r3 : ProcessedAiCommandsResult) :
  same_field f r1 r2 -> same_field f r2 r3 -> same_field f r1 r3.
Proof. destruct f; simpl; intros H1 H2; congruence. Qed.

Lemma body_of_same_field (now : Z) (f : field) (c : command) (g : text) :
  ~ In c (writers f) -> respects (same_field f) (body_of now c g).
Proof.
  intro Hc.
  destruct c, f; try (exfalso; apply Hc; simpl; tauto); clear Hc; cbn [body_of];
    unfold on_PLAYER_HP_UPDATE, on_PLAYER_STATUS_UPDATE, on_DICE_ROLL_REQUEST,
      on_FOCUS_PANEL_UPDATE, coerce_number_field, on_AWARD_XP, on_AWARD_ITEM,
      on_CONSUME_ITEM, on_LEVEL_UP_INITIATE, skip;
    match goal with
    | |- respects (same_field ?F) _ =>
        walk (same_field_refl F) (same_field_trans F)
    end; try reflexivity.
  all: simpl; destruct (consume_inventory _ _); reflexivity.
Qed.

Lemma command_eqb_eq (a b : command) : command_eqb a b = true <-> a = b.
Proof. destruct a, b; simpl; split; intro H; try reflexivity; discriminate. Qed.

Lemma before_app_cons (c : command) (l1 l2 : list command) :
  ~ In c l1 -> before c (l1 ++ c :: l2) = l1.
Proof.
  induction l1 as [|x l1 IH]; intro Hn; simpl.
  - rewrite (proj2 (command_eqb_eq c c) eq_refl). reflexivity.
  - destruct (command_eqb x c) eqn:E.
    + apply command_eqb_eq in E. exfalso. apply Hn. left. exact E.
    + rewrite IH; [reflexivity|]. intro H. apply Hn. right. exact H.
Qed.

Lemma command_in_dec (c : command) (l : list command) : {In c l} + {~ In c l}.
Proof. apply in_dec. decide equality. Qed.

(** The blocks, one after the other, with what is known of the blocks of the
    writers: their pattern finds nothing when their turn comes. *)
Lemma run_blocks_same_field (now : Z) (f : field) (st0 : locals)
    (done cs : list command) :
  NoDup (done ++ cs) ->
  (forall c, In c cs -> In c (writers f) ->
     regex_exec (regex_of c)
       (processedText (run_blocks now (before c (done ++ cs)) st0)) = None) ->
  same_field f (result (run_blocks now done st0))
               (result (run_blocks now (done ++ cs) st0)).
Proof.
  revert done; induction cs as [|c cs IH]; intros done Hnd Hw.
  - rewrite app_nil_r. apply same_field_refl.
  - replace (done ++ c :: cs) with ((done ++ [c]) ++ cs) in *
      by (rewrite <- app_assoc; reflexivity).
    eapply same_field_trans; [|apply IH].
    + rewrite run_blocks_app.
      change (run_blocks now [c] ?s) with (run_block (regex_of c) (body_of now c) s).
      destruct (command_in_dec c (writers f)) as [Hin|Hout].
      * rewrite run_block_no_match; [apply same_field_refl|].
        specialize (Hw c (or_introl eq_refl) Hin).
        rewrite <- app_assoc in Hw. simpl in Hw.
        rewrite before_app_cons in Hw; [exact Hw|].
        rewrite <- app_assoc in Hnd. simpl in Hnd.
        apply NoDup_remove_2 in Hnd. intro H. apply Hnd, in_or_app. left. exact H.
      * simpl. apply effect_respects; [apply same_field_refl|].
        intros g _. apply body_of_same_field. exact Hout.
    + exact Hnd.
    + intros c' Hc' Hwc'. apply Hw; [right; exact Hc'|exact Hwc'].
Qed.

(** X5.  A field of the snapshot is changed only by the blocks of its own
    commands: when none of the commands that write the field matches the
    text at the time its block runs, the field comes out of the turn as it
    went in, whatever the other commands of the answer do. *)
Theorem field_changes_only_by_its_commands (now : Z) (aiText : text) (hp maxHp : Q)
    (sts : list json) (focus : option FocusTargetInfo)
    (dice : option DiceRollRequest) (inv : list Item) (xp : Q) (f : field) :
  (forall c, In c (writers f) ->
     regex_exec (regex_of c)
       (processedText (state_before now c aiText hp maxHp sts focus inv xp)) = None) ->
  exists r,
    _updateStateAndParseCommands now aiText hp maxHp sts focus dice inv xp = Ok r /\
    same_field f
      (initial_result (cleanPotentialUndefined aiText) hp maxHp sts focus inv xp) r.
Proof.
  intro Hw. rewrite _updateStateAndParseCommands_run. cbv zeta.
  eexists. split; [reflexivity|].
  set (t0 := cleanPotentialUndefined aiText).
  set (st := {| processedText := t0;
                result := initial_result t0 hp maxHp sts focus inv xp |}).
  assert (H : same_field f (result st) (result (run_blocks now processing_order st))).
  { apply (run_blocks_same_field now f st [] processing_order).
    - simpl. repeat constructor; simpl; intuition discriminate.
    - intros c _ Hc. apply Hw. exact Hc. }
  destruct f; exact H.
Qed.

Lemma field_changes_only_by_its_commands_witness :
  exists r,
    _updateStateAndParseCommands 1700 one_ability_turn 20 20 [] None None
      [potion 1] 0 = Ok r /\
    same_field F_newInventory
      (initial_result (cleanPotentialUndefined one_ability_turn) 20 20 [] None
         [potion 1] 0) r.
Proof.
  apply (field_changes_only_by_its_commands 1700 one_ability_turn 20 20 [] None None
           [potion 1] 0 F_newInventory).
  intros c [<-|[<-|[]]]; vm_compute; reflexivity.
Defined.

(** ** Objects read by [JSON.parse] *)

Lemma obj_set_keys (k : text) (v : json) (ms : list (text * json)) :
  map fst (obj_set k v ms) = map fst ms \/
  (~ In k (map fst ms) /\ map fst (obj_set k v ms) = map fst ms ++ [k]).
Proof.
  induction ms as [|[k' v'] ms IH]; simpl.
  - right. split; [intros []|reflexivity].
  - destruct (text_eqb k' k) eqn:E; [left; reflexivity|].
    apply text_eqb_neq in E.
    destruct IH as [IH|[Hn IH]]; simpl; rewrite IH.
    + left. reflexivity.
    + right. split; [|reflexivity]. intros [H|H]; [exact (E H)|exact (Hn H)].
Qed.

Lemma obj_set_distinct (k : text) (v : json) (ms : list (text * json)) :
  distinct_keys ms -> distinct_keys (obj_set k v ms).
Proof.
  unfold distinct_keys. intro H.
  destruct (obj_set_keys k v ms) as [E|[Hn E]]; rewrite E; [exact H|].
  apply NoDup_app; [exact H|repeat constructor; intros []|].
  intros x Hx [<-|[]]. exact (Hn Hx).
Qed.

Lemma deliver_reading (v : json) (stack : list frame) (st' : expect * list frame) :
  Forall frame_ok stack -> rooted_in_object stack ->
  deliver v stack = Some st' -> reading_object st'.
Proof.
  intros Hok Hroot. unfold deliver.
  destruct stack as [|[done|done [k|]] rest]; try discriminate.
  - destruct Hroot.
  - intro H. injection H as <-. split; simpl.
    + inversion Hok; subst. constructor; [exact I|assumption].
    + destruct rest; [destruct Hroot|exact Hroot].
  - intro H. injection H as <-. inversion Hok; subst. split; simpl.
    + constructor; [apply obj_set_distinct; assumption|assumption].
    + destruct rest; [exact I|exact Hroot].
Qed.

(** Closing a container: its value goes to the container around it, or is
    the result when it was the outermost one, an object. *)
Lemma deliver_closed (v : json) (f : frame) (rest : list frame)
    (st' : expect * list frame) :
  Forall frame_ok (f :: rest) -> rooted_in_object (f :: rest) ->
  (rest = [] -> exists ms, v = JObj ms /\ distinct_keys ms) ->
  deliver v rest = Some st' -> reading_object st'.
Proof.
  intros Hok Hroot Hv. inversion Hok; subst.
  destruct rest as [|g rest'].
  - destruct (Hv eq_refl) as (ms & -> & Hms). simpl. intro H. injection H as <-.
    split; [constructor|]. simpl. split; [reflexivity|]. exists ms. split; [reflexivity|exact Hms].
  - apply deliver_reading; [assumption|].
    destruct f; exact Hroot.
Qed.

Lemma parse_step_reading (st st' : expect * list frame) (t : token) :
  reading_object st -> parse_step st t = Some st' -> reading_object st'.
Proof.
  destruct st as [x stack]. intros [Hok Hx]. simpl in Hok, Hx.
  assert (Hstart : forall st', rooted_in_object stack ->
                     start_value t stack = Some st' -> reading_object st').
  { intros s Hroot. unfold start_value.
    destruct t; try discriminate;
      try (apply deliver_reading; assumption);
      intro H; injection H as <-; (split; simpl;
        [constructor; [first [exact I | constructor]|exact Hok]
        |destruct stack; [destruct Hroot|exact Hroot]]). }
  unfold parse_step.
  destruct x; try (exact (Hstart st' Hx)).
  - (* after an opening bracket *)
    destruct stack as [|[done|done key] rest]; try (exact (Hstart st' Hx)).
    destruct t; try (exact (Hstart st' Hx)).
    apply (deliver_closed _ (FArr done) rest); try assumption.
    intros ->. destruct Hx.
  - (* after an opening brace *)
    destruct stack as [|[done|done key] rest]; try discriminate.
    destruct t; try discriminate.
    + apply (deliver_closed _ (FObj done key) rest); try assumption.
      intros _. exists []. split; [reflexivity|constructor].
    + intro H. injection H as <-. split; simpl.
      * inversion Hok; subst. constructor; assumption.
      * exact Hx.
  - (* a key *)
    destruct stack as [|[done|done key] rest]; try discriminate.
    destruct t; try discriminate.
    intro H. injection H as <-. split; simpl.
    + inversion Hok; subst. constructor; assumption.
    + exact Hx.
  - (* the colon *)
    destruct t; try discriminate. intro H. injection H as <-.
    split; assumption.
  - (* after a value *)
    destruct stack as [|[done|done key] rest]; try discriminate;
      destruct t; try discriminate.
    + apply (deliver_closed _ (FArr done) rest); try assumption.
      intros ->. destruct Hx.
    + intro H. injection H as <-. split; assumption.
    + apply (deliver_closed _ (FObj done key) rest); try assumption.
      intros _. exists done. split; [reflexivity|]. inversion Hok; assumption.
    + intro H. injection H as <-. split; assumption.
  - discriminate.
Qed.

Lemma parse_tokens_reading (ts : list token) (st : expect * list frame) (v : json) :
  reading_object st -> parse_tokens st ts = Some v ->
  exists ms, v = JObj ms /\ distinct_keys ms.
Proof.
  revert st; induction ts as [|t ts IH]; intros st Hst; simpl.
  - destruct st as [x stack]. destruct x; try discriminate.
    intro H. injection H as <-. destruct Hst as [_ (_ & Hv)]. exact Hv.
  - destruct (parse_step st t) as [st'|] eqn:E; [|discriminate].
    apply IH. exact (parse_step_reading _ _ _ Hst E).
Qed.

(** A text that starts with an opening brace parses to an object, if it
    parses, and the keys of the object are distinct. *)
Lemma JSON_parse_object (s : text) (v : json) :
  JSON_parse (lbrace :: s) = Ok v -> exists ms, v = JObj ms /\ distinct_keys ms.
Proof.
  unfold JSON_parse. simpl lex.
  destruct (lex LStart s) as [toks|]; [|discriminate].
  simpl. destruct (parse_tokens (XFirstKey, [FObj [] None]) toks) as [v'|] eqn:E;
    [|discriminate].
  intro H. injection H as <-.
  apply (parse_tokens_reading toks (XFirstKey, [FObj [] None])); [|exact E].
  split; simpl; [repeat constructor|exact I].
Qed.

(** ** The focus target *)

Lemma obj_get_set_same (k : text) (v : json) (ms : list (text * json)) :
  obj_get k (obj_set k v ms) = Some v.
Proof.
  induction ms as [|[k' v'] ms IH]; simpl.
  - rewrite text_eqb_refl. reflexivity.
  - destruct (text_eqb k' k) eqn:E; simpl; rewrite E; [reflexivity|exact IH].
Qed.

Lemma obj_get_set_other (k k' : text) (v : json) (ms : list (text * json)) :
  k <> k' -> obj_get k' (obj_set k v ms) = obj_get k' ms.
Proof.
  intro Hne. induction ms as [|[k0 v0] ms IH]; simpl.
  - replace (text_eqb k k') with false; [reflexivity|].
    symmetry. apply text_eqb_neq. exact Hne.
  - destruct (text_eqb k0 k) eqn:E; simpl.
    + apply text_eqb_eq in E. subst k0.
      replace (text_eqb k k') with false; [reflexivity|].
      symmetry. apply text_eqb_neq. exact Hne.
    + rewrite IH. reflexivity.
Qed.

Lemma obj_get_absent (k : text) (ms : list (text * json)) :
  ~ In k (map fst ms) -> obj_get k ms = None.
Proof.
  induction ms as [|[k0 v0] ms IH]; simpl; intro H; [reflexivity|].
  destruct (text_eqb k0 k) eqn:E.
  - apply text_eqb_eq in E. exfalso. apply H. left. exact E.
  - apply IH. intro Hin. apply H. right. exact Hin.
Qed.

Lemma obj_get_remove_same (k : text) (ms : list (text * json)) :
  distinct_keys ms -> obj_get k (obj_remove k ms) = None.
Proof.
  unfold distinct_keys. induction ms as [|[k0 v0] ms IH]; simpl; intro H;
    [reflexivity|].
  inversion H as [|? ? Hn Hd]; subst.
  destruct (text_eqb k0 k) eqn:E.
  - apply text_eqb_eq in E. subst k0. apply obj_get_absent. exact Hn.
  - simpl. rewrite E. apply IH. exact Hd.
Qed.

Lemma obj_get_remove_other (k k' : text) (ms : list (text * json)) :
  k <> k' -> obj_get k' (obj_remove k ms) = obj_get k' ms.
Proof.
  intro Hne. induction ms as [|[k0 v0] ms IH]; simpl; [reflexivity|].
  destruct (text_eqb k0 k) eqn:E; simpl.
  - apply text_eqb_eq in E. subst k0.
    replace (text_eqb k k') with false; [reflexivity|].
    symmetry. apply text_eqb_neq. exact Hne.
  - rewrite IH. reflexivity.
Qed.

Lemma obj_remove_keys (k : text) (ms : list (text * json)) (x : text) :
  In x (map fst (obj_remove k ms)) -> In x (map fst ms).
Proof.
  induction ms as [|[k0 v0] ms IH]; simpl; [intros []|].
  destruct (text_eqb k0 k); simpl.
  - intro H. right. exact H.
  - intros [H|H]; [left; exact H|right; exact (IH H)].
Qed.

Lemma obj_remove_distinct (k : text) (ms : list (text * json)) :
  distinct_keys ms -> distinct_keys (obj_remove k ms).
Proof.
  unfold distinct_keys. induction ms as [|[k0 v0] ms IH]; simpl; intro H;
    [constructor|].
  inversion H as [|? ? Hn Hd]; subst.
  destruct (text_eqb k0 k); [exact Hd|].
  simpl. constructor; [|exact (IH Hd)].
  intro Hin. apply Hn. exact (obj_remove_keys _ _ _ Hin).
Qed.

(** What the coercion of a field leaves: the field a number or absent, the
    other members as they were. *)
Lemma coerce_number_field_object (k : text) (ms : list (text * json))
    (r : ProcessedAiCommandsResult) :
  distinct_keys ms ->
  exists ms',
    coerce_number_field k (JObj ms) r = (Ok (JObj ms'), r) /\
    distinct_keys ms' /\ number_or_absent k ms' /\
    forall k', k <> k' -> obj_get k' ms' = obj_get k' ms.
Proof.
  intro Hd. unfold coerce_number_field, bind, lift, ret. cbn [get_prop].
  unfold number_or_absent.
  destruct (obj_get k ms) as [v|] eqn:Eg.
  2:{ exists ms. split; [reflexivity|]. split; [exact Hd|].
      split; [rewrite Eg; exact I|reflexivity]. }
  assert (Hrm : exists ms',
             (Ok (JObj (obj_remove k ms)), r) = (Ok (JObj ms'), r) /\
             distinct_keys ms' /\
             match obj_get k ms' with
             | Some v0 => exists q, v0 = JNum q
             | None => True
             end /\
             forall k', k <> k' -> obj_get k' ms' = obj_get k' ms).
  { exists (obj_remove k ms). split; [reflexivity|].
    split; [apply obj_remove_distinct, Hd|].
    split; [rewrite (obj_get_remove_same k ms Hd); exact I|].
    intros k' Hne. apply obj_get_remove_other, Hne. }
  assert (Hset : forall z, exists ms',
             (Ok (JObj (obj_set k (JNum (inject_Z z)) ms)), r) = (Ok (JObj ms'), r) /\
             distinct_keys ms' /\
             match obj_get k ms' with
             | Some v0 => exists q, v0 = JNum q
             | None => True
             end /\
             forall k', k <> k' -> obj_get k' ms' = obj_get k' ms).
  { intro z. eexists. split; [reflexivity|].
    split; [apply obj_set_distinct, Hd|].
    split; [rewrite obj_get_set_same; eexists; reflexivity|].
    intros k' Hne. apply obj_get_set_other, Hne. }
  destruct v as [|b|q|s|l|o];
    try (destruct (parseInt10 _) as [z|]; [destruct (z =? 0)%Z|];
         solve [apply Hrm | apply Hset]).
  exists ms. split; [reflexivity|]. split; [exact Hd|].
  split; [rewrite Eg; eexists; reflexivity|reflexivity].
Qed.

Lemma hp_is_not_maxHp : lit "hp" <> lit "maxHp".
Proof. discriminate. Qed.

Lemma on_FOCUS_PANEL_UPDATE_cases (g : text) (r : ProcessedAiCommandsResult) :
  payload_shape g ->
  let r' := snd (on_FOCUS_PANEL_UPDATE g r) in
  r' = r \/ r' = set_newFocusTargetInfo None r \/
  exists ms, r' = set_newFocusTargetInfo (Some (JObj ms)) r /\
             number_or_absent (lit "hp") ms /\ number_or_absent (lit "maxHp") ms.
Proof.
  intros Hs. cbv zeta. unfold on_FOCUS_PANEL_UPDATE, bind, lift, ret, assign.
  destruct Hs as [-> | [b [-> _]]].
  { right. left. reflexivity. }
  replace (text_eqb (toLowerCase (lbrace :: b ++ [rbrace])) (lit "null")) with false
    by reflexivity.
  destruct (JSON_parse (lbrace :: b ++ [rbrace])) as [v|e] eqn:Ep;
    [|left; reflexivity].
  destruct (JSON_parse_object _ _ Ep) as (ms & -> & Hd).
  cbn [truthy Object_keys_length].
  destruct (Nat.eqb (length ms) 0); [right; left; reflexivity|].
  destruct (coerce_number_field_object (lit "hp") ms r Hd)
    as (ms1 & E1 & Hd1 & Hn1 & _).
  rewrite E1.
  destruct (coerce_number_field_object (lit "maxHp") ms1 r Hd1)
    as (ms2 & E2 & _ & Hn2 & Hk).
  rewrite E2. right. right. exists ms2. split; [reflexivity|].
  split; [|exact Hn2].
  unfold number_or_absent. rewrite Hk; [exact Hn1|].
  intro H. symmetry in H. exact (hp_is_not_maxHp H).
Qed.

Lemma focus_kept_or_numbers_refl (r : ProcessedAiCommandsResult) :
  focus_kept_or_numbers r r.
Proof. left. reflexivity. Qed.

Lemma focus_kept_or_numbers_trans (r1 r2 r3 : ProcessedAiCommandsResult) :
  focus_kept_or_numbers r1 r2 -> focus_kept_or_numbers r2 r3 ->
  focus_kept_or_numbers r1 r3.
Proof.
  intros [H1|H1] [H2|H2]; try (right; exact H2).
  - left. congruence.
  - right. rewrite H2. exact H1.
Qed.

Lemma body_of_focus (now : Z) (c : command) (g : text) :
  payload_shape g -> respects focus_kept_or_numbers (body_of now c g).
Proof.
  intros Hs r.
  destruct (command_eqb c FOCUS_PANEL_UPDATE) eqn:E.
  - apply command_eqb_eq in E. subst c. cbn [body_of].
    destruct (on_FOCUS_PANEL_UPDATE_cases g r Hs) as [H|[H|(ms & H & H1 & H2)]];
      rewrite H.
    + left. reflexivity.
    + right. exact I.
    + right. exists ms. split; [reflexivity|]. split; assumption.
  - left.
    apply (body_of_same_field now F_newFocusTargetInfo c g).
    intros [<-|[]]. discriminate.
Qed.

(** X6.  After a turn the focus target is the one in hand before it, or
    none, or an object whose [hp] and [maxHp] are numbers or absent: a value
    given as a string of digits is converted, anything else that is not a
    number (and a value that converts to zero) is dropped. *)
Theorem focus_hit_points_are_numbers (now : Z) (aiText : text) (hp maxHp : Q)
    (sts : list json) (focus : option FocusTargetInfo)
    (dice : option DiceRollRequest) (inv : list Item) (xp : Q) :
  exists r,
    _updateStateAndParseCommands now aiText hp maxHp sts focus dice inv xp = Ok r /\
    (newFocusTargetInfo r = focus \/ newFocusTargetInfo r = None \/
     exists ms,
       newFocusTargetInfo r = Some (JObj ms) /\
       number_or_absent (lit "hp") ms /\ number_or_absent (lit "maxHp") ms).
Proof.
  rewrite _updateStateAndParseCommands_run. cbv zeta.
  eexists. split; [reflexivity|].
  change (newFocusTargetInfo (set_cleanedText ?t ?r)) with (newFocusTargetInfo r).
  set (st := {| processedText := cleanPotentialUndefined aiText;
                result := initial_result (cleanPotentialUndefined aiText)
                            hp maxHp sts focus inv xp |}).
  destruct (run_blocks_respects focus_kept_or_numbers now processing_order st
              focus_kept_or_numbers_refl focus_kept_or_numbers_trans
              (fun c g _ Hs => body_of_focus now c g Hs)) as [H|H].
  - left. exact H.
  - right. unfold focus_with_numbers in H.
    destruct (newFocusTargetInfo _) as [v|]; [|left; reflexivity].
    right. destruct H as (ms & -> & H1 & H2). exists ms.
    split; [reflexivity|]. split; assumption.
Qed.

(** ** What the result reports of a turn *)

Section Steps.
Context {S : Type} (R : S -> S -> Prop).
Hypothesis R_refl : forall s, R s s.

(** A read does not change the state: what follows it decides. *)
Lemma respects_after_lift {A B} (o : outcome A) (k : A -> M S B) :
  (forall a, respects R (k a)) -> respects R (bind (lift o) k).
Proof.
  intros Hk s. unfold bind, lift. destruct o as [a|e]; [apply Hk|apply R_refl].
Qed.

Lemma respects_two_assignments (f g : S -> S) :
  (forall s, R s (g (f s))) -> respects R (bind (assign f) (fun _ => assign g)).
Proof. intros H s. apply H. Qed.

End Steps.

(** Walks through a body whose assignments come last, in one go. *)
Ltac walk_reads Rrefl :=
  repeat first
    [ apply (respects_ret _ Rrefl)
    | apply (respects_after_lift _ Rrefl); intro
    | apply respects_two_assignments; intro
    | match goal with
      | |- respects _ (match ?x with _ => _ end) => destruct x eqn:?
      end ].

Lemma on_AWARD_XP_as_reported (g : text) : respects xp_as_reported (on_AWARD_XP g).
Proof.
  assert (Rrefl : forall s, xp_as_reported s s)
    by (intros s H; rewrite H; reflexivity).
  unfold on_AWARD_XP, skip. walk_reads Rrefl.
  intros _. reflexivity.
Qed.

Lemma on_AWARD_ITEM_as_reported (now : Z) (g : text) :
  respects (award_as_reported now) (on_AWARD_ITEM now g).
Proof.
  assert (Rrefl : forall s, award_as_reported now s s)
    by (intros s H; rewrite H; reflexivity).
  unfold on_AWARD_ITEM, skip. walk_reads Rrefl.
  intros _. reflexivity.
Qed.

Lemma on_CONSUME_ITEM_as_reported (g : text) :
  respects consumption_as_reported (on_CONSUME_ITEM g).
Proof.
  assert (Rrefl : forall s, consumption_as_reported s s)
    by (intros s H; rewrite H; reflexivity).
  unfold on_CONSUME_ITEM, skip. walk_reads Rrefl.
  intros _. unfold after_consumption.
  change (newInventory (set_itemConsumed ?a ?b)) with (newInventory b).
  destruct (consume_inventory _ (newInventory _)) as [inv'|] eqn:E; cbn;
    rewrite E; reflexivity.
Qed.

(** The blocks of commands that do not write a field keep it. *)
Lemma run_blocks_keep (now : Z) (f : field) (cs : list command) (st : locals) :
  (forall c, In c cs -> ~ In c (writers f)) ->
  same_field f (result st) (result (run_blocks now cs st)).
Proof.
  intro H.
  apply (run_blocks_respects (same_field f) now cs st
           (same_field_refl f) (same_field_trans f)).
  intros c g Hc _. apply body_of_same_field, H, Hc.
Qed.

Lemma run_block_result (now : Z) (c : command) (st : locals) :
  result (run_blocks now [c] st) =
  effect (regex_of c) (body_of now c) (processedText st) (result st).
Proof. reflexivity. Qed.

(** X7.  What a turn reports is what it did.  The experience after the turn
    is the experience before it plus the amount of the award the result
    reports, and unchanged when it reports none; the inventory after the turn
    is the inventory before it with the reported item award applied and then
    the reported consumption, and unchanged when it reports neither. *)
Theorem reported_changes_account_for_the_result (now : Z) (aiText : text)
    (hp maxHp : Q) (sts : list json) (focus : option FocusTargetInfo)
    (dice : option DiceRollRequest) (inv : list Item) (xp : Q) :
  exists r,
    _updateStateAndParseCommands now aiText hp maxHp sts focus dice inv xp = Ok r /\
    newCurrentXP r = after_xp_award (xpAward r) xp /\
    newInventory r = after_consumption (itemConsumed r)
                       (after_award now (itemAward r) inv).
Proof.
  rewrite _updateStateAndParseCommands_run. cbv zeta.
  eexists. split; [reflexivity|].
  change (newCurrentXP (set_cleanedText ?t ?r)) with (newCurrentXP r).
  change (newInventory (set_cleanedText ?t ?r)) with (newInventory r).
  change (xpAward (set_cleanedText ?t ?r)) with (xpAward r).
  change (itemAward (set_cleanedText ?t ?r)) with (itemAward r).
  change (itemConsumed (set_cleanedText ?t ?r)) with (itemConsumed r).
  set (st0 := {| processedText := cleanPotentialUndefined aiText;
                 result := initial_result (cleanPotentialUndefined aiText)
                             hp maxHp sts focus inv xp |}).
  split.
  - (* the experience: four blocks, the award, three blocks *)
    change processing_order
      with ([PLAYER_HP_UPDATE; PLAYER_STATUS_UPDATE; DICE_ROLL_REQUEST;
             FOCUS_PANEL_UPDATE] ++ [AWARD_XP]
            ++ [AWARD_ITEM; CONSUME_ITEM; LEVEL_UP_INITIATE]).
    rewrite !run_blocks_app.
    set (st1 := run_blocks now _ st0).
    set (st2 := run_blocks now [AWARD_XP] st1).
    assert (A1 : xpAward (result st1) = None).
    { apply (run_blocks_keep now F_xpAward _ st0).
      intros c Hin [<-|[]]. simpl in Hin. intuition discriminate. }
    assert (X1 : newCurrentXP (result st1) = xp).
    { apply (run_blocks_keep now F_newCurrentXP _ st0).
      intros c Hin [<-|[]]. simpl in Hin. intuition discriminate. }
    assert (A3 : xpAward (result (run_blocks now
                   [AWARD_ITEM; CONSUME_ITEM; LEVEL_UP_INITIATE] st2))
                 = xpAward (result st2)).
    { apply (run_blocks_keep now F_xpAward _ st2).
      intros c Hin [<-|[]]. simpl in Hin. intuition discriminate. }
    assert (X3 : newCurrentXP (result (run_blocks now
                   [AWARD_ITEM; CONSUME_ITEM; LEVEL_UP_INITIATE] st2))
                 = newCurrentXP (result st2)).
    { apply (run_blocks_keep now F_newCurrentXP _ st2).
      intros c Hin [<-|[]]. simpl in Hin. intuition discriminate. }
    rewrite A3, X3.
    unfold st2. rewrite run_block_result.
    rewrite <- X1.
    apply (effect_respects xp_as_reported (regex_of AWARD_XP)
             (body_of now AWARD_XP) (processedText st1) (result st1)).
    + intros s H. rewrite H. reflexivity.
    + intros g _. apply on_AWARD_XP_as_reported.
    + exact A1.
  - (* the inventory: five blocks, the award, the consumption, one block *)
    change processing_order
      with ([PLAYER_HP_UPDATE; PLAYER_STATUS_UPDATE; DICE_ROLL_REQUEST;
             FOCUS_PANEL_UPDATE; AWARD_XP] ++ [AWARD_ITEM] ++ [CONSUME_ITEM]
            ++ [LEVEL_UP_INITIATE]).
    rewrite !run_blocks_app.
    set (st1 := run_blocks now _ st0).
    set (st2 := run_blocks now [AWARD_ITEM] st1).
    set (st3 := run_blocks now [CONSUME_ITEM] st2).
    assert (A1' : itemAward (result st1) = None).
    { apply (run_blocks_keep now F_itemAward _ st0).
      intros c Hin [<-|[]]. simpl in Hin. intuition discriminate. }
    assert (C1 : itemConsumed (result st1) = None).
    { apply (run_blocks_keep now F_itemConsumed _ st0).
      intros c Hin [<-|[]]. simpl in Hin. intuition discriminate. }
    assert (I1 : newInventory (result st1) = inv).
    { apply (run_blocks_keep now F_newInventory _ st0).
      intros c Hin [<-|[<-|[]]]; simpl in Hin; intuition discriminate. }
    assert (C2 : itemConsumed (result st2) = itemConsumed (result st1)).
    { apply (run_blocks_keep now F_itemConsumed [AWARD_ITEM] st1).
      intros c [<-|[]] [H|[]]. discriminate. }
    assert (A3 : itemAward (result st3) = itemAward (result st2)).
    { apply (run_blocks_keep now F_itemAward [CONSUME_ITEM] st2).
      intros c [<-|[]] [H|[]]. discriminate. }
    assert (A4 : itemAward (result (run_blocks now [LEVEL_UP_INITIATE] st3))
                 = itemAward (result st3)).
    { apply (run_blocks_keep now F_itemAward [LEVEL_UP_INITIATE] st3).
      intros c [<-|[]] [H|[]]. discriminate. }
    assert (C4 : itemConsumed (result (run_blocks now [LEVEL_UP_INITIATE] st3))
                 = itemConsumed (result st3)).
    { apply (run_blocks_keep now F_itemConsumed [LEVEL_UP_INITIATE] st3).
      intros c [<-|[]] [H|[]]. discriminate. }
    assert (I4 : newInventory (result (run_blocks now [LEVEL_UP_INITIATE] st3))
                 = newInventory (result st3)).
    { apply (run_blocks_keep now F_newInventory [LEVEL_UP_INITIATE] st3).
      intros c [<-|[]] [H|[H|[]]]; discriminate. }
    rewrite A4, C4, I4, A3.
    assert (H2 : newInventory (result st2)
                 = after_award now (itemAward (result st2)) (newInventory (result st1))).
    { unfold st2. rewrite run_block_result.
      apply (effect_respects (award_as_reported now) (regex_of AWARD_ITEM)
               (body_of now AWARD_ITEM) (processedText st1) (result st1)).
      - intros s H. rewrite H. reflexivity.
      - intros g _. apply on_AWARD_ITEM_as_reported.
      - exact A1'. }
    assert (H3 : newInventory (result st3)
                 = after_consumption (itemConsumed (result st3))
                     (newInventory (result st2))).
    { unfold st3. rewrite run_block_result.
      apply (effect_respects consumption_as_reported (regex_of CONSUME_ITEM)
               (body_of now CONSUME_ITEM) (processedText st2) (result st2)).
      - intros s H. rewrite H. reflexivity.
      - intros g _. apply on_CONSUME_ITEM_as_reported.
      - rewrite C2. exact C1. }
    rewrite H3, H2, I1. reflexivity.
Qed.

(** ** Invariants of the controller *)

Lemma reconcile_returns (p : Props) (cl : ChatState) (t : text) :
  exists r, reconcile p cl t = Ok r.
Proof.
  unfold reconcile. rewrite _updateStateAndParseCommands_run. eexists. reflexivity.
Qed.




(** ** The input after a turn *)

Ltac settle_notes :=
  repeat match goal with
         | |- Forall _ (_ ++ _) => apply Forall_app; split
         | |- Forall _ (match ?x with _ => _ end) => destruct x
         | |- Forall _ (_ :: _) => constructor; [reflexivity|]
         | |- Forall _ [] => constructor
         end.

Lemma Forall_settled (id : text) (f : ChatMessage -> ChatMessage)
    (h : list ChatMessage) :
  (forall m, isRegenerating (f m) = false) ->
  Forall (fun m => isRegenerating m = false \/ id_is id m = true) h ->
  Forall (fun m => isRegenerating m = false)
    (map (fun msg => if id_is id msg then f msg else msg) h).
Proof.
  intros Hf Hh. induction Hh as [|m h Hm _ IH]; simpl; constructor; [|exact IH].
  destruct (id_is id m) eqn:E; [apply Hf|].
  destruct Hm as [Hm|Hm]; [exact Hm|discriminate].
Qed.

Lemma stream_quiet (p : Props) (cl cur : ChatState) (stream : stream_result)
    (id : text) (auto : bool) (retry : nat) (post : bool) :
  Forall (fun m => isRegenerating m = false \/ id_is id m = true) (chatHistory cur) ->
  quiet (fst (handleStreamAndProcessInternal p cl cur stream id auto retry post)).
Proof.
  intro Hcur. unfold handleStreamAndProcessInternal.
  assert (Hfail : quiet (stream_failed cur id)).
  { split; [reflexivity|]. simpl.
    apply (Forall_settled id
             (fun msg => {| msg_id := msg_id msg; sender := system;
                            msg_text := NarratorStalled;
                            finishReason := finishReason msg;
                            isRegenerating := false |}));
      [reflexivity|exact Hcur]. }
  destruct stream as [t fin|]; [|exact Hfail].
  destruct (reconcile p cl t) as [r|e]; [|exact Hfail].
  split; [reflexivity|].
  cbn [fst chatHistory].
  pose proof (Forall_settled id
                (fun msg => {| msg_id := msg_id msg; sender := sender msg;
                               msg_text := Plain (cleanedText r);
                               finishReason := fin;
                               isRegenerating := false |})
                (chatHistory cur) (fun _ => eq_refl) Hcur) as Hmap.
  settle_notes; try exact Hmap.
Qed.

Lemma Forall_or_left {A} (P Q : A -> Prop) (l : list A) :
  Forall P l -> Forall (fun x => P x \/ Q x) l.
Proof. intro H. eapply Forall_impl; [|exact H]. intros a Ha. left. exact Ha. Qed.

Lemma handle_quiet (p : Props) (s : ChatState) (e : event) :
  quiet s -> quiet (fst (handle p s e)).
Proof.
  intros [Ht Hh]. destruct e as [input stream|report stream|payload| | |];
    cbn [handle fst].
  - unfold handleSendMessage.
    destruct (_ || _ || _ || _); [split; assumption|].
    apply stream_quiet. cbn.
    repeat (apply Forall_app; split); [apply Forall_or_left, Hh| |].
    + constructor; [left; reflexivity|constructor].
    + constructor; [|constructor]. right. unfold id_is, placeholder. simpl.
      apply text_eqb_refl.
  - unfold handleDiceRollComplete.
    destruct (negb (chatSession s)).
    + split; [exact Ht|]. cbn. apply Forall_app. split; [exact Hh|].
      constructor; [reflexivity|constructor].
    + apply stream_quiet. cbn.
      repeat (apply Forall_app; split); [apply Forall_or_left, Hh| |].
      * constructor; [left; reflexivity|constructor].
      * constructor; [|constructor]. right. unfold id_is, placeholder. simpl.
        apply text_eqb_refl.
  - unfold handleLevelUpComplete.
    destruct (negb (Nat.ltb (currentLevel s) MAX_LEVEL)); cbn [fst].
    + split; [exact Ht|]. cbn. apply Forall_app. split; [exact Hh|].
      constructor; [reflexivity|constructor].
    + split; [exact Ht|]. cbn [chatHistory].
      destruct (_ && _); settle_notes; exact Hh.
  - split; assumption.
  - unfold forceLevelUp. destruct (Nat.ltb (currentLevel s) MAX_LEVEL);
      (split; [exact Ht|]); cbn; (apply Forall_app; split; [exact Hh|]);
      (constructor; [reflexivity|constructor]).
  - split; assumption.
Qed.

Lemma quiet_input (p : Props) (s : ChatState) :
  quiet s ->
  input_disabled p s =
  negb (apiKeyAvailable p) || isDiceInterfaceActive s || isLevelUpModalOpen s.
Proof.
  intros [Ht Hh]. unfold input_disabled. rewrite Ht.
  replace (existsb isRegenerating (chatHistory s)) with false.
  - simpl. rewrite orb_false_r. reflexivity.
  - symmetry. induction Hh as [|m h Hm _ IH]; simpl; [reflexivity|].
    rewrite Hm. exact IH.
Qed.

(** X9.  Between the events of the controller no answer is left being
    written: when the state is quiet before a sequence of events
    (regeneration apart), it is quiet after it, whether the streams
    completed or failed, and the input is then disabled only for want of a
    key, by an open dice roller or by an open level-up choice. *)
Theorem input_unlocked_between_turns (p : Props) (s : ChatState)
    (es : list (Props * event)) :
  quiet s ->
  quiet (run s es) /\
  input_disabled p (run s es) =
  negb (apiKeyAvailable p) || isDiceInterfaceActive (run s es)
  || isLevelUpModalOpen (run s es).
Proof.
  intro H.
  assert (Hq : quiet (run s es)).
  { revert s H; induction es as [|[p' e] es IH]; intros s H; [exact H|].
    apply IH. apply handle_quiet. exact H. }
  split; [exact Hq|apply quiet_input, Hq].
Qed.


Lemma input_unlocked_between_turns_witness :
  let s' := run level_two_state
              [(playing, SendMessage (lit "I look around")
                           (Completed (lit "Nothing stirs.") None));
               (playing, SendMessage (lit "I wait") Failed)] in
  quiet s' /\
  input_disabled playing s' =
  negb (apiKeyAvailable playing) || isDiceInterfaceActive s' || isLevelUpModalOpen s'.
Proof.
  apply (input_unlocked_between_turns playing level_two_state).
  split; [reflexivity|constructor].
Defined.

(** ** Automatic regeneration *)

Lemma interrupted_reasons (fin : option text) :
  interrupted fin = true <->
  exists reason, fin = Some reason /\
                 In reason [lit "MAX_TOKENS"; lit "SAFETY"; lit "RECITATION"].
Proof.
  unfold interrupted. destruct fin as [reason|].
  - rewrite existsb_exists. split.
    + intros (x & Hx & E). apply text_eqb_eq in E. subst x.
      exists reason. split; [reflexivity|exact Hx].
    + intros (x & E & Hx). injection E as <-. exists reason.
      split; [exact Hx|apply text_eqb_refl].
  - split; [discriminate|]. intros (x & E & _). discriminate.
Qed.

(** X10.  Automatic regeneration is bounded.  Processing a stream schedules
    at most one regeneration, of the message it wrote, with the attempt
    count one higher; it does so exactly when the call allows automatic
    regeneration, fewer than [MAX_AUTO_REGEN_RETRIES] attempts were made, and
    the stream completed with the finish reason MAX_TOKENS, SAFETY or
    RECITATION.  The scheduled attempt count never exceeds the maximum. *)
Theorem regeneration_is_bounded (p : Props) (cl cur : ChatState)
    (stream : stream_result) (id : text) (auto : bool) (retry : nat) (post : bool) :
  let e := snd (handleStreamAndProcessInternal p cl cur stream id auto retry post) in
  (regenerate e = None \/ regenerate e = Some (id, retry + 1)) /\
  (regenerate e = Some (id, retry + 1) <->
   auto = true /\ retry < MAX_AUTO_REGEN_RETRIES /\
   exists t reason,
     stream = Completed t (Some reason) /\
     In reason [lit "MAX_TOKENS"; lit "SAFETY"; lit "RECITATION"]) /\
  (forall id' n, regenerate e = Some (id', n) -> n <= MAX_AUTO_REGEN_RETRIES).
Proof.
  unfold handleStreamAndProcessInternal.
  destruct stream as [t fin|].
  - destruct (reconcile_returns p cl t) as [r Hr]. rewrite Hr.
    cbn [snd regenerate].
    destruct (interrupted fin) eqn:Ei; cbn [andb].
    + apply interrupted_reasons in Ei as (reason & -> & Hin).
      destruct auto; cbn [andb].
      * destruct (Nat.ltb retry MAX_AUTO_REGEN_RETRIES) eqn:El.
        -- apply Nat.ltb_lt in El.
           split; [right; reflexivity|]. split.
           ++ split; [intros _|reflexivity].
              split; [reflexivity|]. split; [exact El|].
              exists t, reason. split; [reflexivity|exact Hin].
           ++ intros id' n H. injection H as _ <-. lia.
        -- apply Nat.ltb_ge in El.
           split; [left; reflexivity|]. split.
           ++ split; [discriminate|]. intros (_ & H & _). lia.
           ++ discriminate.
      * split; [left; reflexivity|]. split.
        -- split; [discriminate|]. intros (H & _). discriminate.
        -- discriminate.
    + split; [left; reflexivity|]. split.
      * split; [discriminate|].
        intros (_ & _ & t' & reason & E & Hin). injection E as _ ->.
        assert (interrupted (Some reason) = true)
          by (apply interrupted_reasons; exists reason; split; [reflexivity|exact Hin]).
        congruence.
      * discriminate.
  - cbn. split; [left; reflexivity|]. split.
    + split; [discriminate|]. intros (_ & _ & t & reason & E & _). discriminate.
    + discriminate.
Qed.

(** ** A stream that fails *)

(** X11.  A message whose stream fails changes nothing of the game: the
    character, the focus target, the inventory and the two workflows are as
    before and nothing is saved or scheduled.  Either the message was not
    accepted and the state is untouched, or the log has gained the message
    of the player and, in place of the answer, the note that the narrator
    stalled, and the narrator is no longer typing. *)
Theorem failed_stream_leaves_the_game (p : Props) (s : ChatState) (userInput : text) :
  let out := handleSendMessage p s userInput Failed in
  same_game s (fst out) /\ snd out = no_effects /\
  (fst out = s \/
   isAiTyping (fst out) = false /\
   exists id,
     chatHistory (fst out) =
     map (fun msg => if id_is id msg
                     then {| msg_id := msg_id msg; sender := system;
                             msg_text := NarratorStalled;
                             finishReason := finishReason msg;
                             isRegenerating := false |}
                     else msg) (chatHistory s)
     ++ [ {| msg_id := None; sender := user; msg_text := Plain userInput;
             finishReason := None; isRegenerating := false |};
          {| msg_id := Some id; sender := system; msg_text := NarratorStalled;
             finishReason := None; isRegenerating := false |} ]).
Proof.
  unfold handleSendMessage.
  destruct (_ || _ || _ || _).
  - split; [repeat split|]. split; [reflexivity|left; reflexivity].
  - cbn [handleStreamAndProcessInternal fst snd].
    split; [repeat split|]. split; [reflexivity|]. right.
    split; [reflexivity|].
    exists (Z_toString (Date_now p) ++ lit "-ai-stream").
    cbn [stream_failed set_isAiTyping set_chatHistory chatHistory addMessageToHistory
         set_lastResolvedRollIdRef set_dice].
    rewrite <- app_assoc. rewrite map_app. simpl map.
    unfold id_is at 2 3. cbn [msg_id placeholder].
    rewrite text_eqb_refl. reflexivity.
Qed.

(** ** The level-up choice after a turn *)

(** X12.  After the answer of a turn has been processed, the experience of
    the state is the one of the result, and the level-up choice is open
    exactly when it was open already, or the character is below the maximum
    level and either the answer gave a non-empty reason for a level-up or
    the experience has reached the threshold.  At the maximum level a turn
    never opens it.  While it is open the input is disabled. *)
Theorem level_up_choice_opens_when_due (p : Props) (cl cur : ChatState)
    (t : text) (fin : option text) (id : text) (auto : bool) (retry : nat)
    (post : bool) :
  exists r,
    reconcile p cl t = Ok r /\
    let s' := fst (handleStreamAndProcessInternal p cl cur (Completed t fin)
                     id auto retry post) in
    currentXP s' = newCurrentXP r /\
    (isLevelUpModalOpen s' = true <->
     isLevelUpModalOpen cur = true \/
     currentLevel cl < MAX_LEVEL /\
     ((exists why, levelUpInitiateReason r = Some why /\ why <> []) \/
      exists q, currentXpToNextLevel cl = Finite q /\ (q <= newCurrentXP r)%Q)) /\
    (isLevelUpModalOpen s' = true -> input_disabled p s' = true).
Proof.
  destruct (reconcile_returns p cl t) as [r Hr]. exists r. split; [exact Hr|].
  cbv zeta. unfold handleStreamAndProcessInternal. rewrite Hr.
  cbn [fst currentXP isLevelUpModalOpen].
  split; [reflexivity|]. split.
  - set (asked := match levelUpInitiateReason r with
                  | Some why => if Nat.eqb (length why) 0 then None else Some why
                  | None => None
                  end).
    assert (Hasked : (exists why, asked = Some why) <->
                     exists why, levelUpInitiateReason r = Some why /\ why <> []).
    { unfold asked. destruct (levelUpInitiateReason r) as [why|].
      - destruct why as [|x why]; simpl.
        + split; [intros (w & E); discriminate|].
          intros (w & E & Hw). injection E as <-. contradiction.
        + split; intros _; eexists; [split; [reflexivity|discriminate]|reflexivity].
      - split; [intros (w & E); discriminate|intros (w & E & _); discriminate]. }
    destruct (Nat.ltb (currentLevel cl) MAX_LEVEL) eqn:El.
    + apply Nat.ltb_lt in El. rewrite !andb_true_r.
      destruct asked as [why|] eqn:Ea; cbn [orb].
      * split; [intros _|reflexivity]. right. split; [exact El|].
        left. apply Hasked. exists why. reflexivity.
      * destruct (xp_reaches (newCurrentXP r) (currentXpToNextLevel cl)) eqn:Ex.
        -- split; [intros _|reflexivity]. right. split; [exact El|].
           right. apply xp_reaches_iff. exact Ex.
        -- split; [intro H; left; exact H|].
           intros [H|(_ & [H|H])]; [exact H| |].
           ++ apply Hasked in H as (w & E). discriminate.
           ++ apply xp_reaches_iff in H. congruence.
    + rewrite !andb_false_r. apply Nat.ltb_ge in El.
      split; [intro H; left; exact H|].
      intros [H|(H & _)]; [exact H|lia].
  - intro H. unfold input_disabled. cbn [isLevelUpModalOpen].
    rewrite H. apply orb_true_r.
Qed.

(** ** The note of a consumed item *)

(** X13.  The note that an item was used is decided on the quantity the
    consumption has left in the item of the inventory in hand, not on the
    quantity held before it.  For a turn that reports a consumption and
    nothing else, of an item the inventory holds: when less is held than
    asked nothing is consumed and no note is added; when exactly the quantity
    asked is held the note is added; when more is held the quantity is
    taken, and the note is added only if what is left is at least the
    quantity taken. *)
Theorem item_used_note_counts_what_is_left (p : Props) (cl cur : ChatState)
    (t : text) (fin : option text) (id : text) (auto : bool) (retry : nat)
    (post : bool) (r : ProcessedAiCommandsResult) (c : ItemConsumed)
    (l1 l2 : list Item) (held : Item) :
  reconcile p cl t = Ok r ->
  interrupted fin = false ->
  xpAward r = None -> itemAward r = None -> levelUpInitiateReason r = None ->
  itemConsumed r = Some c ->
  currentInventory cl = l1 ++ held :: l2 ->
  item_name held = consumed_name c ->
  (forall it, In it l1 -> item_name it <> consumed_name c) ->
  let s' := fst (handleStreamAndProcessInternal p cl cur (Completed t fin)
                   id auto retry post) in
  let note := system_note (ItemUsed (consumed_name c) (consumed_quantity c)) in
  chatHistory s' =
  map (fun msg =>
         if id_is id msg
         then {| msg_id := msg_id msg; sender := sender msg;
                 msg_text := Plain (cleanedText r); finishReason := fin;
                 isRegenerating := false |}
         else msg) (chatHistory cur)
  ++ match Qcompare (item_quantity held) (consumed_quantity c) with
     | Lt => []
     | Eq => [note]
     | Gt => if Qgtb (consumed_quantity c)
                  (Qminus (item_quantity held) (consumed_quantity c))
             then [] else [note]
     end.
Proof.
  intros Hr Hfin Hxp Haward Hwhy Hc Hinv Hname Hfirst.
  cbv zeta. unfold handleStreamAndProcessInternal. rewrite Hr.
  cbn [fst chatHistory]. rewrite Hfin, Hxp, Haward, Hwhy, Hc. cbn [andb app].
  f_equal. unfold originalItem_quantity. rewrite Haward, Hc, Hinv.
  rewrite findIndex_first.
  - rewrite nth_error_middle, text_eqb_refl. cbn [andb negb].
    unfold Qgtb at 1.
    destruct (Qcompare (item_quantity held) (consumed_quantity c)) eqn:E.
    + (* as much held as asked *)
      replace (Qgtb (consumed_quantity c) (item_quantity held)) with false;
        [reflexivity|].
      symmetry. unfold Qgtb.
      destruct (Qcompare (consumed_quantity c) (item_quantity held)) eqn:E';
        try reflexivity.
      apply Qeq_alt in E. apply Qgt_alt in E'. rewrite E in E'.
      exfalso. exact (Qlt_irrefl _ E').
    + (* less held than asked *)
      replace (Qgtb (consumed_quantity c) (item_quantity held)) with true;
        [reflexivity|].
      symmetry. unfold Qgtb. apply Qlt_alt in E. apply Qgt_alt in E.
      rewrite E. reflexivity.
    + destruct (Qgtb _ _); reflexivity.
  - intros y Hy. apply text_eqb_neq. apply Hfirst. exact Hy.
  - apply text_eqb_eq. exact Hname.
Qed.

Lemma item_used_note_counts_what_is_left_witness :
  exists r,
    reconcile playing three_potions_state consume_two_turn = Ok r /\
    newInventory r = [potion 1] /\
    chatHistory
      (fst (handleStreamAndProcessInternal playing three_potions_state
              three_potions_state (Completed consume_two_turn None)
              (lit "a1") true 0 false))
    = [].
Proof.
  eexists. split; [reflexivity|]. split; [reflexivity|].
  exact (item_used_note_counts_what_is_left playing three_potions_state
           three_potions_state consume_two_turn None (lit "a1") true 0 false
           _ {| consumed_name := lit "Potion"; consumed_quantity := 2 |}
           [] [] (potion 3)
           eq_refl eq_refl eq_refl eq_refl eq_refl eq_refl eq_refl eq_refl
           (fun it H => match H with end)).
Defined.

(** Two of three potions are drunk: the inventory holds one, and the log
    shows the message of the player and the answer, without a note. *)
Example two_of_three_potions_used_without_note :
  let s' := fst (handleSendMessage playing three_potions_state (lit "I drink")
                   (Completed consume_two_turn None)) in
  currentInventory s' = [potion 1] /\
  map sender (chatHistory s') = [user; ai].
Proof. vm_compute. split; reflexivity. Qed.

(** All three are drunk: the note is there. *)
Example three_of_three_potions_used_with_note :
  let s' := fst (handleSendMessage playing three_potions_state (lit "I drink")
                   (Completed consume_three_turn None)) in
  currentInventory s' = [] /\
  map sender (chatHistory s') = [user; ai; system].
Proof. vm_compute. split; reflexivity. Qed.

(** Hit points given as strings: digits are converted, the rest dropped. *)
Example goblin_hit_points :
  exists r,
    _updateStateAndParseCommands 1700 goblin_turn 20 20 [] None None [] 0 = Ok r /\
    newFocusTargetInfo r =
    Some (JObj [(lit "name", JStr (lit "Goblin")); (lit "hp", JNum 12)]).
Proof. eexists. split; reflexivity. Qed.

(** ** The experience bar *)

Lemma Qltb_false (a b : Q) : Qltb a b = false <-> (b <= a)%Q.
Proof.
  split; intro H.
  - apply Qnot_lt_le. intro Hlt. apply Qltb_lt in Hlt. congruence.
  - destruct (Qltb a b) eqn:E; [|reflexivity].
    apply Qltb_lt in E. exfalso. apply (Qlt_not_le _ _ E). exact H.
Qed.



(** ** Character creation *)

Lemma Qgtb_intro (a b : Q) : (b < a)%Q -> Qgtb a b = true.
Proof. intro H. unfold Qgtb. apply Qgt_alt in H. rewrite H. reflexivity. Qed.

Lemma Math_max_lower (a b : Q) : (a <= Math_max a b)%Q.
Proof.
  unfold Math_max. destruct (Qltb a b) eqn:E.
  - apply Qltb_lt in E. apply Qlt_le_weak, E.
  - apply Qle_refl.
Qed.

Lemma or_base_nonzero (v : Q) : ~ (v == 0)%Q -> or_base (Some v) = v.
Proof.
  intro H. unfold or_base. destruct (Qeq_bool v 0) eqn:E; [|reflexivity].
  apply Qeq_bool_iff in E. contradiction.
Qed.

(** A manual change is applied as a whole or rejected as a whole. *)
Lemma handleManualStatChange_cases (st : CreatorState) (n : StatName)
    (op : operation) (afterAi : Stats) :
  cc_statsAfterAi st = Some afterAi ->
  let st' := handleManualStatChange st n op in
  let newValue :=
    match op with
    | increment => (or_base (cc_currentStats st n) + 1)%Q
    | decrement => (or_base (cc_currentStats st n) - 1)%Q
    end in
  (cc_error st' = None /\
   cc_currentStats st' = set_stat (cc_currentStats st) n newValue /\
   (MIN_STAT_VALUE <= newValue)%Q /\
   cc_totalPointsDelta st' = prospective_delta (cc_currentStats st') afterAi /\
   (cc_isGodModeEnabled st = false ->
    (- MANUAL_POINTS_POOL <= cc_totalPointsDelta st' <= MANUAL_POINTS_POOL)%Q))
  \/
  (cc_error st' <> None /\
   cc_currentStats st' = cc_currentStats st /\
   cc_totalPointsDelta st' = cc_totalPointsDelta st).
Proof.
  intros Hai st' newValue. unfold st', handleManualStatChange. rewrite Hai.
  fold newValue.
  destruct (Qltb newValue MIN_STAT_VALUE) eqn:Efloor.
  { right. split; [discriminate|split; reflexivity]. }
  apply Qltb_false in Efloor.
  set (delta := fold_left _ StatName_values 0%Q).
  destruct (negb (cc_isGodModeEnabled st) && Qgtb delta MANUAL_POINTS_POOL) eqn:Eup.
  { right. split; [discriminate|split; reflexivity]. }
  destruct (negb (cc_isGodModeEnabled st) && Qltb delta (- MANUAL_POINTS_POOL)) eqn:Edown.
  { right. split; [discriminate|split; reflexivity]. }
  left. cbn [cc_error cc_currentStats cc_totalPointsDelta set_creator_stats].
  split; [reflexivity|]. split; [reflexivity|]. split; [exact Efloor|].
  assert (Hnz : or_base (Some newValue) = newValue).
  { apply or_base_nonzero. unfold MIN_STAT_VALUE in Efloor. intro H. lra. }
  split.
  - unfold delta, prospective_delta, set_stat, StatName_values.
    destruct n; cbn [fold_left StatName_eqb]; rewrite Hnz; reflexivity.
  - intro Hgod. rewrite Hgod in Eup, Edown. cbn [negb andb] in Eup, Edown.
    split.
    + apply Qltb_false. exact Edown.
    + apply Qnot_lt_le. intro H. apply Qgtb_intro in H. congruence.
Qed.

Lemma handleManualStatChange_keeps (st : CreatorState) (n : StatName) (op : operation) :
  cc_statsAfterAi (handleManualStatChange st n op) = cc_statsAfterAi st /\
  cc_isGodModeEnabled (handleManualStatChange st n op) = cc_isGodModeEnabled st.
Proof.
  unfold handleManualStatChange.
  destruct (cc_statsAfterAi st) as [afterAi|] eqn:E; [|split; [exact E|reflexivity]].
  repeat match goal with
         | |- context [if ?b then _ else _] => destruct b
         end; split; cbn; auto.
Qed.

(** X15.  The manual step respects the point pool.  Without god mode, when
    the points moved so far are within the pool of [MANUAL_POINTS_POOL] in
    either direction and no ability is below the minimum, then after any
    sequence of increments and decrements the same holds: a change that
    would leave the pool or go below the minimum is refused as a whole, and
    the recorded total is the sum of the differences to the abilities the
    suggestions gave. *)
Theorem point_pool_is_respected (st : CreatorState) (afterAi : Stats)
    (changes : list (StatName * operation)) :
  cc_statsAfterAi st = Some afterAi ->
  cc_isGodModeEnabled st = false ->
  within_pool st afterAi ->
  within_pool (manual_changes st changes) afterAi.
Proof.
  revert st; induction changes as [|[n op] changes IH]; intros st Hai Hgod Hin;
    [exact Hin|].
  unfold manual_changes. simpl. apply IH.
  - rewrite (proj1 (handleManualStatChange_keeps st n op)). exact Hai.
  - rewrite (proj2 (handleManualStatChange_keeps st n op)). exact Hgod.
  - destruct Hin as (Hsum & Hpool & Hfloor).
    destruct (handleManualStatChange_cases st n op afterAi Hai)
      as [(_ & Hs & Hmin & Hd & Hp) | (_ & Hs & Hd)].
    + split; [rewrite Hd; apply Qeq_refl|]. split; [apply Hp, Hgod|].
      intro m. rewrite Hs. unfold set_stat.
      destruct (StatName_eqb m n); [|apply Hfloor].
      rewrite or_base_nonzero; [exact Hmin|].
      unfold MIN_STAT_VALUE in Hmin. intro H. lra.
    + unfold within_pool. rewrite Hs, Hd.
      split; [exact Hsum|]. split; [exact Hpool|exact Hfloor].
Qed.

(** ** The character that is created *)

Lemma Math_max_right (a b : Q) : (a <= b)%Q -> (Math_max a b == b)%Q.
Proof.
  intro H. unfold Math_max. destruct (Qltb a b) eqn:E; [apply Qeq_refl|].
  apply Qltb_false in E. apply Qle_antisym; assumption.
Qed.

Lemma modifier_at_floor (con : Q) :
  (MIN_STAT_VALUE <= con)%Q -> (-4 <= Qfloor ((con - 10) / 2))%Z.
Proof.
  intro H. change (-4)%Z with (Qfloor (Qmake (-7) 2)).
  apply Qfloor_resp_le. unfold MIN_STAT_VALUE in H.
  apply Qle_shift_div_l; [reflexivity|]. 
  setoid_replace (Qmake (-7) 2 * 2)%Q with (-7)%Q by reflexivity. lra.
Qed.

(** X16.  A character that the creator hands over starts sound: full hit
    points, which are at least 10 and, for a constitution not below the
    minimum, 20 plus twice the constitution modifier (at least 12); the
    abilities chosen; no statuses and an empty inventory; level 1 with no
    experience and the threshold 100.  The chat controller starts from it in
    a state whose level is consistent and in which nothing is pending. *)
Theorem created_character_starts_sound (st : CreatorState) (c : Character) :
  handleFinalizeCharacter st = inl c ->
  hp c = maxHp c /\ (10 <= maxHp c)%Q /\
  ((MIN_STAT_VALUE <= or_base (cc_currentStats st Constitution))%Q ->
   (maxHp c ==
    20 + inject_Z (Qfloor ((or_base (cc_currentStats st Constitution) - 10) / 2)) * 2)%Q
   /\ (12 <= maxHp c)%Q) /\
  stats c = cc_currentStats st /\
  statuses c = [] /\ inventory c = [] /\
  level c = 1 /\ character_currentXP c = Exactly 0 /\ xpToNextLevel c = Finite 100 /\
  exists s,
    initial_ChatState c None None = Some s /\
    level_consistent s /\ quiet s /\
    isDiceInterfaceActive s = false /\ isLevelUpModalOpen s = false.
Proof.
  unfold handleFinalizeCharacter.
  destruct (_ || _ || _ || _ || _ || _); [discriminate|].
  match goal with |- inl ?x = inl c -> _ => set (c0 := x) end.
  intro H. assert (Hc : c = c0) by congruence. subst c. clear H. unfold c0. clear c0.
  cbv beta iota delta [hp maxHp stats statuses inventory level character_currentXP
                      xpToNextLevel].
  split; [reflexivity|]. split; [apply Math_max_lower|].
  split.
  { intro Hcon. apply modifier_at_floor in Hcon.
    rewrite Zle_Qle in Hcon.
    set (m := inject_Z (Qfloor _)) in *.
    assert (Hm : (10 <= 20 + m * 2)%Q).
    { change (inject_Z (-4)) with (-4)%Q in Hcon. lra. }
    split.
    - apply Math_max_right. exact Hm.
    - pose proof (Math_max_right _ _ Hm) as E.
      change (inject_Z (-4)) with (-4)%Q in Hcon. lra. }
  repeat (split; [reflexivity|]).
  eexists. split; [reflexivity|].
  split.
  { split; [unfold MAX_LEVEL; simpl; lia|]. split; [reflexivity|discriminate]. }
  split; [split; [reflexivity|constructor]|]. split; reflexivity.
Qed.

(** ** The abilities before the manual step *)

Lemma or_zero_eq (m : Q) : (or_zero m == m)%Q.
Proof.
  unfold or_zero. destruct (Qeq_bool m 0) eqn:E; [|apply Qeq_refl].
  apply Qeq_bool_iff in E. symmetry. exact E.
Qed.

Lemma or_base_eq (v : Q) : ~ (v == 0)%Q -> (or_base (Some v) == v)%Q.
Proof. intro H. rewrite (or_base_nonzero v H). apply Qeq_refl. Qed.

(** X17.  Before the manual step an ability is the baseline of 10 plus the
    modifiers of the chosen race, of the chosen class and of the suggestions
    drawn from the backstory, each counted when present.  (A sum that
    passes through zero on the way is taken for missing and reset to the
    baseline, which the two side conditions exclude.) *)
Theorem ability_is_baseline_plus_modifiers (st : CreatorState) (n : StatName) :
  let race := find (fun r => is_selected (cc_selectedRaceId st) (race_id r))
                   (racesToDisplay st) in
  let cls := find (fun c => is_selected (cc_selectedClassId st) (class_id c))
                    (classesToDisplay st) in
  let r := modifier_in (option_map race_baseStatModifiers race) n in
  let c := modifier_in (option_map class_baseStatModifiers cls) n in
  let a := modifier_in (option_map stat_modifiers (cc_aiSuggestions st)) n in
  ~ (10 + r == 0)%Q -> ~ (10 + r + c == 0)%Q ->
  exists afterAi v,
    cc_statsAfterAi (calculateCurrentStats st) = Some afterAi /\
    afterAi n = Some v /\ (v == 10 + r + c + a)%Q /\
    (cc_step st < 7 -> cc_currentStats (calculateCurrentStats st) = afterAi).
Proof.
  intros race cls r c a Hr Hc.
  unfold calculateCurrentStats. fold race cls.
  set (s1 := match race with Some x => _ | None => _ end).
  set (s2 := match cls with Some x => _ | None => _ end).
  set (s3 := match cc_aiSuggestions st with Some x => _ | None => _ end).
  assert (H1 : exists v1, s1 n = Some v1 /\ (v1 == 10 + r)%Q).
  { unfold s1, r. destruct race as [x|]; cbn [option_map modifier_in].
    - unfold add_modifiers. destruct (race_baseStatModifiers x n) as [m|].
      + eexists. split; [reflexivity|].
        rewrite or_zero_eq. reflexivity.
      + exists 10%Q. split; [reflexivity|]. ring.
    - exists 10%Q. split; [reflexivity|]. ring. }
  destruct H1 as (v1 & E1 & Q1).
  assert (H2 : exists v2, s2 n = Some v2 /\ (v2 == 10 + r + c)%Q).
  { unfold s2, c. destruct cls as [x|]; cbn [option_map modifier_in].
    - unfold add_modifiers. destruct (class_baseStatModifiers x n) as [m|].
      + eexists. split; [reflexivity|].
        rewrite E1. rewrite or_zero_eq, or_base_eq; [rewrite Q1; reflexivity|].
        rewrite Q1. exact Hr.
      + exists v1. split; [exact E1|]. rewrite Q1. ring.
    - exists v1. split; [exact E1|]. rewrite Q1. ring. }
  destruct H2 as (v2 & E2 & Q2).
  assert (H3 : exists v3, s3 n = Some v3 /\ (v3 == 10 + r + c + a)%Q).
  { unfold s3, a. destruct (cc_aiSuggestions st) as [x|]; cbn [option_map modifier_in].
    - unfold add_ai_modifiers. destruct (stat_modifiers x n) as [m|].
      + rewrite E2. eexists. split; [reflexivity|].
        rewrite or_zero_eq, or_base_eq; [rewrite Q2; reflexivity|].
        rewrite Q2. exact Hc.
      + exists v2. split; [exact E2|]. rewrite Q2. ring.
    - exists v2. split; [exact E2|]. rewrite Q2. ring. }
  destruct H3 as (v3 & E3 & Q3).
  exists s3, v3.
  destruct (Nat.ltb (cc_step st) 7) eqn:E7.
  - repeat split; try assumption. 
  - destruct (_ && _); (split; [reflexivity|]); (split; [exact E3|]);
      (split; [exact Q3|]); intro H; apply Nat.ltb_lt in H; congruence.
Qed.

Lemma point_pool_is_respected_witness :
  exists afterAi,
    cc_statsAfterAi (calculateCurrentStats creating_elf_mage) = Some afterAi /\
    within_pool
      (manual_changes (calculateCurrentStats creating_elf_mage) seven_on_strength)
      afterAi.
Proof.
  eexists. split; [reflexivity|].
  apply point_pool_is_respected; [reflexivity|reflexivity|].
  split; [reflexivity|].
  split; [split; discriminate|].
  intro n; destruct n; discriminate.
Defined.

Example seventh_point_refused :
  let st := manual_changes (calculateCurrentStats creating_elf_mage) seven_on_strength in
  cc_currentStats st Strength = Some 16%Q /\
  cc_totalPointsDelta st = 6%Q /\
  cc_error st = Some (IncreaseLimitExceeded 7).
Proof. vm_compute. repeat split. Qed.

Lemma created_character_starts_sound_witness :
  exists c,
    handleFinalizeCharacter (calculateCurrentStats creating_elf_mage) = inl c /\
    hp c = maxHp c /\ (10 <= maxHp c)%Q /\ level c = 1.
Proof.
  eexists. split; [reflexivity|].
  destruct (created_character_starts_sound
              (calculateCurrentStats creating_elf_mage) _ eq_refl)
    as (H1 & H2 & _ & _ & _ & _ & H3 & _).
  split; [exact H1|]. split; [exact H2|exact H3].
Defined.

Lemma ability_is_baseline_plus_modifiers_witness :
  exists afterAi v,
    cc_statsAfterAi (calculateCurrentStats creating_elf_mage) = Some afterAi /\
    afterAi Intelligence = Some v /\ (v == 13)%Q /\
    (cc_step creating_elf_mage < 7 ->
     cc_currentStats (calculateCurrentStats creating_elf_mage) = afterAi).
Proof.
  apply (ability_is_baseline_plus_modifiers creating_elf_mage Intelligence);
    discriminate.
Defined.

(** ** The client of the completion service *)

Lemma getAi_matches (host : Host) (st : ServiceState) :
  client_matches host st -> client_matches host (snd (getAi host st)).
Proof.
  unfold client_matches, getAi. intro H.
  destruct (environment_key host) as [k|] eqn:Ek;
    destruct (userProvidedApiKey st) as [u|] eqn:Eu;
    try destruct (Nat.eqb (length u) 0) eqn:El;
    destruct (ai_client st) as [c|] eqn:Ec;
    destruct (isManuallyInitialized st) eqn:Em;
    cbn [orb andb negb fst snd];
    try match goal with
        | |- context [GoogleGenAI_accepts host ?x] =>
            destruct (GoogleGenAI_accepts host x) eqn:Ea
        end;
    cbn [snd ai_client userProvidedApiKey isManuallyInitialized];
    rewrite ?Ec, ?Em, ?Eu, ?El; intuition congruence.
Qed.

(** What [trySetManualApiKey] returns and leaves, by the key [getAi] takes. *)
Lemma trySetManualApiKey_cases (host : Host) (key : text) (st : ServiceState) :
  let out := trySetManualApiKey host key st in
  let k := match environment_key host with Some e => e | None => trim key end in
  (fst out = true /\ 10 <= length (trim key) /\ GoogleGenAI_accepts host k = true /\
   snd out = {| ai_client := Some k; userProvidedApiKey := Some (trim key);
                isManuallyInitialized :=
                  match environment_key host with Some _ => false | None => true end |})
  \/
  (fst out = false /\
   (length (trim key) < 10 \/ GoogleGenAI_accepts host k = false) /\
   snd out = service_start).
Proof.
  cbv zeta. unfold trySetManualApiKey.
  destruct (Nat.eqb (length key) 0) eqn:E0.
  { right. destruct key; [|discriminate]. cbn. repeat split. left. lia. }
  destruct (Nat.ltb (length (trim key)) 10) eqn:E10; cbn [orb].
  { right. apply Nat.ltb_lt in E10. repeat split. left. exact E10. }
  apply Nat.ltb_ge in E10.
  unfold getAi. cbn [userProvidedApiKey ai_client isManuallyInitialized].
  destruct (environment_key host) as [e|].
  - cbn [orb andb negb]. destruct (GoogleGenAI_accepts host e) eqn:Ea.
    + left. repeat split; assumption.
    + right. repeat split. right. reflexivity.
  - destruct (Nat.eqb (length (trim key)) 0) eqn:Et.
    { apply Nat.eqb_eq in Et. lia. }
    cbn [orb andb negb]. destruct (GoogleGenAI_accepts host (trim key)) eqn:Ea.
    + left. repeat split; assumption.
    + right. repeat split. right. reflexivity.
Qed.

Lemma trySetManualApiKey_matches (host : Host) (key : text) (st : ServiceState) :
  client_matches host (snd (trySetManualApiKey host key st)).
Proof.
  destruct (trySetManualApiKey_cases host key st)
    as [(_ & Hl & Ha & ->) | (_ & _ & ->)]; [|exact eq_refl].
  unfold client_matches. cbn [ai_client isManuallyInitialized userProvidedApiKey].
  split; [exact Ha|].
  destruct (environment_key host) as [e|]; [reflexivity|].
  split; [reflexivity|]. apply Nat.eqb_neq. lia.
Qed.

Lemma service_after_matches (host : Host) (calls : list service_call) :
  client_matches host (service_after host calls).
Proof.
  unfold service_after.
  assert (H : client_matches host service_start) by exact eq_refl.
  revert H. generalize service_start.
  induction calls as [|c calls IH]; intros st H; [exact H|].
  simpl. apply IH. destruct c; cbn [service_step].
  - apply getAi_matches, H.
  - apply trySetManualApiKey_matches.
  - exact eq_refl.
Qed.

(** X18.  Whatever calls the program has made to the service module,
    [getAi] returns the client of the key in force (the key of the
    environment when it is usable, otherwise the key the player gave), which
    the client library accepted; the client is kept, and a second call
    returns it again.  [getAi] throws exactly when no key is in force or the
    library rejects the key in force. *)
Theorem client_is_built_with_the_key_in_force (host : Host)
    (calls : list service_call) :
  let st := service_after host calls in
  (forall c, fst (getAi host st) = Some c ->
             key_in_force host st = Some c /\ GoogleGenAI_accepts host c = true /\
             ai_client (snd (getAi host st)) = Some c /\
             getAi host (snd (getAi host st)) = getAi host st) /\
  (fst (getAi host st) = None <->
   match key_in_force host st with
   | Some k => GoogleGenAI_accepts host k = false
   | None => True
   end).
Proof.
  intro st. pose proof (service_after_matches host calls) as H. fold st in H.
  revert H. generalize st. clear st. intros st H.
  unfold client_matches in H. unfold getAi, key_in_force.
  destruct (environment_key host) as [k|] eqn:Ek;
    destruct (userProvidedApiKey st) as [u|] eqn:Eu;
    try destruct (Nat.eqb (length u) 0) eqn:El;
    destruct (ai_client st) as [c0|] eqn:Ec;
    destruct (isManuallyInitialized st) eqn:Em;
    cbn [orb andb negb fst snd];
    try match goal with
        | |- context [GoogleGenAI_accepts host ?x] =>
            destruct (GoogleGenAI_accepts host x) eqn:Ea
        end;
    cbn [fst snd ai_client userProvidedApiKey isManuallyInitialized orb andb negb];
    rewrite ?Ec, ?Em, ?Eu, ?El, ?Ea;
    cbn [fst snd ai_client userProvidedApiKey isManuallyInitialized orb andb negb];
    rewrite ?Ea;
    (split; [intros c E; try discriminate; try (injection E as <-) |]);
    try (repeat split; intuition congruence).
Qed.

(** X19.  [trySetManualApiKey] succeeds exactly when the trimmed key has at
    least ten characters and the client library accepts the key [getAi]
    takes, which is the key of the environment when that one is usable: the
    key the player typed is then not tried at all.  On success the client is
    built and the typed key remembered; on failure the module is back in its
    initial state, with no client and no remembered key. *)
Theorem manual_key_accepted_or_forgotten (host : Host) (key : text)
    (st : ServiceState) :
  let out := trySetManualApiKey host key st in
  let k := match environment_key host with Some e => e | None => trim key end in
  (fst out = true <->
   10 <= length (trim key) /\ GoogleGenAI_accepts host k = true) /\
  (fst out = true ->
   ai_client (snd out) = Some k /\ userProvidedApiKey (snd out) = Some (trim key) /\
   key_in_force host (snd out) = Some k /\
   fst (getAi host (snd out)) = Some k) /\
  (fst out = false -> snd out = service_start).
Proof.
  intros out k.
  destruct (trySetManualApiKey_cases host key st)
    as [(Ho & Hl & Ha & Hs) | (Ho & Hr & Hs)]; fold out in Ho, Hs.
  - fold k in Ha, Hs. split; [split; [intros _; split; assumption|intros _; exact Ho]|].
    split; [|rewrite Ho; discriminate].
    intros _. rewrite Hs. cbn [ai_client userProvidedApiKey].
    split; [reflexivity|]. split; [reflexivity|].
    unfold key_in_force, getAi, k.
    cbn [ai_client userProvidedApiKey isManuallyInitialized].
    destruct (environment_key host) as [e|]; [split; reflexivity|].
    assert (E : Nat.eqb (length (trim key)) 0 = false)
      by (apply Nat.eqb_neq; lia).
    rewrite E. split; reflexivity.
  - split.
    + split; [rewrite Ho; discriminate|].
      intros [Hl Ha]. destruct Hr as [Hr|Hr]; [lia|]. fold k in Hr. congruence.
    + split; [rewrite Ho; discriminate|intros _; exact Hs].
Qed.

(** ** Start-up *)

Lemma has_truthy_test (game : json) (k : text) :
  has_truthy game k <->
  exists v, get_prop game k = Ok v /\ truthy_prop v = true.
Proof.
  unfold has_truthy. split.
  - intros (v & E & H). exists (Some v). split; assumption.
  - intros ([v|] & E & H); [|discriminate]. exists v. split; assumption.
Qed.

(** What the setup does with the stored text. *)
Lemma performInitialSetup_cases (host : Host) (service : ServiceState)
    (stored : option text) :
  let s := performInitialSetup host service stored in
  (exists game, is_saved_game stored game /\
                setup_gamePhase s = LoadPrompt /\
                setup_savedGameData s = Some game /\ setup_storage s = stored)
  \/
  ((forall game, ~ is_saved_game stored game) /\
   setup_gamePhase s = CharacterCreation /\ setup_savedGameData s = None /\
   (setup_storage s = None \/ setup_storage s = Some [])).
Proof.
  unfold performInitialSetup.
  destruct stored as [text|].
  2:{ right. split; [intros g (t & E & _); discriminate|].
      split; [reflexivity|]. split; [reflexivity|left; reflexivity]. }
  destruct (Nat.eqb (length text) 0) eqn:El; cbn [negb].
  { right. destruct text; [|discriminate].
    split; [intros g (t & E & Hp & _); injection E as <-; discriminate|].
    split; [reflexivity|]. split; [reflexivity|right; reflexivity]. }
  unfold try_catch, bind, lift, assign.
  destruct (JSON_parse text) as [game|e] eqn:Ep.
  2:{ right. split; [intros g (t & E & Hp & _); injection E as <-; congruence|].
      cbn. split; [reflexivity|]. split; [reflexivity|left; reflexivity]. }
  assert (Hgame : forall g, is_saved_game (Some text) g -> g = game).
  { intros g (t & E & Hp & _). injection E as <-. congruence. }
  destruct (get_prop game (lit "character")) as [v1|e1] eqn:E1.
  2:{ right. split.
      - intros g Hg. pose proof (Hgame g Hg) as ->.
        destruct Hg as (t & _ & _ & (v & Hv & _) & _). congruence.
      - cbn. split; [reflexivity|]. split; [reflexivity|left; reflexivity]. }
  destruct (truthy_prop v1) eqn:T1.
  2:{ right. split.
      - intros g Hg. pose proof (Hgame g Hg) as ->.
        destruct Hg as (t & _ & _ & Hc & _). apply has_truthy_test in Hc.
        destruct Hc as (v & Hv & Ht). congruence.
      - cbn. split; [reflexivity|]. split; [reflexivity|left; reflexivity]. }
  destruct (get_prop game (lit "chatHistory")) as [v2|e2] eqn:E2.
  2:{ right. split.
      - intros g Hg. pose proof (Hgame g Hg) as ->.
        destruct Hg as (t & _ & _ & _ & (v & Hv & _) & _). congruence.
      - cbn. split; [reflexivity|]. split; [reflexivity|left; reflexivity]. }
  destruct (truthy_prop v2) eqn:T2.
  2:{ right. split.
      - intros g Hg. pose proof (Hgame g Hg) as ->.
        destruct Hg as (t & _ & _ & _ & Hc & _). apply has_truthy_test in Hc.
        destruct Hc as (v & Hv & Ht). congruence.
      - cbn. split; [reflexivity|]. split; [reflexivity|left; reflexivity]. }
  destruct (get_prop game (lit "lastSaved")) as [v3|e3] eqn:E3.
  2:{ right. split.
      - intros g Hg. pose proof (Hgame g Hg) as ->.
        destruct Hg as (t & _ & _ & _ & _ & (v & Hv & _)). congruence.
      - cbn. split; [reflexivity|]. split; [reflexivity|left; reflexivity]. }
  destruct (truthy_prop v3) eqn:T3.
  2:{ right. split.
      - intros g Hg. pose proof (Hgame g Hg) as ->.
        destruct Hg as (t & _ & _ & _ & _ & Hc). apply has_truthy_test in Hc.
        destruct Hc as (v & Hv & Ht). congruence.
      - cbn. split; [reflexivity|]. split; [reflexivity|left; reflexivity]. }
  left. exists game. split.
  - exists text. split; [reflexivity|]. split; [exact Ep|].
    split; [apply has_truthy_test; exists v1; split; assumption|].
    split; apply has_truthy_test; eexists; split; eassumption.
  - cbn. repeat split.
Qed.

(** X20.  At start-up the saved game is offered for loading exactly when the
    stored text parses to a value whose [character], [chatHistory] and
    [lastSaved] are all truthy; the parsed value is then the one offered and
    the storage is left as it is.  In every other case (nothing stored, a
    text that does not parse, a member missing or falsy) the application goes
    to character creation with no saved game, and a stored text that is not
    empty has been removed from the storage. *)
Theorem saved_game_offered_or_discarded (host : Host) (service : ServiceState)
    (stored : option text) :
  let s := performInitialSetup host service stored in
  (setup_gamePhase s = LoadPrompt <-> exists game, is_saved_game stored game) /\
  (forall game, is_saved_game stored game ->
     setup_savedGameData s = Some game /\ setup_storage s = stored) /\
  (setup_gamePhase s <> LoadPrompt ->
   setup_gamePhase s = CharacterCreation /\ setup_savedGameData s = None /\
   (setup_storage s = None \/ setup_storage s = Some [])).
Proof.
  intro s.
  destruct (performInitialSetup_cases host service stored)
    as [(game & Hg & Hp & Hd & Hs) | (Hno & Hp & Hd & Hs)]; fold s in Hp, Hd, Hs.
  - split; [split; [intros _; exists game; exact Hg|intros _; exact Hp]|].
    split.
    + intros g Hg'.
      assert (g = game).
      { destruct Hg as (t & E & P & _), Hg' as (t' & E' & P' & _). congruence. }
      subst g. split; assumption.
    + intro H. contradiction.
  - split; [split; [rewrite Hp; discriminate|intros (g & Hg); exfalso; exact (Hno g Hg)]|].
    split.
    + intros g Hg. exfalso. exact (Hno g Hg).
    + intros _. split; [exact Hp|]. split; assumption.
Qed.

(** X21.  The application and the service module test the key of the
    environment differently: the application wants more than ten characters,
    [getAi] at least ten.  A key the application counts as available is one
    [getAi] uses; a key [getAi] uses that the application does not count has
    exactly ten characters. *)
Theorem key_that_counts_is_usable (host : Host) :
  (environment_key_counts host = true -> environment_key host = API_KEY host) /\
  (forall k, environment_key host = Some k ->
             environment_key_counts host = false -> length k = 10).
Proof.
  unfold environment_key_counts, environment_key.
  destruct (API_KEY host) as [k|]; [|split; [discriminate|discriminate]].
  destruct (negb (Nat.eqb (length k) 0) && negb (text_eqb k API_KEY_PLACEHOLDER)) eqn:E;
    cbn [andb]; [|split; discriminate].
  split.
  - intro H. apply Nat.ltb_lt in H.
    replace (Nat.leb 10 (length k)) with true
      by (symmetry; apply Nat.leb_le; lia).
    reflexivity.
  - intros k'. destruct (Nat.leb 10 (length k)) eqn:E1; [|discriminate].
    intros H H2. injection H as <-.
    apply Nat.leb_le in E1. apply Nat.ltb_ge in H2. lia.
Qed.
